(** * Portfolio sourcer: attribution verification, deduplication, link health

    A shallow embedding of the decision logic of the portfolio sourcer:

    - [Discovery]      : [portfolio_sourcer/discovery.py], class [DiscoveryEngine]
    - [Verification]   : [portfolio_sourcer/verification.py], class [VerificationSystem]
    - [LinkValidator]  : [portfolio_sourcer/link_validator.py], class [LinkValidator]
    - [ReportGenerator]: [portfolio_sourcer/report_generator.py], class [ReportGenerator]
    - [Legacy]         : the single-file agent [portfolio_sourcer.py], class [PortfolioSourcer]

    A Python [str] is the list of its code points, each at most U+00FF (an
    [ascii] is one such code point).  On these the character-level primitives
    ([lower], [split], the classes [\w] and [\s], matching under
    [IGNORECASE]) are those of Python; text with code points above U+00FF is
    not represented, and a statement that would fail on such text carries the
    restriction to ASCII ([is_ascii]) as a hypothesis.  Python
    sets are [gset]s, Python [int]s are [Z] (lengths are [nat]), and the float
    quotient of two lengths is the rational it rounds: for sets of fewer than
    2^50 words, comparing that float with the literal [0.8] is comparing the
    rational with 4/5.  Dictionaries with a fixed set of keys are records whose
    fields are optional ([None] is an absent key).  Log output is omitted.  The
    network is a parameter of the functions that use it. *)

From Stdlib Require Import ZArith QArith Ascii String List Bool Lia DecimalString.
From stdpp Require Import base decidable option list gmap sets strings.

Local Open Scope char_scope.
Local Open Scope list_scope.

(** ** Python strings *)

Definition str : Type := list ascii.

(** A string literal. *)
Definition py (s : string) : str := list_ascii_of_string s.

Module Py.

Definition code (c : ascii) : nat := nat_of_ascii c.

Definition between (lo hi : nat) (c : ascii) : bool :=
  Nat.leb lo (code c) && Nat.leb (code c) hi.

(** The ASCII letters and digits: [A-Z], [a-z], [0-9]. *)
Definition is_upper : ascii -> bool := between 65 90.
Definition is_lower : ascii -> bool := between 97 122.
Definition is_digit : ascii -> bool := between 48 57.
Definition is_alpha (c : ascii) : bool := is_upper c || is_lower c.

(** [s.isascii()] *)
Definition is_ascii (s : str) : bool := forallb (fun c => Nat.leb (code c) 127) s.

(** [c.isspace()], which is also the class [\s] and what [str.split()] splits
    at: tab, line feed, vertical tab, form feed, carriage return, the four
    separators 28..31, the blank, U+0085 and U+00A0. *)
Definition is_space (c : ascii) : bool :=
  between 9 13 c || between 28 32 c || Nat.eqb (code c) 133 || Nat.eqb (code c) 160.

(** [c.isalnum()]: the ASCII letters and digits, and of U+0080..U+00FF the
    letters, the superscript digits and the fractions. *)
Definition is_alnum (c : ascii) : bool :=
  is_alpha c || is_digit c
  || Nat.eqb (code c) 170 || between 178 179 c || Nat.eqb (code c) 181
  || between 185 186 c || between 188 190 c
  || between 192 214 c || between 216 246 c || between 248 255 c.

(** The class [\w] of the [re] module on [str]: [c.isalnum()] or [_]. *)
Definition is_word (c : ascii) : bool :=
  is_alnum c || Ascii.eqb c "_".

(** The characters [str.lower] changes: [A-Z], U+00C0..U+00D6 and
    U+00D8..U+00DE; each moves up by 32. *)
Definition has_lower (c : ascii) : bool :=
  is_upper c || between 192 214 c || between 216 222 c.

Definition lower_char (c : ascii) : ascii :=
  if has_lower c then ascii_of_nat (code c + 32) else c.

(** [s.lower()] *)
Definition lower (s : str) : str := map lower_char s.

(** [not s] *)
Definition is_empty (s : str) : bool :=
  match s with [] => true | _ :: _ => false end.

Fixpoint str_eqb (a b : str) : bool :=
  match a, b with
  | [], [] => true
  | x :: a', y :: b' => Ascii.eqb x y && str_eqb a' b'
  | _, _ => false
  end.

(** [s.startswith(p)] *)
Fixpoint startswith (p s : str) : bool :=
  match p, s with
  | [], _ => true
  | _ :: _, [] => false
  | a :: p', b :: s' => Ascii.eqb a b && startswith p' s'
  end.

(** [sub in s] *)
Fixpoint str_in (sub s : str) : bool :=
  startswith sub s ||
  match s with
  | [] => false
  | _ :: s' => str_in sub s'
  end.

(** [c in s] for a single character [c]. *)
Definition char_in (c : ascii) (s : str) : bool := existsb (Ascii.eqb c) s.

(** [s.count(c)] for a single character [c]. *)
Definition count_char (c : ascii) (s : str) : nat := length (List.filter (Ascii.eqb c) s).

(** [s.replace(c, "")] for a single character [c]. *)
Definition remove_char (c : ascii) (s : str) : str :=
  List.filter (fun x => negb (Ascii.eqb x c)) s.

(** [s.rstrip(c)] for a single character [c]. *)
Fixpoint rstrip (c : ascii) (s : str) : str :=
  match s with
  | [] => []
  | a :: s' =>
      match rstrip c s' with
      | [] => if Ascii.eqb a c then [] else [a]
      | r => a :: r
      end
  end.

(** The longest prefix whose characters satisfy [p], and the rest. *)
Fixpoint span (p : ascii -> bool) (s : str) : str * str :=
  match s with
  | [] => ([], [])
  | c :: s' =>
      if p c then let '(a, b) := span p s' in (c :: a, b) else ([], s)
  end.

(** [s.lstrip(chars)], the set [chars] given by its membership test. *)
Definition lstrip (p : ascii -> bool) (s : str) : str := snd (span p s).

(** [s.split()]: the maximal runs of non-blank characters.  [cur] holds the
    characters of the run being read, last one first. *)
Fixpoint split_from (cur : str) (s : str) : list str :=
  match s with
  | [] => if is_empty cur then [] else [rev cur]
  | c :: s' =>
      if is_space c
      then if is_empty cur then split_from [] s' else rev cur :: split_from [] s'
      else split_from (c :: cur) s'
  end.

Definition split (s : str) : list str := split_from [] s.

(** [sep.join(l)] *)
Fixpoint join (sep : str) (l : list str) : str :=
  match l with
  | [] => []
  | [x] => x
  | x :: l' => x ++ sep ++ join sep l'
  end.

(** [str(n)] for a length [n]. *)
Definition str_of_nat (n : nat) : str :=
  py (NilEmpty.string_of_uint (Nat.to_uint n)).

(** [str(z)] for an integer [z]. *)
Definition str_of_Z (z : Z) : str :=
  py (NilEmpty.string_of_int (Z.to_int z)).

End Py.

(** ** [urllib.parse]

    [urlsplit] and [urlparse] of the CPython 3.11 standard library, on [str]
    arguments with the default [scheme=''] and [allow_fragments=True].  A
    result of [None] is the [ValueError] the functions raise.  The validation
    of a bracketed host ([_check_bracketed_netloc], which calls into
    [ipaddress] and differs between releases) is the parameter
    [check_bracketed_netloc]; it is consulted only when the network location
    holds both an opening and a closing bracket.  [_checknetloc] raises only
    when the NFKC form of the network location holds one of [/?#@:] that the
    location itself does not; no code point up to U+00FF has such a form, so
    on the strings represented here it never raises. *)

Module UrlParse.
Import Py.

Record SplitResult := mkSplit {
  s_scheme : str; s_netloc : str; s_path : str; s_query : str; s_fragment : str
}.

Record ParseResult := mkParse {
  scheme : str; netloc : str; path : str; params : str; query : str; fragment : str
}.

(** [_WHATWG_C0_CONTROL_OR_SPACE] *)
Definition is_c0_control_or_space (c : ascii) : bool := Nat.leb (code c) 32.

(** [_UNSAFE_URL_BYTES_TO_REMOVE = ['\t', '\r', '\n']] *)
Definition is_unsafe_url_byte (c : ascii) : bool :=
  Ascii.eqb c "009" || Ascii.eqb c "013" || Ascii.eqb c "010".

Definition is_safe (c : ascii) : bool := negb (is_unsafe_url_byte c).

(** [for b in _UNSAFE_URL_BYTES_TO_REMOVE: url = url.replace(b, "")] *)
Definition remove_unsafe_bytes (url : str) : str := List.filter is_safe url.

(** [scheme_chars] *)
Definition is_scheme_char (c : ascii) : bool :=
  is_alpha c || is_digit c || Ascii.eqb c "+" || Ascii.eqb c "-" || Ascii.eqb c ".".

Definition uses_params : list str :=
  map py ["" ; "ftp"; "hdl"; "prospero"; "http"; "imap"; "https"; "shttp";
          "rtsp"; "rtspu"; "sip"; "sips"; "mms"; "sftp"; "tel"]%string.

Definition is_not (c : ascii) (x : ascii) : bool := negb (Ascii.eqb x c).

(** [url.split(c, 1)] when [c in url], as the pair before/after; the pair
    [(url, "")] otherwise, which is what the callers keep in that case. *)
Definition split_once (c : ascii) (url : str) : str * str :=
  let '(before, rest) := span (is_not c) url in
  (before, tl rest).

(** The scheme test of [urlsplit]: [i = url.find(':')], [i > 0], a first
    character that is an ASCII letter and only scheme characters before the
    colon. *)
Definition split_scheme (url : str) : str * str :=
  match span (is_not ":") url with
  | (c0 :: pre, _ :: rest) =>
      if is_alpha c0 && forallb is_scheme_char (c0 :: pre)
      then (lower (c0 :: pre), rest)
      else ([], url)
  | _ => ([], url)
  end.

(** The characters before the first of [/], [?] and [#]. *)
Definition is_netloc_char (c : ascii) : bool :=
  negb (Ascii.eqb c "/" || Ascii.eqb c "?" || Ascii.eqb c "#").

(** [_splitnetloc(url, 2)] on a [url] that starts with two slashes, given
    without them. *)
Definition _splitnetloc (after_slashes : str) : str * str :=
  span is_netloc_char after_slashes.

(** [_splitparams(url)], called when [';' in url]. *)
Definition _splitparams (url : str) : str * str :=
  if char_in "/" url then
    (* i = url.find(';', url.rfind('/')) *)
    let '(last_rev, head_rev) := span (is_not "/") (rev url) in
    let '(before, rest) := span (is_not ";") (rev last_rev) in
    match rest with
    | [] => (url, [])
    | _ :: after => (rev head_rev ++ before, after)
    end
  else split_once ";" url.

Section Runtime.
Variable check_bracketed_netloc : str -> bool.

(** The network location of [urlsplit]: [if url[:2] == '//'], the split and
    the bracket tests; [None] is the [ValueError]. *)
Definition split_netloc (url : str) : option (str * str) :=
  if startswith (py "//") url then
    let '(netloc, url) := _splitnetloc (drop 2 url) in
    if (char_in "[" netloc && negb (char_in "]" netloc))
       || (char_in "]" netloc && negb (char_in "[" netloc))
    then None
    else if char_in "[" netloc && char_in "]" netloc
            && negb (check_bracketed_netloc netloc)
    then None
    else Some (netloc, url)
  else Some ([], url).

Definition urlsplit (url : str) : option SplitResult :=
  let url := lstrip is_c0_control_or_space url in
  let url := remove_unsafe_bytes url in
  let '(scheme, url) := split_scheme url in
  match split_netloc url with
  | None => None
  | Some (netloc, url) =>
      let '(url, fragment) := split_once "#" url in
      let '(url, query) := split_once "?" url in
      Some (mkSplit scheme netloc url query fragment)
  end.

Definition urlparse (url : str) : option ParseResult :=
  match urlsplit url with
  | None => None
  | Some (mkSplit scheme netloc url query fragment) =>
      let '(url, params) :=
        if existsb (str_eqb scheme) uses_params && char_in ";" url
        then _splitparams url
        else (url, []) in
      Some (mkParse scheme netloc url params query fragment)
  end.
End Runtime.

(** ** Shapes of parsed URLs, for the statements below *)

(** A scheme as [urlsplit] returns it when it finds one. *)
Definition good_scheme (s : str) : Prop :=
  exists c pre, s = c :: pre /\ is_alpha c = true
                /\ forallb is_scheme_char s = true /\ lower s = s.

(** [x.split('/')[-1]]: what follows the last slash. *)
Definition last_segment (x : str) : str := rev (fst (span (is_not "/") (rev x))).

(** The text has a slash, and a [;] after the last one: [_splitparams] cuts
    it there. *)
Definition params_in_last_segment (x : str) : bool :=
  char_in "/" x && char_in ";" (last_segment x).

(** What follows the colon in the string [_normalize_url] returns, [t] being
    the network location and the path without trailing slashes: the two
    slashes are stripped as well when [t] is empty. *)
Definition after_colon (t : str) : str :=
  if is_empty t then [] else "/" :: "/" :: t.

(** A second parse splits parameters off the normalized URL: the scheme is
    one that takes parameters and, once the trailing slashes are stripped,
    network location and path have a [;] after their last slash. *)
Definition loses_params (parsed : ParseResult) : bool :=
  existsb (str_eqb (scheme parsed)) uses_params
  && params_in_last_segment (rstrip "/" (netloc parsed ++ path parsed)).

(** The parts of a URL that [_normalize_url] reads. *)
Definition same_location (a b : option ParseResult) : Prop :=
  match a, b with
  | None, None => True
  | Some x, Some y => scheme x = scheme y /\ netloc x = netloc y /\ path x = path y
  | _, _ => False
  end.

(** An interpreter without [_check_bracketed_netloc] (CPython before 3.11.4)
    validates nothing inside the brackets. *)
Definition no_bracket_check (_ : str) : bool := true.

End UrlParse.

(** ** Candidate records *)

(** A project dictionary; [None] is an absent key. *)
Record project := mkProject {
  title : option str;
  url : option str;
  snippet : option str;
  source_query : option str;
  discovered_at : option str;
  verification_score : option Z
}.

(** ** The [re] patterns the program uses *)

Module Re.
Import Py.

Definition is_word_at (c : option ascii) : bool :=
  match c with Some x => is_word x | None => false end.

(** [\b] between the character [before] and the character [after], either
    of which is [None] at an end of the text. *)
Definition boundary (before after : option ascii) : bool :=
  xorb (is_word_at before) (is_word_at after).

(** The escaped literal [lit] read at the front of [s] under [IGNORECASE]:
    the last character read ([prev] when [lit] is empty) and what follows. *)
Fixpoint match_literal (lit s : str) (prev : option ascii) : option (option ascii * str) :=
  match lit, s with
  | [], _ => Some (prev, s)
  | _ :: _, [] => None
  | a :: lit', b :: s' =>
      if Ascii.eqb (lower_char a) (lower_char b)
      then match_literal lit' s' (Some b)
      else None
  end.

(** A match of [lit] (of [\b lit \b] when [bounded]) that starts at the
    front of [s], the character before being [prev]. *)
Definition match_here (bounded : bool) (lit : str) (prev : option ascii) (s : str) : bool :=
  (negb bounded || boundary prev (head s)) &&
  match match_literal lit s prev with
  | Some (last, rest) => negb bounded || boundary last (head rest)
  | None => false
  end.

(** [len(pattern.findall(s))]: the matches are taken from left to right
    without overlap; [skip] characters still belong to the last match. *)
Fixpoint count_from (bounded : bool) (lit : str) (prev : option ascii)
                    (skip : nat) (s : str) : nat :=
  match s with
  | [] => if Nat.eqb skip 0 && match_here bounded lit prev [] then 1 else 0
  | c :: s' =>
      match skip with
      | S k => count_from bounded lit (Some c) k s'
      | O =>
          if match_here bounded lit prev s
          then S (count_from bounded lit (Some c) (length lit - 1) s')
          else count_from bounded lit (Some c) 0 s'
      end
  end.

Definition findall_count (bounded : bool) (lit : str) (s : str) : nat :=
  count_from bounded lit None 0 s.

(** [re.search(lit + "([cls]+)", s)] for an escaped literal [lit] and a
    character class [cls]: group 1 of the leftmost match. *)
Fixpoint search_run (lit : str) (cls : ascii -> bool) (s : str) : option str :=
  match (if startswith lit s then fst (span cls (drop (length lit) s)) else []) with
  | (_ :: _) as group => Some group
  | [] =>
      match s with
      | [] => None
      | _ :: s' => search_run lit cls s'
      end
  end.

(** [[a-zA-Z0-9_-]] *)
Definition is_id_char (c : ascii) : bool :=
  is_alpha c || is_digit c || Ascii.eqb c "_" || Ascii.eqb c "-".

End Re.

(** Comparison of similarity scores. *)
Definition Qgtb (x y : Q) : bool := negb (Qle_bool x y).
Definition Qltb (x y : Q) : bool := negb (Qle_bool y x).

(** ** [DiscoveryEngine] *)

Module Discovery.
Import Py UrlParse.

Section Runtime.
Variable check_bracketed_netloc : str -> bool.

Definition _normalize_url (url : str) : str :=
  if is_empty url then []
  else
    match urlparse check_bracketed_netloc url with
    | Some parsed =>
        lower (rstrip "/" (scheme parsed ++ py "://" ++ netloc parsed ++ path parsed))
    | None => lower url
    end.

Definition _calculate_similarity (text1 text2 : str) : Q :=
  if is_empty text1 || is_empty text2 then 0
  else
    let words1 : gset str := list_to_set (split (lower text1)) in
    let words2 : gset str := list_to_set (split (lower text2)) in
    if bool_decide (words1 = ∅) && bool_decide (words2 = ∅) then 1
    else if bool_decide (words1 = ∅) || bool_decide (words2 = ∅) then 0
    else
      let intersection := size (words1 ∩ words2) in
      let union := size (words1 ∪ words2) in
      if Nat.ltb 0 union then Z.of_nat intersection # Pos.of_nat union else 0.

(** The locals of [deduplicate_projects]. *)
Record dedup_state := mkDedup {
  seen_urls : gset str;
  seen_titles : gset str;
  unique : list project
}.

(** The normalized URL the loop computes for a record. *)
Definition normalized_url_of (p : project) : str :=
  _normalize_url (lower (default [] (url p))).

(** One iteration of the loop. *)
Definition dedup_step (st : dedup_state) (p : project) : dedup_state :=
  let title := lower (default [] (title p)) in
  let normalized_url := normalized_url_of p in
  if negb (is_empty normalized_url) && bool_decide (normalized_url ∉ seen_urls st)
  then
    let is_similar :=
      existsb (fun seen_title => Qgtb (_calculate_similarity title seen_title) (8 # 10))
              (elements (seen_titles st)) in
    if negb is_similar
    then mkDedup ({[normalized_url]} ∪ seen_urls st)
                 ({[title]} ∪ seen_titles st)
                 (unique st ++ [p])
    else st
  else st.

Definition deduplicate_projects (projects : list project) : list project :=
  unique (fold_left dedup_step projects (mkDedup ∅ ∅ [])).

(** What the loop maintains: the accepted records have pairwise different,
    non-empty normalized URLs, all of them in [seen_urls]. *)
Definition dedup_invariant (st : dedup_state) : Prop :=
  NoDup (map normalized_url_of (unique st))
  /\ Forall (fun p => normalized_url_of p ∈ seen_urls st /\ normalized_url_of p <> [])
            (unique st).

(** What the loop maintains besides: the two sets hold the normalized URLs
    and the lower-cased titles of the accepted records, and nothing else. *)
Definition dedup_seen (st : dedup_state) : Prop :=
  seen_urls st = list_to_set (map normalized_url_of (unique st))
  /\ seen_titles st
     = list_to_set (map (fun p => lower (default [] (title p))) (unique st)).

(** The record [q] stands for the record [p] in the output: it has the same
    normalized URL, or the title of [p] is more than 0.8 similar to its
    title. *)
Definition represents (q p : project) : Prop :=
  normalized_url_of q = normalized_url_of p
  \/ Qgtb (_calculate_similarity (lower (default [] (title p)))
                                 (lower (default [] (title q))))
          (8 # 10) = true.

(** *** The search, from the queries to the discovered projects *)

(** A search result, as the search API returns it. *)
Record search_result := mkResult {
  r_title : option str;
  r_url : option str;
  r_snippet : option str;
  r_source : option str
}.

(** The dictionary [extract_projects_from_results] builds; all six keys are
    present. *)
Record discovered_project := mkDiscovered {
  d_title : str;
  d_url : str;
  d_snippet : str;
  d_source_query : str;
  d_source_engine : str;
  d_discovered_at : str
}.

(** The keys of a discovered project that [project] has. *)
Definition as_project (d : discovered_project) : project :=
  mkProject (Some (d_title d)) (Some (d_url d)) (Some (d_snippet d))
            (Some (d_source_query d)) (Some (d_discovered_at d)) None.

Definition _is_valid_url (url : str) : bool :=
  match urlparse check_bracketed_netloc url with
  | Some parsed => negb (is_empty (scheme parsed)) && negb (is_empty (netloc parsed))
  | None => false
  end.

(** [perform_search]: [search_api] is [None] when no API is given; the API
    answers [None] when it raises. *)
Definition perform_search (query : str)
    (search_api : option (str -> option (list search_result))) : list search_result :=
  match search_api with
  | Some api =>
      match api query with
      | Some results => results
      | None => []
      end
  | None => []
  end.

Section Clock.
(** [time.strftime("%Y-%m-%d %H:%M:%S")]: what the clock shows when it is read
    for the n-th time. *)
Variable strftime : nat -> str.

(** [extract_projects_from_results]; [tick] counts the readings of the clock
    so far and is returned with the projects. *)
Fixpoint extract_projects_from_results (results : list search_result) (query : str)
    (tick : nat) : list discovered_project * nat :=
  match results with
  | [] => ([], tick)
  | result :: rest =>
      let project :=
        mkDiscovered (default [] (r_title result)) (default [] (r_url result))
                     (default [] (r_snippet result)) query
                     (default (py "unknown") (r_source result)) (strftime tick) in
      let '(projects, tick') := extract_projects_from_results rest query (S tick) in
      if negb (is_empty (d_url project)) && _is_valid_url (d_url project)
      then (project :: projects, tick')
      else (projects, tick')
  end.

(** [deduplicate_projects] on dictionaries with more keys than [project] has;
    [view] reads the keys of [project]. *)
Section Views.
Context {A : Type} (view : A -> project).

Definition dedup_step_on (st : gset str * gset str * list A) (entry : A)
  : gset str * gset str * list A :=
  let '(seen_urls, seen_titles, unique) := st in
  let title := lower (default [] (title (view entry))) in
  let normalized_url := normalized_url_of (view entry) in
  if negb (is_empty normalized_url) && bool_decide (normalized_url ∉ seen_urls)
  then
    let is_similar :=
      existsb (fun seen_title => Qgtb (_calculate_similarity title seen_title) (8 # 10))
              (elements seen_titles) in
    if negb is_similar
    then ({[normalized_url]} ∪ seen_urls, {[title]} ∪ seen_titles, unique ++ [entry])
    else st
  else st.

Definition deduplicate_on (entries : list A) : list A :=
  snd (fold_left dedup_step_on entries (∅, ∅, [])).

End Views.

(** The project [d] carries the title, URL, snippet and source of [result]. *)
Definition built_from (d : discovered_project) (result : search_result) : Prop :=
  d_title d = default [] (r_title result)
  /\ d_url d = default [] (r_url result)
  /\ d_snippet d = default [] (r_snippet result)
  /\ d_source_engine d = default (py "unknown") (r_source result).

(** The loop of [discover_projects] over the queries ([time.sleep] between
    two searches is left out). *)
Fixpoint search_all (queries : list str)
    (search_api : option (str -> option (list search_result))) (tick : nat)
  : list discovered_project :=
  match queries with
  | [] => []
  | query :: rest =>
      let results := perform_search query search_api in
      let '(projects, tick') := extract_projects_from_results results query tick in
      projects ++ search_all rest search_api tick'
  end.

End Clock.

End Runtime.

(** The attributes of a [DiscoveryEngine] that the queries are built from.  A
    writing source is a dictionary; its key [queries] may be absent. *)
Record DiscoveryEngine := mkEngine {
  verification_names : list str;
  known_brands : list str;
  known_agencies : list str;
  search_sources : list str;
  linkedin_url : str;
  writing_sources : list (option (list str))
}.

Definition dquote : ascii := "034".

(** [f'"{name}"'] *)
Definition quoted (name : str) : str := dquote :: name ++ [dquote].

(** [s.split(c)[-1]] *)
Definition last_part (c : ascii) (s : str) : str :=
  rev (fst (span (is_not c) (rev s))).

Definition name_queries (self : DiscoveryEngine) (name : str) : list str :=
  [quoted name ++ py " advertising campaign";
   quoted name ++ py " strategy";
   quoted name ++ py " portfolio";
   quoted name ++ py " credits";
   quoted name ++ py " creative strategist"]
  ++ map (fun agency => quoted name ++ py " " ++ agency) (take 3 (known_agencies self)).

Definition brand_queries (self : DiscoveryEngine) (brand : str) : list str :=
  map (fun name => quoted name ++ py " " ++ brand) (take 3 (verification_names self)).

Definition source_queries (self : DiscoveryEngine) (source : str) : list str :=
  map (fun name => py "site:" ++ source ++ py " " ++ quoted name)
      (take 2 (verification_names self)).

(** The two queries for the profile; [None] is the [IndexError] of
    [self.verification_names[0]]. *)
Definition linkedin_queries (self : DiscoveryEngine) : option (list str) :=
  if is_empty (linkedin_url self) then Some []
  else
    let linkedin_username := last_part "/" (linkedin_url self) in
    match verification_names self with
    | [] => None
    | first :: _ =>
        Some [py "site:linkedin.com " ++ quoted first;
              py "site:linkedin.com/in/" ++ linkedin_username]
    end.

Definition generate_search_queries (self : DiscoveryEngine) : option (list str) :=
  let queries := concat (map (name_queries self) (verification_names self)) in
  let queries := queries ++ concat (map (brand_queries self) (known_brands self)) in
  let queries := queries ++ concat (map (source_queries self) (search_sources self)) in
  match linkedin_queries self with
  | None => None
  | Some profile =>
      let queries := queries ++ profile in
      Some (queries ++ concat (map (default []) (writing_sources self)))
  end.

(** [discover_projects]; [None] is the [IndexError] of
    [generate_search_queries], which is raised before the first search. *)
Definition discover_projects (check_bracketed_netloc : str -> bool) (strftime : nat -> str)
    (self : DiscoveryEngine) (search_api : option (str -> option (list search_result)))
  : option (list discovered_project) :=
  match generate_search_queries self with
  | None => None
  | Some queries =>
      let all_projects := search_all check_bracketed_netloc strftime queries search_api 0 in
      Some (deduplicate_on check_bracketed_netloc as_project all_projects)
  end.

End Discovery.

(** ** [VerificationSystem] *)

(** The outcome of a call that may fetch pages: its value and the URLs it
    requested, in order. *)
Record fetching (A : Type) := mkFetching { value : A; requested : list str }.
Arguments mkFetching {A} _ _.
Arguments value {A} _.
Arguments requested {A} _.

(** The components of the triple [verify_attribution] returns. *)
Definition is_verified (r : fetching (bool * Z * list str)) : bool := fst (fst (value r)).
Definition score (r : fetching (bool * Z * list str)) : Z := snd (fst (value r)).
Definition evidence (r : fetching (bool * Z * list str)) : list str := snd (value r).

Module Verification.
Import Py.

(** The configuration document. *)
Record config := mkConfig {
  cfg_verification_names : option (list str);
  cfg_known_agencies : option (list str);
  cfg_known_brands : option (list str);
  cfg_verification_threshold : option Z;
  cfg_linkedin_url : option str;
  cfg_portfolio_url : option str
}.

(** The attributes of a [VerificationSystem]. *)
Record VerificationSystem := mkSelf {
  verification_names : list str;
  known_agencies : list str;
  known_brands : list str;
  verification_threshold : Z;
  linkedin_url : str;
  portfolio_url : str
}.

Definition init (c : config) : VerificationSystem :=
  mkSelf (default [] (cfg_verification_names c))
         (default [] (cfg_known_agencies c))
         (default [] (cfg_known_brands c))
         (default 3%Z (cfg_verification_threshold c))
         (default [] (cfg_linkedin_url c))
         (default [] (cfg_portfolio_url c)).

(** The same system with another [verification_threshold]. *)
Definition with_threshold (threshold : Z) (self : VerificationSystem) : VerificationSystem :=
  mkSelf (verification_names self) (known_agencies self) (known_brands self)
         threshold (linkedin_url self) (portfolio_url self).

(** The same system with no [verification_names]. *)
Definition without_names (self : VerificationSystem) : VerificationSystem :=
  mkSelf [] (known_agencies self) (known_brands self)
         (verification_threshold self) (linkedin_url self) (portfolio_url self).

Definition _count_name_mentions (self : VerificationSystem) (content : str) : nat :=
  fold_left (fun count name => count + Re.findall_count true (lower name) content)
            (verification_names self) 0.

Definition _check_agency_associations (self : VerificationSystem) (content : str) : list str :=
  let content_lower := lower content in
  List.filter (fun agency =>
                 let agency_normalized := remove_char "/" (remove_char "\" (lower agency)) in
                 str_in agency_normalized content_lower)
              (known_agencies self).

Definition _check_brand_association (self : VerificationSystem) (content : str) : option str :=
  let content_lower := lower content in
  List.find (fun brand =>
               let brand_normalized := remove_char " " (remove_char "'" (lower brand)) in
               str_in brand_normalized content_lower || str_in (lower brand) content_lower)
            (known_brands self).

Definition _check_linkedin_mention (self : VerificationSystem) (p : project) (content : str) : bool :=
  let url := lower (default [] (url p)) in
  if str_in (py "linkedin.com") url then true
  else if negb (is_empty (linkedin_url self))
          && str_in (lower (linkedin_url self)) (lower content) then true
  else false.

Definition portfolio_domains : list str :=
  map py ["jgerms20.github.io"; "joshuagerman.com"; "joshua-german.com"]%string.

Definition _check_portfolio_mention (self : VerificationSystem) (url content : str) : bool :=
  if is_empty (portfolio_url self) then false
  else existsb (fun domain => str_in domain (lower url)) portfolio_domains.

(** [verification_score] and [evidence_sources]. *)
Definition tally : Type := Z * list str.

Definition credit (points : Z) (evidence : str) (t : tally) : tally :=
  (fst t + points, snd t ++ [evidence])%Z.

(** [if content:] *)
Definition present (content : option str) : option str :=
  match content with
  | Some ((_ :: _) as text) => Some text
  | _ => None
  end.

(** Method 1 *)
Definition name_signal (self : VerificationSystem) (content : option str) (t : tally) : tally :=
  match present content with
  | Some text =>
      let name_mentions := _count_name_mentions self text in
      if Nat.ltb 0 name_mentions
      then credit (Z.min (Z.of_nat name_mentions) 3)
                  (py "Name mentioned " ++ str_of_nat name_mentions ++ py " time(s) on page") t
      else t
  | None => t
  end.

(** Method 2 *)
Definition agency_signal (self : VerificationSystem) (content : option str) (t : tally) : tally :=
  match present content with
  | Some text =>
      let agency_matches := _check_agency_associations self text in
      if negb (Nat.eqb (length agency_matches) 0)
      then credit (Z.of_nat (length agency_matches))
                  (py "Associated with agencies: " ++ join (py ", ") agency_matches) t
      else t
  | None => t
  end.

(** Method 3 *)
Definition brand_signal (self : VerificationSystem) (content : option str) (t : tally) : tally :=
  match present content with
  | Some text =>
      match _check_brand_association self text with
      | Some ((_ :: _) as brand_match) =>
          credit 1 (py "Associated with known brand: " ++ brand_match) t
      | _ => t
      end
  | None => t
  end.

(** Method 4 *)
Definition linkedin_signal (self : VerificationSystem) (p : project)
                           (content : option str) (t : tally) : tally :=
  if _check_linkedin_mention self p (default [] content)
  then credit 2 (py "Mentioned on LinkedIn profile") t
  else t.

(** Method 5 *)
Definition portfolio_signal (self : VerificationSystem) (url : str)
                            (content : option str) (t : tally) : tally :=
  if negb (is_empty (portfolio_url self))
  then if _check_portfolio_mention self url (default [] content)
       then credit 1 (py "Mentioned on portfolio site") t
       else t
  else t.

Section Network.
(** [_fetch_page_content]: the text of the page, [None] when the request
    or the parsing fails. *)
Variable _fetch_page_content : str -> option str.

(** [verify_attribution].  On settings that are strings and lists of
    strings none of the five methods raises, so the [except] branch, which
    only logs, is never entered. *)
Definition verify_attribution (self : VerificationSystem) (p : project)
  : fetching (bool * Z * list str) :=
  let url := default [] (url p) in
  if is_empty url then mkFetching (false, 0%Z, []) []
  else
    let content := _fetch_page_content url in
    let t : tally := (0%Z, []) in
    let t := name_signal self content t in
    let t := agency_signal self content t in
    let t := brand_signal self content t in
    let t := linkedin_signal self p content t in
    let t := portfolio_signal self url content t in
    let '(verification_score, evidence_sources) := t in
    let is_verified := (verification_threshold self <=? verification_score)%Z in
    mkFetching (is_verified, verification_score, evidence_sources) [url].

(** The tally the five methods of [VerificationSystem] leave. *)
Definition final_tally (self : VerificationSystem) (p : project) : tally :=
  let u := default [] (url p) in
  let content := _fetch_page_content u in
  portfolio_signal self u content
    (linkedin_signal self p content
       (brand_signal self content
          (agency_signal self content
             (name_signal self content (0%Z, []))))).

End Network.

(** The points of the name-mention method on the fetched content. *)
Definition name_points (self : VerificationSystem) (content : option str) : Z :=
  match present content with
  | Some text => Z.min (Z.of_nat (_count_name_mentions self text)) 3
  | None => 0
  end.

(** *** [verify_multiple_projects]

    The method writes three keys into every dictionary of its argument and
    returns those whose attribution is verified.  The dictionary after the
    writes is the record with its new [verification_score] and the two other
    keys beside it. *)

Record annotation := mkAnnotation {
  verification_evidence : list str;
  verified : bool
}.

(** [project["verification_score"] = score] *)
Definition set_verification_score (score : Z) (p : project) : project :=
  mkProject (title p) (url p) (snippet p) (source_query p) (discovered_at p) (Some score).

(** The argument after the call, dictionary by dictionary, and the list the
    call returns; the dictionaries of the second are those of the first. *)
Record batch := mkBatch {
  annotated : list (project * annotation);
  verified_projects : list (project * annotation)
}.

(** A tally with at most [n] pieces of evidence, each worth a point or more,
    and a score of at most [bound]. *)
Definition tally_within (n : nat) (bound : Z) (t : tally) : Prop :=
  length (snd t) <= n
  /\ (Z.of_nat (length (snd t)) <= fst t <= bound)%Z
  /\ (fst t = 0%Z <-> snd t = []).

(** The system that knows no name, agency, brand or profile. *)
Definition url_signals_only (self : VerificationSystem) : VerificationSystem :=
  mkSelf [] [] [] (verification_threshold self) [] (portfolio_url self).

Section Batch.
Variable _fetch_page_content : str -> option str.

(** The dictionary of a record after the three writes of an iteration. *)
Definition annotate (self : VerificationSystem) (p : project) : project * annotation :=
  let r := verify_attribution _fetch_page_content self p in
  (set_verification_score (score r) p, mkAnnotation (evidence r) (is_verified r)).

(** One iteration of the loop. *)
Definition verify_one (self : VerificationSystem) (acc : fetching batch) (p : project)
  : fetching batch :=
  let entry := annotate self p in
  mkFetching
    (mkBatch (annotated (value acc) ++ [entry])
             (if verified (snd entry)
              then verified_projects (value acc) ++ [entry]
              else verified_projects (value acc)))
    (requested acc ++ requested (verify_attribution _fetch_page_content self p)).

Definition verify_multiple_projects (self : VerificationSystem) (projects : list project)
  : fetching batch :=
  fold_left (verify_one self) projects (mkFetching (mkBatch [] []) []).

End Batch.

End Verification.

(** ** [LinkValidator] *)

(** An entry of [broken_links], [broken_images] or [broken_videos]. *)
Record broken_entry := mkBroken {
  b_url : str;
  b_type : str;
  b_element : option str;
  b_text : option str;
  b_alt : option str
}.

Module LinkValidator.
Import Py.

Definition youtube_embed : str := py "youtube.com/embed/".
Definition youtube_short : str := py "youtu.be/".
Definition youtube_watch : str := py "youtube.com/watch?v=".

(** The three patterns of [youtube_patterns], and of [_extract_youtube_id],
    which are the same with the identifier as a group. *)
Definition youtube_patterns : list str :=
  [youtube_embed; youtube_short; youtube_watch].

Definition format_valid (url : str) : bool :=
  existsb (fun pattern => bool_decide (is_Some (Re.search_run pattern Re.is_id_char url)))
          youtube_patterns.

Fixpoint first_group (patterns : list str) (url : str) : option str :=
  match patterns with
  | [] => None
  | pattern :: rest =>
      match Re.search_run pattern Re.is_id_char url with
      | Some group => Some group
      | None => first_group rest url
      end
  end.

Definition _extract_youtube_id (url : str) : option str :=
  first_group youtube_patterns url.

Definition oembed_url (video_id : str) : str :=
  py "https://www.youtube.com/oembed?url=https://www.youtube.com/watch?v="
  ++ video_id ++ py "&format=json".

(** [vimeo\.com/\d+] and [player\.vimeo\.com/video/\d+] *)
Definition _validate_vimeo_url (url : str) : bool :=
  existsb (fun pattern => bool_decide (is_Some (Re.search_run pattern is_digit url)))
          [py "vimeo.com/"; py "player.vimeo.com/video/"].

Definition _get_video_type (url : str) : str :=
  if str_in (py "youtube.com") url || str_in (py "youtu.be") url then py "youtube"
  else if str_in (py "vimeo.com") url then py "vimeo"
  else py "unknown".

(** What a call of [requests.head] does: it returns a response, of which the
    status code is read, or it raises.  [_check_link_valid] catches
    [requests.exceptions.RequestException] ([Timeout] is one) and lets every
    other exception pass. *)
Inductive head_outcome :=
| Answered (status_code : Z)
| RequestException
| OtherException.

Definition video_entry (src : str) : broken_entry :=
  mkBroken src (_get_video_type src) (Some (py "iframe")) None None.

Section Network.
(** [requests.get]: the status code of the response, [None] when the call
    raises; its caller catches every exception. *)
Variable requests_get : str -> option Z.
Variable requests_head : str -> head_outcome.

(** [None]: an exception leaves the method. *)
Definition _check_link_valid (url : str) : option bool :=
  match requests_head url with
  | Answered status_code => Some (status_code <? 400)%Z
  | RequestException => Some false
  | OtherException => None
  end.

Definition _validate_youtube_url (url : str) : bool :=
  if negb (format_valid url) then false
  else
    match _extract_youtube_id url with
    | Some ((_ :: _) as video_id) =>
        match requests_get (oembed_url video_id) with
        | Some status_code => (status_code =? 200)%Z
        | None => true
        end
    | _ => false
    end.

(** [None]: the exception of [_check_link_valid]. *)
Definition _check_video_valid (url : str) : option bool :=
  if str_in (py "youtube.com") url || str_in (py "youtu.be") url
  then Some (_validate_youtube_url url)
  else if str_in (py "vimeo.com") url
  then Some (_validate_vimeo_url url)
  else _check_link_valid url.

(** [_validate_videos], on the [src] attributes of the frames of the page
    in document order; [broken_videos] is the list it appends to.  The second
    component is [false] when the method raised, and the list then holds what
    was appended before. *)
Fixpoint _validate_videos (broken_videos : list broken_entry) (srcs : list str)
  : list broken_entry * bool :=
  match srcs with
  | [] => (broken_videos, true)
  | src :: rest =>
      match _check_video_valid src with
      | None => (broken_videos, false)
      | Some false => _validate_videos (broken_videos ++ [video_entry src]) rest
      | Some true => _validate_videos broken_videos rest
      end
  end.

End Network.

(** *** The page and the validator *)

(** An [a] element that has an [href]: the attribute, [str(link)] and
    [link.get_text(strip=True)]. *)
Record anchor := mkAnchor {
  href : str;
  a_html : str;
  a_text : str
}.

(** An [img] element that has a [src]; [alt] may be absent. *)
Record image := mkImage {
  src : str;
  alt : option str
}.

(** What [validate_all] reads of the parsed page: the elements that
    [find_all] gives for [a], [img] and [iframe], in document order. *)
Record page := mkPage {
  anchors : list anchor;
  images : list image;
  frames : list str
}.

(** The three lists of a [LinkValidator] instance. *)
Record validator := mkValidator {
  broken_links : list broken_entry;
  broken_images : list broken_entry;
  broken_videos : list broken_entry
}.

(** [LinkValidator(...)] *)
Definition init : validator := mkValidator [] [] [].

Definition link_entry (link : anchor) : broken_entry :=
  mkBroken (href link) (py "link") (Some (take 200 (a_html link)))
           (Some (take 100 (a_text link))) None.

Definition image_entry (img : image) : broken_entry :=
  mkBroken (src img) (py "image") None None (Some (default [] (alt img))).

(** The shape of an embed URL alone: the three YouTube patterns for a YouTube
    URL, the two Vimeo patterns for a Vimeo URL, nothing for another host. *)
Definition well_formed_embed (url : str) : bool :=
  if str_in (py "youtube.com") url || str_in (py "youtu.be") url
  then format_valid url
  else if str_in (py "vimeo.com") url
  then _validate_vimeo_url url
  else false.

Section Validation.
Variable check_bracketed_netloc : str -> bool.
Variable requests_get : str -> option Z.
Variable requests_head : str -> head_outcome.

(** [None] is the [ValueError] of [urlparse], which the method lets pass. *)
Definition _is_external_link (url : str) : option bool :=
  if is_empty url then Some false
  else if existsb (fun prefix => startswith prefix url)
                  [py "#"; py "javascript:"; py "mailto:"; py "tel:"]
  then Some false
  else option_map (fun parsed => negb (is_empty (UrlParse.netloc parsed)))
                  (UrlParse.urlparse check_bracketed_netloc url).

(** [_validate_links], on the list it appends to; the second component is
    [false] when the method raised, and the list then holds what was appended
    before. *)
Fixpoint _validate_links (broken_links : list broken_entry) (links : list anchor)
  : list broken_entry * bool :=
  match links with
  | [] => (broken_links, true)
  | link :: rest =>
      match _is_external_link (href link) with
      | None => (broken_links, false)
      | Some true =>
          match _check_link_valid requests_head (href link) with
          | None => (broken_links, false)
          | Some false => _validate_links (broken_links ++ [link_entry link]) rest
          | Some true => _validate_links broken_links rest
          end
      | Some false => _validate_links broken_links rest
      end
  end.

Fixpoint _validate_images (broken_images : list broken_entry) (imgs : list image)
  : list broken_entry * bool :=
  match imgs with
  | [] => (broken_images, true)
  | img :: rest =>
      match _is_external_link (src img) with
      | None => (broken_images, false)
      | Some true =>
          match _check_link_valid requests_head (src img) with
          | None => (broken_images, false)
          | Some false => _validate_images (broken_images ++ [image_entry img]) rest
          | Some true => _validate_images broken_images rest
          end
      | Some false => _validate_images broken_images rest
      end
  end.

(** [validate_all]: the instance after the call; the dictionary returned holds
    its three lists.  [soup] is [None] when the file cannot be read.  An
    exception ends the validation and keeps what the lists hold by then. *)
Definition validate_all (self : validator) (soup : option page) : validator :=
  match soup with
  | None => self
  | Some soup =>
      let '(links, returned) := _validate_links (broken_links self) (anchors soup) in
      if negb returned
      then mkValidator links (broken_images self) (broken_videos self)
      else
        let '(imgs, returned) := _validate_images (broken_images self) (images soup) in
        if negb returned
        then mkValidator links imgs (broken_videos self)
        else
          let '(videos, _) :=
            _validate_videos requests_get requests_head (broken_videos self)
                             (frames soup) in
          mkValidator links imgs videos
  end.

(** What the loops of [_validate_links] and [_validate_images] do with a URL:
    [Some true] when they append an entry (the URL is external and its check
    fails), [Some false] when they pass over it, [None] when [urlparse] or
    the check raises. *)
Definition is_broken (url : str) : option bool :=
  match _is_external_link url with
  | None => None
  | Some true => option_map negb (_check_link_valid requests_head url)
  | Some false => Some false
  end.

(** The loop appends an entry. *)
Definition reported (outcome : option bool) : bool :=
  match outcome with
  | Some true => true
  | _ => false
  end.

(** Likewise for the loop of [_validate_videos]. *)
Definition is_broken_video (src : str) : option bool :=
  option_map negb (_check_video_valid requests_get requests_head src).

End Validation.
End LinkValidator.

(** ** [ReportGenerator] *)

Module ReportGenerator.
Import Py.

(** The dictionary [validate_all] returns. *)
Record validation_results := mkResults {
  broken_links : option (list broken_entry);
  broken_images : option (list broken_entry);
  broken_videos : option (list broken_entry)
}.

Definition healthy : str :=
  py "All links, images, and videos are valid. Portfolio is healthy!".

(** The recommendations for [new_projects]. *)
Definition new_project_recommendations (new_projects : option (list project)) : list str :=
  match new_projects with
  | Some ((_ :: _) as projects) =>
      (py "Consider adding " ++ str_of_nat (length projects)
         ++ py " newly discovered verified project(s) to portfolio.")
      :: map (fun p =>
                py "  - '" ++ default (py "Unknown") (title p)
                  ++ py "' (verification score: "
                  ++ str_of_Z (default 0%Z (verification_score p)) ++ py ")")
             (take 5 projects)
  | _ => []
  end.

Definition _generate_recommendations (verified_projects : list project)
                                     (results : validation_results)
                                     (new_projects : option (list project)) : list str :=
  let recommendations := [] in
  let broken_links := default [] (broken_links results) in
  let recommendations :=
    if negb (Nat.eqb (length broken_links) 0)
    then recommendations ++
         [py "Fix " ++ str_of_nat (length broken_links)
            ++ py " broken link(s). Check URLs for updates or replacements."]
    else recommendations in
  let broken_images := default [] (broken_images results) in
  let recommendations :=
    if negb (Nat.eqb (length broken_images) 0)
    then recommendations ++
         [py "Replace " ++ str_of_nat (length broken_images)
            ++ py " broken image(s). Verify image URLs or upload new images."]
    else recommendations in
  let broken_videos := default [] (broken_videos results) in
  let recommendations :=
    if negb (Nat.eqb (length broken_videos) 0)
    then recommendations ++
         [py "Fix " ++ str_of_nat (length broken_videos)
            ++ py " broken video embed(s). Verify YouTube/Vimeo URLs."]
    else recommendations in
  let recommendations := recommendations ++ new_project_recommendations new_projects in
  if Nat.eqb (length broken_links) 0 && Nat.eqb (length broken_images) 0
     && Nat.eqb (length broken_videos) 0
  then recommendations ++ [healthy]
  else recommendations.

(** The dictionary [_generate_summary] returns. *)
Record summary := mkSummary {
  total_verified_projects : nat;
  new_projects_found : nat;
  broken_links_count : nat;
  broken_images_count : nat;
  broken_videos_count : nat;
  total_issues : nat
}.

Definition _generate_summary (verified_projects : list project)
                             (results : validation_results)
                             (new_projects : option (list project)) : summary :=
  let broken_links := default [] (broken_links results) in
  let broken_images := default [] (broken_images results) in
  let broken_videos := default [] (broken_videos results) in
  mkSummary (length verified_projects)
            (match new_projects with
             | Some ((_ :: _) as projects) => length projects
             | _ => 0
             end)
            (length broken_links) (length broken_images) (length broken_videos)
            (length broken_links + length broken_images + length broken_videos).

Definition brand_keywords : list str :=
  [py "campaign"; py "advertising"; py "brand"; py "commercial"; py "spot"; py "ad"].

Definition writing_keywords : list str :=
  [py "article"; py "writing"; py "essay"; py "blog"].

Definition ai_keywords : list str :=
  [py "ai"; py "tool"; py "github"; py "prototype"].

Definition suggest_portfolio_section (p : project) : str :=
  let title := lower (default [] (title p)) in
  let snippet := lower (default [] (snippet p)) in
  let url := lower (default [] (url p)) in
  let combined_text := title ++ py " " ++ snippet ++ py " " ++ url in
  if existsb (fun keyword => str_in keyword combined_text) brand_keywords
  then py "campaigns"
  else if str_in (py "podcast") combined_text
  then py "podcast"
  else if existsb (fun keyword => str_in keyword combined_text) writing_keywords
  then py "writing"
  else if existsb (fun keyword => str_in keyword combined_text) ai_keywords
  then py "ai-projects"
  else py "campaigns".

(** The keyword occurs in the lower-cased title, snippet or URL of the
    project. *)
Definition mentions (p : project) (keyword : str) : bool :=
  str_in keyword (lower (default [] (title p)))
  || str_in keyword (lower (default [] (snippet p)))
  || str_in keyword (lower (default [] (url p))).

End ReportGenerator.

(** ** The single-file agent [PortfolioSourcer] *)

Module Legacy.
Import Py UrlParse.

(** The configuration document, as far as the verification reads it. *)
Record config := mkConfig {
  cfg_verification_threshold : option Z
}.

Definition verification_names : list str :=
  map py ["Joshua German"; "Joshua M. German"; "Joshua McKenzie German";
          "Josh German"; "J. German"]%string.

Definition known_agencies : list str :=
  map py ["TBWA\Chiat\Day"; "TBWA Chiat Day"; "Wieden+Kennedy";
          "Goodby, Silverstein & Partners"; "GS&P"]%string.

Definition known_brands : list str :=
  map py ["Levi's"; "Sephora"; "DoorDash"; "BMW"; "Califia"; "DIRECTV";
          "Samuel Adams"]%string.

Definition _count_name_mentions (content : str) : nat :=
  fold_left (fun count name => count + Re.findall_count false (lower name) content)
            verification_names 0.

Definition _check_agency_associations (content : str) : list str :=
  let content_lower := lower content in
  List.filter (fun agency => str_in (lower agency) content_lower) known_agencies.

Definition _check_linkedin_mention (p : project) : bool := false.

Definition _check_brand_association (p : project) (content : str) : option str :=
  let content_lower := lower content in
  List.find (fun brand => str_in (lower brand) content_lower) known_brands.

Definition _check_portfolio_mention (url content : str) : bool :=
  existsb (fun domain => str_in domain (lower url)) Verification.portfolio_domains.

Section Network.
Variable _fetch_page_content : str -> option str.

Definition verify_attribution (cfg : config) (p : project)
  : fetching (bool * Z * list str) :=
  let url := default [] (url p) in
  if is_empty url then mkFetching (false, 0%Z, []) []
  else
    let content := _fetch_page_content url in
    let t : Verification.tally := (0%Z, []) in
    let t :=
      match Verification.present content with
      | Some text =>
          let name_mentions := _count_name_mentions text in
          if Nat.ltb 0 name_mentions
          then Verification.credit (Z.of_nat name_mentions)
                 (py "Name mentioned " ++ str_of_nat name_mentions ++ py " time(s) on page") t
          else t
      | None => t
      end in
    let agency_matches := _check_agency_associations (default [] content) in
    let t :=
      if negb (Nat.eqb (length agency_matches) 0)
      then Verification.credit (Z.of_nat (length agency_matches))
             (py "Associated with agencies: " ++ join (py ", ") agency_matches) t
      else t in
    let t :=
      if _check_linkedin_mention p
      then Verification.credit 2 (py "Mentioned on LinkedIn profile") t
      else t in
    let t :=
      match _check_brand_association p (default [] content) with
      | Some ((_ :: _) as brand_match) =>
          Verification.credit 1 (py "Associated with known brand: " ++ brand_match) t
      | _ => t
      end in
    let t :=
      if _check_portfolio_mention url (default [] content)
      then Verification.credit 1 (py "Mentioned on portfolio site") t
      else t in
    let '(verification_score, evidence_sources) := t in
    let threshold := default 3%Z (cfg_verification_threshold cfg) in
    let is_verified := (threshold <=? verification_score)%Z in
    mkFetching (is_verified, verification_score, evidence_sources) [url].

End Network.

Section Runtime.
Variable check_bracketed_netloc : str -> bool.

(** [None] is the [ValueError] of [urlparse], which the method lets
    through. *)
Definition _normalize_url (url : str) : option str :=
  if is_empty url then Some []
  else
    match urlparse check_bracketed_netloc url with
    | Some parsed =>
        Some (rstrip "/" (scheme parsed ++ py "://" ++ netloc parsed ++ path parsed))
    | None => None
    end.

Definition word_overlap (words t_words : gset str) : Q :=
  Z.of_nat (size (words ∩ t_words)) # Pos.of_nat (size (words ∪ t_words)).

Definition _calculate_similarity (text : str) (texts : list str) : Q :=
  if Nat.eqb (length texts) 0 then 0
  else
    let words : gset str := list_to_set (split text) in
    fold_left (fun max_sim t =>
                 let t_words : gset str := list_to_set (split t) in
                 if negb (bool_decide (words = ∅)) || negb (bool_decide (t_words = ∅))
                 then let sim := word_overlap words t_words in
                      if Qltb max_sim sim then sim else max_sim
                 else max_sim)
              texts 0%Q.

(** [text.split()] is not empty. *)
Definition has_word (text : str) : bool := negb (Nat.eqb (length (split text)) 0).

Record dedup_state := mkDedup {
  seen_urls : gset str;
  seen_titles : gset str;
  unique : list project
}.

(** One iteration of the loop of [_deduplicate_projects]; [None] when
    [_normalize_url] raises. *)
Definition dedup_step (st : dedup_state) (p : project) : option dedup_state :=
  let url := lower (default [] (url p)) in
  let title := lower (default [] (title p)) in
  match _normalize_url url with
  | None => None
  | Some normalized_url =>
      if negb (is_empty normalized_url) && bool_decide (normalized_url ∉ seen_urls st)
      then
        if bool_decide (title ∉ seen_titles st)
           || Qltb (_calculate_similarity title (elements (seen_titles st))) (8 # 10)
        then Some (mkDedup ({[normalized_url]} ∪ seen_urls st)
                           ({[title]} ∪ seen_titles st)
                           (unique st ++ [p]))
        else Some st
      else Some st
  end.

Fixpoint dedup_loop (st : dedup_state) (projects : list project) : option dedup_state :=
  match projects with
  | [] => Some st
  | p :: rest =>
      match dedup_step st p with
      | Some st' => dedup_loop st' rest
      | None => None
      end
  end.

Definition _deduplicate_projects (projects : list project) : option (list project) :=
  match dedup_loop (mkDedup ∅ ∅ []) projects with
  | Some st => Some (unique st)
  | None => None
  end.

End Runtime.
End Legacy.

(** ** Sample inputs *)

Module Sample.

(** A system that knows one name, one agency and one brand. *)
Definition system (threshold : Z) : Verification.VerificationSystem :=
  Verification.mkSelf [py "Joshua German"] [py "TBWA\Chiat\Day"] [py "Levi's"] threshold
    (py "https://linkedin.com/in/joshuamgerman") (py "https://jgerms20.github.io/").

Definition record (title_ url_ : option str) : project :=
  mkProject title_ url_ None None None None.

(** A page that names the person four times. *)
Definition four_mentions : str :=
  py "Joshua German, Joshua German, Joshua German, Joshua German".

Definition credits_page (_ : str) : option str := Some four_mentions.

Definition unreachable (_ : str) : option str := None.

(** A discovery engine with one name, brand, agency and search source, a
    LinkedIn URL and two writing sources, one of them without queries. *)
Definition engine : Discovery.DiscoveryEngine :=
  Discovery.mkEngine [py "Joshua German"] [py "Nike"] [py "Wieden+Kennedy"] [py "adage.com"]
    (py "https://linkedin.com/in/joshuamgerman")
    [Some [py "Daily Gamecock Joshua German"]; None].

Definition clock (_ : nat) : str := py "2026-01-01 12:00:00".

(** A search API that gives the same two results for every query; the second
    has no URL. *)
Definition search_api (_ : str) : option (list Discovery.search_result) :=
  Some [Discovery.mkResult (Some (py "Levi's campaign")) (Some (py "https://example.com/work/"))
                           (Some (py "A campaign")) None;
        Discovery.mkResult (Some (py "Untitled")) None None (Some (py "web"))].

(** A page with an internal link, a link that answers, a link that is gone, a
    mail link and a relative link, an image that is gone, and three frames. *)
Definition gone : LinkValidator.anchor :=
  LinkValidator.mkAnchor (py "https://example.com/gone")
    (py "<a href='https://example.com/gone'>Old work</a>") (py "Old work").

Definition soup : LinkValidator.page :=
  LinkValidator.mkPage
    [LinkValidator.mkAnchor (py "#top") (py "<a href='#top'>Top</a>") (py "Top");
     LinkValidator.mkAnchor (py "https://example.com/ok")
       (py "<a href='https://example.com/ok'>Work</a>") (py "Work");
     gone;
     LinkValidator.mkAnchor (py "mailto:me@example.com")
       (py "<a href='mailto:me@example.com'>Mail</a>") (py "Mail");
     LinkValidator.mkAnchor (py "/about.html") (py "<a href='/about.html'>About</a>")
       (py "About")]
    [LinkValidator.mkImage (py "https://example.com/gone.png") None;
     LinkValidator.mkImage (py "img/local.png") (Some (py "Local"))]
    [py "https://www.youtube.com/embed/dQw4w9WgXcQ?rel=0";
     py "https://vimeo.com/channels/staffpicks";
     py "https://example.com/player"].

(** The same page with a link that [urlparse] rejects after the one that is
    gone. *)
Definition malformed : LinkValidator.anchor :=
  LinkValidator.mkAnchor (py "http://[broken") (py "<a href='http://[broken'>x</a>") (py "x").

Definition soup_malformed : LinkValidator.page :=
  LinkValidator.mkPage [gone; malformed; gone] (LinkValidator.images soup)
                       (LinkValidator.frames soup).

(** Every address answers 200, those with [gone] in them 404. *)
Definition status (url : str) : option Z :=
  if Py.str_in (py "gone") url then Some 404%Z else Some 200%Z.

Definition head_status (url : str) : LinkValidator.head_outcome :=
  if Py.str_in (py "gone") url then LinkValidator.Answered 404
  else LinkValidator.Answered 200.

(** No connection: [requests.get] raises, and [requests.head] raises a
    [ConnectionError], which is a [RequestException]. *)
Definition offline (_ : str) : option Z := None.

Definition no_connection (_ : str) : LinkValidator.head_outcome :=
  LinkValidator.RequestException.

(** A search API that raises on every query. *)
Definition failing_api (_ : str) : option (list Discovery.search_result) := None.

End Sample.

(** * Properties *)

(** ** Attribution verification *)

Section VerificationProperties.
Import Py Verification.

Variable fetch : str -> option str.

Lemma is_empty_nil (s : str) : is_empty s = true <-> s = [].
Proof. destruct s; simpl; split; congruence. Qed.

Lemma is_empty_cons (s : str) : is_empty s = false <-> s <> [].
Proof. destruct s; simpl; split; congruence. Qed.

(** Without a [verification_threshold] in the configuration the threshold
    is 3. *)
Lemma init_default_threshold c :
  cfg_verification_threshold c = None -> verification_threshold (init c) = 3%Z.
Proof. unfold init. now intros ->. Qed.

(** The early return of both verifiers. *)
Lemma verify_no_url self p :
  default [] (url p) = [] ->
  verify_attribution fetch self p = mkFetching (false, 0%Z, []) [].
Proof. intros H. unfold verify_attribution. now rewrite H. Qed.

Lemma legacy_verify_no_url cfg p :
  default [] (url p) = [] ->
  Legacy.verify_attribution fetch cfg p = mkFetching (false, 0%Z, []) [].
Proof. intros H. unfold Legacy.verify_attribution. now rewrite H. Qed.

Lemma verify_with_url self p :
  default [] (url p) <> [] ->
  verify_attribution fetch self p =
  mkFetching ((verification_threshold self <=? fst (final_tally fetch self p))%Z,
              fst (final_tally fetch self p), snd (final_tally fetch self p))
             [default [] (url p)].
Proof.
  intros H. apply is_empty_cons in H. unfold verify_attribution, final_tally.
  rewrite H. now destruct (portfolio_signal _ _ _ _).
Qed.

(** No method reads the threshold. *)
Lemma final_tally_with_threshold t self p :
  final_tally fetch (with_threshold t self) p = final_tally fetch self p.
Proof. reflexivity. Qed.

(** Each method adds its points to the score it finds. *)
Lemma credit_fst points ev t : fst (credit points ev t) = (fst t + points)%Z.
Proof. reflexivity. Qed.

Lemma agency_signal_shift self content t :
  fst (agency_signal self content t)
  = (fst t + fst (agency_signal self content (0%Z, [])))%Z.
Proof.
  unfold agency_signal. destruct (present content); [|simpl; lia].
  destruct (negb _); rewrite ?credit_fst; simpl; lia.
Qed.

Lemma brand_signal_shift self content t :
  fst (brand_signal self content t)
  = (fst t + fst (brand_signal self content (0%Z, [])))%Z.
Proof.
  unfold brand_signal. destruct (present content); [|simpl; lia].
  destruct (_check_brand_association _ _) as [[|]|]; rewrite ?credit_fst; simpl; lia.
Qed.

Lemma linkedin_signal_shift self p content t :
  fst (linkedin_signal self p content t)
  = (fst t + fst (linkedin_signal self p content (0%Z, [])))%Z.
Proof.
  unfold linkedin_signal.
  destruct (_check_linkedin_mention _ _ _); rewrite ?credit_fst; simpl; lia.
Qed.

Lemma portfolio_signal_shift self u content t :
  fst (portfolio_signal self u content t)
  = (fst t + fst (portfolio_signal self u content (0%Z, [])))%Z.
Proof.
  unfold portfolio_signal. destruct (negb _); [|simpl; lia].
  destruct (_check_portfolio_mention _ _ _); rewrite ?credit_fst; simpl; lia.
Qed.

Lemma name_signal_fst self content t :
  fst (name_signal self content t) = (fst t + name_points self content)%Z.
Proof.
  unfold name_signal, name_points. destruct (present content) as [text|]; [|simpl; lia].
  destruct (Nat.ltb_spec 0 (_count_name_mentions self text)) as [Hpos|Hz].
  - now rewrite credit_fst.
  - replace (_count_name_mentions self text) with 0 by lia. simpl. lia.
Qed.

Lemma name_signal_without_names self content t :
  name_signal (without_names self) content t = t.
Proof. unfold name_signal. now destruct (present content). Qed.

(** The score is the points of the name-mention method plus the score of
    the system that knows no name. *)
Lemma final_tally_names self p :
  fst (final_tally fetch self p)
  = (name_points self (fetch (default [] (url p)))
     + fst (final_tally fetch (without_names self) p))%Z.
Proof.
  unfold final_tally. rewrite (name_signal_without_names self).
  set (content := fetch (default [] (url p))).
  set (t := name_signal self content (0%Z, [])).
  assert (Ht : fst t = name_points self content)
    by (unfold t; rewrite name_signal_fst; simpl; lia).
  change (portfolio_signal (without_names self)) with (portfolio_signal self).
  change (linkedin_signal (without_names self)) with (linkedin_signal self).
  change (brand_signal (without_names self)) with (brand_signal self).
  change (agency_signal (without_names self)) with (agency_signal self).
  rewrite portfolio_signal_shift, linkedin_signal_shift, brand_signal_shift,
    agency_signal_shift, Ht.
  rewrite (portfolio_signal_shift self _ _ (linkedin_signal _ _ _ _)),
    (linkedin_signal_shift self _ _ (brand_signal _ _ _)),
    (brand_signal_shift self _ (agency_signal _ _ _)).
  simpl. lia.
Qed.

Lemma legacy_verify_with_url cfg p :
  default [] (url p) <> [] ->
  is_verified (Legacy.verify_attribution fetch cfg p)
  = (default 3%Z (Legacy.cfg_verification_threshold cfg)
     <=? score (Legacy.verify_attribution fetch cfg p))%Z.
Proof.
  intros H. apply is_empty_cons in H.
  unfold Legacy.verify_attribution, is_verified, score. rewrite H.
  now match goal with |- context [let '(_, _) := ?t in _] => destruct t end.
Qed.

Lemma legacy_verify_any_threshold cfg cfg' p :
  score (Legacy.verify_attribution fetch cfg' p) = score (Legacy.verify_attribution fetch cfg p)
  /\ evidence (Legacy.verify_attribution fetch cfg' p)
     = evidence (Legacy.verify_attribution fetch cfg p).
Proof.
  unfold Legacy.verify_attribution, score, evidence.
  destruct (is_empty _); [now split|].
  now match goal with |- context [let '(_, _) := ?t in _] => destruct t end.
Qed.

Lemma verify_any_threshold t self p :
  score (verify_attribution fetch (with_threshold t self) p)
  = score (verify_attribution fetch self p)
  /\ evidence (verify_attribution fetch (with_threshold t self) p)
     = evidence (verify_attribution fetch self p).
Proof.
  destruct (is_empty (default [] (url p))) eqn:H.
  - apply is_empty_nil in H. now rewrite !verify_no_url.
  - apply is_empty_cons in H. now rewrite !verify_with_url, final_tally_with_threshold.
Qed.

Lemma name_points_bounds self content : (0 <= name_points self content <= 3)%Z.
Proof. unfold name_points. destruct (present content); lia. Qed.

(** C10: a record whose [url] is missing or empty is answered
    [(False, 0, [])] by both verifiers, whatever the threshold, the other
    settings and the network, and no page is requested. *)
Theorem verify_attribution_without_url self cfg p :
  url p = None \/ url p = Some [] ->
  verify_attribution fetch self p = mkFetching (false, 0%Z, []) []
  /\ Legacy.verify_attribution fetch cfg p = mkFetching (false, 0%Z, []) [].
Proof.
  intros H.
  assert (default [] (url p) = []) by (destruct H as [-> | ->]; reflexivity).
  split; [now apply verify_no_url | now apply legacy_verify_no_url].
Qed.

(** C1, as amended: changing only the threshold changes neither the score nor
    the evidence of either verifier, and for a record with a non-empty [url]
    the decision is [score >= threshold]. *)
Theorem verify_attribution_decision self cfg p :
  (forall t,
      score (verify_attribution fetch (with_threshold t self) p)
      = score (verify_attribution fetch self p)
      /\ evidence (verify_attribution fetch (with_threshold t self) p)
         = evidence (verify_attribution fetch self p))
  /\ (forall cfg',
         score (Legacy.verify_attribution fetch cfg' p)
         = score (Legacy.verify_attribution fetch cfg p)
         /\ evidence (Legacy.verify_attribution fetch cfg' p)
            = evidence (Legacy.verify_attribution fetch cfg p))
  /\ (default [] (url p) <> [] ->
      is_verified (verify_attribution fetch self p)
      = (verification_threshold self <=? score (verify_attribution fetch self p))%Z
      /\ is_verified (Legacy.verify_attribution fetch cfg p)
         = (default 3%Z (Legacy.cfg_verification_threshold cfg)
            <=? score (Legacy.verify_attribution fetch cfg p))%Z).
Proof.
  split; [|split].
  - intros t. apply verify_any_threshold.
  - intros cfg'. apply legacy_verify_any_threshold.
  - intros H. split; [|now apply legacy_verify_with_url].
    now rewrite verify_with_url.
Qed.

End VerificationProperties.

(** C10 at a record without [url], a threshold of 0 and a page full of
    mentions. *)
Lemma verify_attribution_without_url_witness :
  Verification.verify_attribution Sample.credits_page (Sample.system 0)
    (Sample.record (Some (py "Credits")) None)
  = mkFetching (false, 0%Z, []) []
  /\ Legacy.verify_attribution Sample.credits_page (Legacy.mkConfig (Some 0%Z))
       (Sample.record (Some (py "Credits")) None)
     = mkFetching (false, 0%Z, []) [].
Proof.
  apply verify_attribution_without_url. left. reflexivity.
Defined.

(** C1 as stated fails: with a threshold of 0 a record whose [url] is empty
    has score 0, which reaches the threshold, and is not verified. *)
Lemma verify_attribution_decision_counterexample :
  is_verified (Verification.verify_attribution Sample.unreachable (Sample.system 0)
                 (Sample.record (Some (py "Credits")) (Some [])))
  <> (Verification.verification_threshold (Sample.system 0)
      <=? score (Verification.verify_attribution Sample.unreachable (Sample.system 0)
                   (Sample.record (Some (py "Credits")) (Some []))))%Z.
Proof. vm_compute. discriminate. Qed.

(** C1, as amended, at a record with a [url]: three capped mentions meet the
    threshold of 3. *)
Lemma verify_attribution_decision_witness :
  is_verified (Verification.verify_attribution Sample.credits_page (Sample.system 3)
                 (Sample.record None (Some (py "http://example.com/credits"))))
  = (Verification.verification_threshold (Sample.system 3)
     <=? score (Verification.verify_attribution Sample.credits_page (Sample.system 3)
                  (Sample.record None (Some (py "http://example.com/credits")))))%Z
  /\ is_verified (Legacy.verify_attribution Sample.credits_page (Legacy.mkConfig None)
                    (Sample.record None (Some (py "http://example.com/credits"))))
     = (default 3%Z (Legacy.cfg_verification_threshold (Legacy.mkConfig None))
        <=? score (Legacy.verify_attribution Sample.credits_page (Legacy.mkConfig None)
                     (Sample.record None (Some (py "http://example.com/credits")))))%Z.
Proof.
  apply (verify_attribution_decision Sample.credits_page (Sample.system 3)
           (Legacy.mkConfig None)
           (Sample.record None (Some (py "http://example.com/credits")))).
  vm_compute. discriminate.
Defined.

(** C2: in [VerificationSystem] the name-mention method contributes exactly
    [min(count, 3)] points, at most 3, to the score of a record with a [url];
    the single-file agent adds the uncapped count of plain substring matches:
    four mentions give 4 points there and 3 in [VerificationSystem]. *)
Theorem name_mention_points :
  (forall fetch self p,
      default [] (url p) <> [] ->
      score (Verification.verify_attribution fetch self p)
      = (Verification.name_points self (fetch (default [] (url p)))
         + score (Verification.verify_attribution fetch (Verification.without_names self) p))%Z
      /\ (0 <= Verification.name_points self (fetch (default [] (url p))) <= 3)%Z)
  /\ Verification._count_name_mentions (Sample.system 3) Sample.four_mentions = 4
  /\ value (Verification.verify_attribution Sample.credits_page (Sample.system 3)
              (Sample.record None (Some (py "http://example.com/credits"))))
     = (true, 3%Z, [py "Name mentioned 4 time(s) on page"])
  /\ value (Legacy.verify_attribution Sample.credits_page (Legacy.mkConfig None)
              (Sample.record None (Some (py "http://example.com/credits"))))
     = (true, 4%Z, [py "Name mentioned 4 time(s) on page"]).
Proof.
  split; [|now vm_compute].
  intros fetch self p H. split; [|apply name_points_bounds].
  unfold score. rewrite !verify_with_url by assumption. simpl.
  apply final_tally_names.
Qed.

(** ** Title similarity *)

Section SimilarityProperties.
Import Py Discovery.

Lemma Qmake_diag (n : nat) : n <> 0 -> (Z.of_nat n # Pos.of_nat n == 1)%Q.
Proof.
  intros Hn. destruct n as [|m]; [congruence|].
  unfold Qeq. simpl Qnum. simpl Qden.
  rewrite <- Pos.of_nat_succ, Zpos_P_of_succ_nat. lia.
Qed.

Lemma similarity_refl (s : str) : s <> [] -> (_calculate_similarity s s == 1)%Q.
Proof.
  intros Hs. apply is_empty_cons in Hs. unfold _calculate_similarity.
  rewrite Hs. simpl orb. cbv zeta.
  set (words := list_to_set (split (lower s)) : gset str).
  destruct (decide (words = ∅)) as [He|Hne].
  - rewrite !bool_decide_eq_true_2 by assumption. reflexivity.
  - rewrite !bool_decide_eq_false_2 by assumption. simpl andb. simpl orb. cbv iota.
    assert (Hi : words ∩ words = words) by apply (idemp_L (∩)).
    assert (Hu : words ∪ words = words) by apply (idemp_L (∪)).
    rewrite Hi, Hu.
    assert (Hsz : size words <> 0).
    { intros Hz. apply size_empty_inv in Hz. apply Hne. now apply leibniz_equiv. }
    destruct (Nat.ltb_spec 0 (size words)); [|lia].
    now apply Qmake_diag.
Qed.

(** C4, as amended: the similarity of a string with itself is 1 for every
    non-empty string, blank ones included; for the empty string the first test
    of [_calculate_similarity] returns 0. *)
Theorem similarity_self (s : str) :
  (s <> [] -> (_calculate_similarity s s == 1)%Q)
  /\ _calculate_similarity [] [] = 0%Q.
Proof.
  split; [apply similarity_refl|reflexivity].
Qed.

End SimilarityProperties.

(** C4 as stated fails at the empty string, whose similarity with itself is
    0. *)
Lemma similarity_self_counterexample :
  Discovery._calculate_similarity [] [] = 0%Q
  /\ ~ (Discovery._calculate_similarity [] [] == 1)%Q.
Proof. split; [reflexivity|now vm_compute]. Qed.

(** C4, as amended, at a title and at a blank string. *)
Lemma similarity_self_witness :
  (Discovery._calculate_similarity (py "Launch film") (py "Launch film") == 1)%Q
  /\ (Discovery._calculate_similarity (py "   ") (py "   ") == 1)%Q.
Proof.
  split.
  - apply (proj1 (similarity_self (py "Launch film"))). discriminate.
  - apply (proj1 (similarity_self (py "   "))). discriminate.
Defined.

(** ** Deduplication *)

Section DedupProperties.
Import Py Discovery.

Variable chk : str -> bool.

Local Abbreviation step := (dedup_step chk).
Local Abbreviation norm := (normalized_url_of chk).
Local Abbreviation dedup_invariant := (Discovery.dedup_invariant chk).

(** An iteration either leaves the state alone or accepts the record. *)
Lemma dedup_step_cases st p :
  step st p = st
  \/ (norm p <> [] /\ (norm p ∉ seen_urls st)
      /\ step st p
         = mkDedup ({[norm p]} ∪ seen_urls st)
                   ({[lower (default [] (title p))]} ∪ seen_titles st)
                   (unique st ++ [p])).
Proof.
  unfold dedup_step.
  destruct (is_empty (norm p)) eqn:He; simpl; [now left|].
  destruct (decide (norm p ∉ seen_urls st)) as [Hn|Hn].
  - rewrite bool_decide_eq_true_2 by assumption.
    destruct (existsb _ _); simpl; [now left|].
    right. apply is_empty_cons in He. now repeat split.
  - rewrite bool_decide_eq_false_2 by assumption. now left.
Qed.

(** The loop only appends to [unique], and running it again over what it
    appended, from the same state, ends in the same state. *)
Lemma dedup_replay projects : forall st,
  exists accepted,
    unique (fold_left step projects st) = unique st ++ accepted
    /\ fold_left step accepted st = fold_left step projects st
    /\ length accepted <= length projects.
Proof.
  induction projects as [|p rest IH]; intros st.
  - exists []. simpl. rewrite app_nil_r. repeat split. lia.
  - simpl. destruct (dedup_step_cases st p) as [Hskip|(_ & _ & Hacc)].
    + rewrite Hskip. destruct (IH st) as (acc & Hu & Hf & Hl).
      exists acc. repeat split; [assumption..|lia].
    + destruct (IH (step st p)) as (acc & Hu & Hf & Hl).
      exists (p :: acc). simpl. repeat split; [|assumption|lia].
      rewrite Hu, Hacc. simpl. now rewrite <- app_assoc.
Qed.

(** C5: the output of [deduplicate_projects] is no longer than its input,
    and deduplicating it again returns it unchanged. *)
Theorem deduplicate_projects_idempotent (projects : list project) :
  length (deduplicate_projects chk projects) <= length projects
  /\ deduplicate_projects chk (deduplicate_projects chk projects)
     = deduplicate_projects chk projects.
Proof.
  unfold deduplicate_projects.
  destruct (dedup_replay projects (mkDedup ∅ ∅ [])) as (acc & Hu & Hf & Hl).
  simpl in Hu. rewrite Hu. split; [assumption|].
  now rewrite Hf, Hu.
Qed.

Lemma dedup_invariant_step st p : dedup_invariant st -> dedup_invariant (step st p).
Proof.
  intros [Hnd Hall].
  destruct (dedup_step_cases st p) as [-> |(Hne & Hfresh & ->)]; [now split|].
  split; simpl.
  - rewrite map_app. simpl. apply NoDup_app. split; [assumption|].
    split; [|apply NoDup_singleton].
    intros n Hin Hn. apply list_elem_of_singleton in Hn. subst n.
    apply list_elem_of_fmap in Hin as (q & Hq & Hqin).
    rewrite Forall_forall in Hall. destruct (Hall q Hqin) as [Hseen _].
    rewrite <- Hq in Hseen. contradiction.
  - apply Forall_app. split.
    + eapply Forall_impl; [exact Hall|]. intros q [Hq Hq']. split; [set_solver|assumption].
    + apply Forall_singleton. split; [set_solver|assumption].
Qed.

Lemma dedup_invariant_loop projects : forall st,
  dedup_invariant st -> dedup_invariant (fold_left step projects st).
Proof.
  induction projects as [|p rest IH]; intros st Hst; [assumption|].
  simpl. apply IH. now apply dedup_invariant_step.
Qed.

Lemma dedup_invariant_output projects :
  dedup_invariant (fold_left step projects (mkDedup ∅ ∅ [])).
Proof.
  apply dedup_invariant_loop. split; simpl; [apply NoDup_nil_2|apply Forall_nil_2].
Qed.

Lemma NoDup_fmap_filter_le {A} (f : A -> str) (n : str) (l : list A) :
  NoDup (map f l) -> length (List.filter (fun x => bool_decide (f x = n)) l) <= 1.
Proof.
  induction l as [|x l IH]; simpl; [lia|].
  intros Hnd. apply NoDup_cons in Hnd as [Hx Hnd].
  destruct (decide (f x = n)) as [Hfx|Hfx].
  - rewrite bool_decide_eq_true_2 by assumption. simpl.
    enough (List.filter (fun y => bool_decide (f y = n)) l = []) as -> by (simpl; lia).
    clear IH Hnd. induction l as [|y l IHl]; [reflexivity|]. simpl.
    simpl in Hx. apply not_elem_of_cons in Hx as [Hxy Hx].
    rewrite bool_decide_eq_false_2 by congruence. now apply IHl.
  - rewrite bool_decide_eq_false_2 by assumption. now apply IH.
Qed.

(** C6: the normalized URLs of the records in the output of
    [deduplicate_projects] are pairwise different, so the output holds at most
    one record for each normalized URL. *)
Theorem deduplicate_projects_unique_urls (projects : list project) :
  NoDup (map norm (deduplicate_projects chk projects))
  /\ forall n : str,
       length (List.filter (fun p => bool_decide (norm p = n))
                           (deduplicate_projects chk projects)) <= 1.
Proof.
  assert (Hnd : NoDup (map norm (deduplicate_projects chk projects)))
    by apply (dedup_invariant_output projects).
  split; [assumption|]. intros n. now apply NoDup_fmap_filter_le.
Qed.

Lemma rstrip_nonempty (c x : ascii) (s : str) :
  x ∈ s -> x <> c -> rstrip c s <> [].
Proof.
  induction s as [|a s IH]; intros Hin Hx; [now apply elem_of_nil in Hin|].
  simpl. destruct (rstrip c s) eqn:Hr; [|discriminate].
  apply elem_of_cons in Hin as [->|Hin]; [|now elim (IH Hin Hx)].
  destruct (Ascii.eqb_spec a c); [contradiction|discriminate].
Qed.

Lemma colon_elem (a b : str) : ":" ∈ a ++ py "://" ++ b.
Proof. apply elem_of_app. right. simpl. constructor. Qed.

Lemma lower_nil_iff (s : str) : lower s = [] <-> s = [].
Proof. destruct s; simpl; split; congruence. Qed.

(** Only the empty URL has an empty normalized URL. *)
Lemma normalize_url_nil_iff (u : str) : _normalize_url chk u = [] <-> u = [].
Proof.
  split; [|now intros ->].
  destruct u as [|c u]; [reflexivity|]. unfold _normalize_url. simpl is_empty. cbv iota.
  destruct (UrlParse.urlparse chk (c :: u)) as [parsed|]; [|discriminate].
  intros H. apply (proj1 (lower_nil_iff _)) in H. exfalso. revert H.
  apply (rstrip_nonempty "/" ":"); [apply colon_elem|discriminate].
Qed.

Lemma normalized_url_of_nil_iff p : norm p = [] <-> default [] (url p) = [].
Proof. unfold normalized_url_of. now rewrite normalize_url_nil_iff, lower_nil_iff. Qed.

Lemma legacy_normalize_url_nil (u n : str) :
  Legacy._normalize_url chk u = Some n -> n = [] -> u = [].
Proof.
  destruct u as [|c u]; [reflexivity|]. unfold Legacy._normalize_url. simpl is_empty. cbv iota.
  destruct (UrlParse.urlparse chk (c :: u)) as [parsed|]; [|discriminate].
  intros [= <-] H. exfalso. revert H.
  apply (rstrip_nonempty "/" ":"); [apply colon_elem|discriminate].
Qed.

(** The single-file agent accepts records with a non-empty [url] only. *)
Lemma legacy_dedup_step_unique st st' p :
  Legacy.dedup_step chk st p = Some st' ->
  Legacy.unique st' = Legacy.unique st
  \/ (Legacy.unique st' = Legacy.unique st ++ [p] /\ default [] (url p) <> []).
Proof.
  unfold Legacy.dedup_step.
  destruct (Legacy._normalize_url chk _) as [n|] eqn:Hn; [|discriminate].
  destruct (is_empty n) eqn:He; simpl; [intros [= <-]; now left|].
  destruct (bool_decide (n ∉ Legacy.seen_urls st)); simpl; [|intros [= <-]; now left].
  destruct (_ || _); intros [= <-]; [|now left].
  right. split; [reflexivity|]. intros Hu.
  apply is_empty_cons in He. apply He.
  rewrite Hu in Hn. now injection Hn as <-.
Qed.

Lemma legacy_dedup_loop_urls projects : forall st st',
  Legacy.dedup_loop chk st projects = Some st' ->
  Forall (fun q => default [] (url q) <> []) (Legacy.unique st) ->
  Forall (fun q => default [] (url q) <> []) (Legacy.unique st').
Proof.
  induction projects as [|p rest IH]; simpl; intros st st' Hrun Hst.
  - now injection Hrun as <-.
  - destruct (Legacy.dedup_step chk st p) as [st1|] eqn:Hstep; [|discriminate].
    apply (IH st1 st' Hrun).
    destruct (legacy_dedup_step_unique _ _ _ Hstep) as [-> |[-> Hp]]; [assumption|].
    apply Forall_app. split; [assumption|now apply Forall_singleton].
Qed.

(** C3, as amended: the records whose normalized URL is the empty string are
    those whose [url] is missing or empty, and such a record is skipped by the
    deduplication whatever its title: it is in the output of neither
    [deduplicate_projects] nor [_deduplicate_projects]. *)
Theorem empty_normalized_url_is_skipped (projects : list project) (p : project) :
  (norm p = [] <-> url p = None \/ url p = Some [])
  /\ (norm p = [] ->
      (p ∉ deduplicate_projects chk projects)
      /\ forall out, Legacy._deduplicate_projects chk projects = Some out -> p ∉ out).
Proof.
  split.
  - rewrite normalized_url_of_nil_iff. split.
    + intros Hu. destruct (url p) as [u|]; [right|now left]. simpl in Hu. now subst u.
    + now intros [-> | ->].
  - intros Hp.
    assert (Hu : default [] (url p) = []) by now apply normalized_url_of_nil_iff.
    split.
    + intros Hin. destruct (dedup_invariant_output projects) as [_ Hall].
      rewrite Forall_forall in Hall. now destruct (Hall p Hin) as [_ Hne].
    + intros out. unfold Legacy._deduplicate_projects.
      destruct (Legacy.dedup_loop chk _ projects) as [st|] eqn:Hrun; [|discriminate].
      intros [= <-] Hin.
      pose proof (legacy_dedup_loop_urls _ _ _ Hrun (Forall_nil_2 _)) as Hall.
      rewrite Forall_forall in Hall. now apply (Hall p Hin).
Qed.

End DedupProperties.

(** C3 as stated fails: a record with an empty [url] has the empty normalized
    URL and no accepted title to resemble, and is not accepted. *)
Lemma empty_normalized_url_counterexample :
  Discovery.normalized_url_of UrlParse.no_bracket_check
    (Sample.record (Some (py "Launch film")) (Some [])) = []
  /\ Discovery.deduplicate_projects UrlParse.no_bracket_check
       [Sample.record (Some (py "Launch film")) (Some [])] = [].
Proof. now vm_compute. Qed.

(** C3, as amended, at a record without [url] after a record with one. *)
Lemma empty_normalized_url_is_skipped_witness :
  (Sample.record (Some (py "Launch film")) None
   ∉ Discovery.deduplicate_projects UrlParse.no_bracket_check
       [Sample.record (Some (py "Case study")) (Some (py "https://site.com/a"));
        Sample.record (Some (py "Launch film")) None])
  /\ forall out,
       Legacy._deduplicate_projects UrlParse.no_bracket_check
         [Sample.record (Some (py "Case study")) (Some (py "https://site.com/a"));
          Sample.record (Some (py "Launch film")) None] = Some out ->
       Sample.record (Some (py "Launch film")) None ∉ out.
Proof.
  apply (empty_normalized_url_is_skipped UrlParse.no_bracket_check). reflexivity.
Defined.

(** ** Video embeds *)

Section LinkValidatorProperties.
Import Py LinkValidator.

Variable requests_get : str -> option Z.
Variable requests_head : str -> head_outcome.

Lemma startswith_app (a b s : str) : startswith (a ++ b) s = true -> startswith a s = true.
Proof.
  revert s. induction a as [|x a IH]; intros s; [reflexivity|].
  destruct s as [|y s]; simpl; [discriminate|].
  intros H. apply andb_prop in H as [-> H]. simpl. now apply IH.
Qed.

Lemma str_in_app (a b s : str) : str_in (a ++ b) s = true -> str_in a s = true.
Proof.
  induction s as [|y s IH]; simpl.
  - rewrite !orb_false_r. apply startswith_app.
  - intros H. apply orb_prop in H as [H|H].
    + now rewrite (startswith_app _ _ _ H).
    + rewrite (IH H). apply orb_true_r.
Qed.

(** A match of [lit] followed by a run of the class has a non-empty group
    and shows that [lit] occurs in the text. *)
Lemma search_run_Some (lit : str) (cls : ascii -> bool) (s g : str) :
  Re.search_run lit cls s = Some g -> g <> [] /\ str_in lit s = true.
Proof.
  induction s as [|c s IH].
  - simpl. destruct (startswith lit []) eqn:Hs; simpl.
    + destruct (fst (span cls (drop (length lit) []))); [discriminate|].
      intros [= <-]. split; [discriminate|reflexivity].
    + discriminate.
  - cbn [Re.search_run str_in]. destruct (startswith lit (c :: s)) eqn:Hs.
    + destruct (fst (span cls (drop (length lit) (c :: s)))).
      * intros H. destruct (IH H) as [Hg _]. split; [assumption|reflexivity].
      * intros [= <-]. split; [discriminate|reflexivity].
    + intros H. destruct (IH H) as [Hg Hin]. split; [assumption|].
      rewrite Hin. apply orb_true_r.
Qed.

Lemma format_valid_extract (url : str) :
  format_valid url = true ->
  exists video_id, _extract_youtube_id url = Some video_id /\ video_id <> [].
Proof.
  unfold format_valid, _extract_youtube_id, youtube_patterns. simpl.
  destruct (Re.search_run youtube_embed _ url) as [g|] eqn:H1.
  { intros _. exists g. split; [reflexivity|]. now apply search_run_Some in H1. }
  destruct (Re.search_run youtube_short _ url) as [g|] eqn:H2.
  { intros _. exists g. split; [reflexivity|]. now apply search_run_Some in H2. }
  destruct (Re.search_run youtube_watch _ url) as [g|] eqn:H3.
  { intros _. exists g. split; [reflexivity|]. now apply search_run_Some in H3. }
  rewrite !bool_decide_eq_false_2 by (intros [? ?]; discriminate). discriminate.
Qed.

Lemma format_valid_host (url : str) :
  format_valid url = true ->
  str_in (py "youtube.com") url || str_in (py "youtu.be") url = true.
Proof.
  unfold format_valid, youtube_patterns. cbn [existsb]. intros Hfmt.
  destruct (Re.search_run youtube_embed Re.is_id_char url) as [g|] eqn:H1.
  { apply search_run_Some in H1 as [_ H].
    now rewrite (str_in_app (py "youtube.com") (py "/embed/") url H). }
  destruct (Re.search_run youtube_short Re.is_id_char url) as [g|] eqn:H2.
  { apply search_run_Some in H2 as [_ H].
    rewrite (str_in_app (py "youtu.be") (py "/") url H). apply orb_true_r. }
  destruct (Re.search_run youtube_watch Re.is_id_char url) as [g|] eqn:H3.
  { apply search_run_Some in H3 as [_ H].
    now rewrite (str_in_app (py "youtube.com") (py "/watch?v=") url H). }
  rewrite !bool_decide_eq_false_2 in Hfmt by (intros [? ?]; discriminate).
  discriminate.
Qed.

(** C8: a video URL of one of the three YouTube shapes whose oEmbed request
    raises is valid for [_validate_youtube_url] and [_check_video_valid], and
    [_validate_videos] adds nothing to [broken_videos] for it. *)
Theorem youtube_network_error_is_valid (url : str) (broken : list broken_entry) :
  format_valid url = true ->
  (forall video_id, _extract_youtube_id url = Some video_id ->
                    requests_get (oembed_url video_id) = None) ->
  _validate_youtube_url requests_get url = true
  /\ _check_video_valid requests_get requests_head url = Some true
  /\ _validate_videos requests_get requests_head broken [url] = (broken, true).
Proof.
  intros Hfmt Hnet.
  assert (Hyt : _validate_youtube_url requests_get url = true).
  { unfold _validate_youtube_url. rewrite Hfmt. simpl.
    destruct (format_valid_extract url Hfmt) as (video_id & Hid & Hne).
    rewrite Hid. destruct video_id as [|c video_id]; [congruence|].
    now rewrite (Hnet _ Hid). }
  assert (Hv : _check_video_valid requests_get requests_head url = Some true).
  { unfold _check_video_valid. now rewrite (format_valid_host url Hfmt), Hyt. }
  repeat split; [assumption..|].
  cbn [_validate_videos]. now rewrite Hv.
Qed.

End LinkValidatorProperties.

(** C8 at a short link, with every request raising. *)
Lemma youtube_network_error_is_valid_witness :
  LinkValidator._validate_youtube_url (fun _ => None) (py "https://youtu.be/dQw4w9WgXcQ") = true
  /\ LinkValidator._check_video_valid (fun _ => None) (fun _ => LinkValidator.RequestException)
       (py "https://youtu.be/dQw4w9WgXcQ") = Some true
  /\ LinkValidator._validate_videos (fun _ => None) (fun _ => LinkValidator.RequestException) []
       [py "https://youtu.be/dQw4w9WgXcQ"] = ([], true).
Proof.
  apply youtube_network_error_is_valid; [now vm_compute|reflexivity].
Defined.

(** ** Recommendations *)

Section ReportProperties.
Import Py ReportGenerator.

(** C9, as amended: when no link, image or video is broken, the
    recommendations are those for the new projects followed by the one that
    states full health; without new projects that one is the whole list. *)
Theorem recommendations_when_healthy (verified : list project)
    (results : validation_results) (new_projects : option (list project)) :
  default [] (broken_links results) = [] ->
  default [] (broken_images results) = [] ->
  default [] (broken_videos results) = [] ->
  _generate_recommendations verified results new_projects
  = new_project_recommendations new_projects ++ [healthy]
  /\ (new_projects = None \/ new_projects = Some [] ->
      _generate_recommendations verified results new_projects = [healthy]).
Proof.
  intros Hl Hi Hv.
  assert (H : _generate_recommendations verified results new_projects
              = new_project_recommendations new_projects ++ [healthy])
    by (unfold _generate_recommendations; now rewrite Hl, Hi, Hv).
  split; [assumption|]. intros [-> | ->]; exact H.
Qed.

End ReportProperties.

(** C9 as stated fails: with nothing broken and one new project there are
    three recommendations. *)
Lemma recommendations_when_healthy_counterexample :
  ReportGenerator._generate_recommendations []
    (ReportGenerator.mkResults (Some []) (Some []) (Some []))
    (Some [mkProject (Some (py "Launch film")) (Some (py "https://site.com/a"))
             None None None (Some 4%Z)])
  = [py "Consider adding 1 newly discovered verified project(s) to portfolio.";
     py "  - 'Launch film' (verification score: 4)";
     ReportGenerator.healthy].
Proof. now vm_compute. Qed.

(** C9, as amended, for the results of a validation that found nothing and a
    scan that found no new project. *)
Lemma recommendations_when_healthy_witness :
  ReportGenerator._generate_recommendations []
    (ReportGenerator.mkResults (Some []) None (Some [])) (Some [])
  = [ReportGenerator.healthy].
Proof.
  apply (recommendations_when_healthy []
           (ReportGenerator.mkResults (Some []) None (Some [])) (Some []));
    try reflexivity. right. reflexivity.
Defined.

(** ** URL normalization *)

Section StringFacts.
Import Py.

Lemma span_app_id (p : ascii -> bool) (s : str) :
  fst (span p s) ++ snd (span p s) = s.
Proof.
  induction s as [|c s IH]; [reflexivity|]. simpl.
  destruct (p c); [|reflexivity]. destruct (span p s). simpl in *. now rewrite IH.
Qed.

Lemma span_fst_forallb (p : ascii -> bool) (s : str) :
  forallb p (fst (span p s)) = true.
Proof.
  induction s as [|c s IH]; [reflexivity|]. simpl.
  destruct (p c) eqn:Hc; [|reflexivity]. destruct (span p s). simpl in *. now rewrite Hc.
Qed.

Lemma span_app (p : ascii -> bool) (a b : str) :
  forallb p a = true ->
  span p (a ++ b) = (a ++ fst (span p b), snd (span p b)).
Proof.
  induction a as [|c a IH]; simpl.
  - intros _. now destruct (span p b).
  - intros H. apply andb_prop in H as [-> H]. now rewrite (IH H).
Qed.

Lemma span_all (p : ascii -> bool) (s : str) :
  forallb p s = true -> span p s = (s, []).
Proof.
  intros H. rewrite <- (app_nil_r s) at 1. rewrite (span_app p s [] H). simpl.
  now rewrite app_nil_r.
Qed.

Lemma span_stop (p : ascii -> bool) (a : str) (c : ascii) (b : str) :
  forallb p a = true -> p c = false -> span p (a ++ c :: b) = (a, c :: b).
Proof.
  intros Ha Hc. rewrite (span_app p a (c :: b) Ha). simpl. rewrite Hc. simpl.
  now rewrite app_nil_r.
Qed.

Lemma forallb_sub (p : ascii -> bool) (s t : str) :
  s ⊆ t -> forallb p t = true -> forallb p s = true.
Proof.
  intros Hsub Ht. apply forallb_forall. intros x Hx.
  rewrite forallb_forall in Ht. apply Ht. apply list_elem_of_In, Hsub.
  now apply list_elem_of_In.
Qed.

Lemma span_fst_sub (p : ascii -> bool) (s : str) : fst (span p s) ⊆ s.
Proof.
  intros x Hx. rewrite <- (span_app_id p s). apply elem_of_app. now left.
Qed.

Lemma span_snd_sub (p : ascii -> bool) (s : str) : snd (span p s) ⊆ s.
Proof.
  intros x Hx. rewrite <- (span_app_id p s). apply elem_of_app. now right.
Qed.

(** [rstrip] one character at a time. *)
Lemma rstrip_cons_keep (c x : ascii) (s : str) :
  rstrip c s <> [] -> rstrip c (x :: s) = x :: rstrip c s.
Proof. simpl. now destruct (rstrip c s). Qed.

Lemma rstrip_app_keep (c : ascii) (a b : str) :
  rstrip c b <> [] -> rstrip c (a ++ b) = a ++ rstrip c b.
Proof.
  intros Hb. induction a as [|x a IH]; [reflexivity|].
  simpl app. rewrite rstrip_cons_keep; [now rewrite IH|].
  rewrite IH. now destruct a.
Qed.

Lemma rstrip_app_drop (c : ascii) (a b : str) :
  rstrip c b = [] -> rstrip c (a ++ b) = rstrip c a.
Proof.
  intros Hb. induction a as [|x a IH]; [assumption|]. simpl. now rewrite IH.
Qed.

Lemma rstrip_repeat (c : ascii) (k : nat) : rstrip c (repeat c k) = [].
Proof.
  induction k as [|k IH]; [reflexivity|]. simpl. rewrite IH. now rewrite Ascii.eqb_refl.
Qed.

Lemma rstrip_idemp (c : ascii) (s : str) : rstrip c (rstrip c s) = rstrip c s.
Proof.
  induction s as [|x s IH]; [reflexivity|]. simpl.
  destruct (rstrip c s) as [|y r] eqn:Hr.
  - destruct (Ascii.eqb x c) eqn:Hx; [reflexivity|]. simpl. now rewrite Hx.
  - rewrite rstrip_cons_keep; now rewrite IH.
Qed.

Lemma rstrip_sub (c : ascii) (s : str) : rstrip c s ⊆ s.
Proof.
  induction s as [|x s IH]; [easy|]. simpl.
  destruct (rstrip c s) as [|y r].
  - destruct (Ascii.eqb x c); [easy|]. intros z Hz.
    apply list_elem_of_singleton in Hz as ->. now left.
  - intros z Hz. apply elem_of_cons in Hz as [->|Hz]; [now left|right; now apply IH].
Qed.

Lemma rstrip_map (f : ascii -> ascii) (c : ascii) (s : str) :
  (forall x, Ascii.eqb (f x) c = Ascii.eqb x c) ->
  rstrip c (map f s) = map f (rstrip c s).
Proof.
  intros Hf. induction s as [|x s IH]; [reflexivity|]. simpl. rewrite IH.
  destruct (rstrip c s); simpl; [|reflexivity]. rewrite Hf. now destruct (Ascii.eqb x c).
Qed.

Lemma span_map (f : ascii -> ascii) (p : ascii -> bool) (s : str) :
  (forall x, p (f x) = p x) ->
  span p (map f s) = (map f (fst (span p s)), map f (snd (span p s))).
Proof.
  intros Hf. induction s as [|x s IH]; [reflexivity|]. simpl. rewrite Hf, IH.
  destruct (p x); [|reflexivity]. now destruct (span p s).
Qed.

Lemma forallb_map_inv (f : ascii -> ascii) (p : ascii -> bool) (s : str) :
  (forall x, p (f x) = p x) -> forallb p (map f s) = forallb p s.
Proof.
  intros Hf. induction s as [|x s IH]; [reflexivity|]. simpl. now rewrite Hf, IH.
Qed.

Lemma char_in_false (c : ascii) (s : str) :
  char_in c s = false <-> forallb (UrlParse.is_not c) s = true.
Proof.
  unfold char_in, UrlParse.is_not. induction s as [|x s IH]; simpl; [easy|].
  rewrite orb_false_iff, andb_true_iff, IH, (Ascii.eqb_sym c x), negb_true_iff. reflexivity.
Qed.

Lemma filter_all (p : ascii -> bool) (s : str) :
  forallb p s = true -> List.filter p s = s.
Proof.
  induction s as [|x s IH]; [reflexivity|]. simpl. intros H.
  apply andb_prop in H as [-> H]. now rewrite (IH H).
Qed.

Lemma filter_forallb (p : ascii -> bool) (s : str) :
  forallb p (List.filter p s) = true.
Proof.
  induction s as [|x s IH]; [reflexivity|]. simpl.
  destruct (p x) eqn:Hx; [|assumption]. simpl. now rewrite Hx.
Qed.

Lemma span_app_stop (p : ascii -> bool) (a : str) (c : ascii) (b : str) :
  p c = false ->
  span p (a ++ c :: b) = (fst (span p a), snd (span p a) ++ c :: b).
Proof.
  intros Hc. induction a as [|x a IH]; simpl; [now rewrite Hc|].
  destruct (p x); [|reflexivity]. rewrite IH. now destruct (span p a).
Qed.

Lemma span_app_stopped (p : ascii -> bool) (a t : str) :
  snd (span p a) <> [] ->
  span p (a ++ t) = (fst (span p a), snd (span p a) ++ t).
Proof.
  induction a as [|x a IH]; simpl; [congruence|].
  destruct (p x); [|reflexivity].
  destruct (span p a) as [a1 a2] eqn:Ha. simpl in *. intros H. now rewrite (IH H).
Qed.

Lemma span_snd_head (p : ascii -> bool) (s : str) (c : ascii) :
  head (snd (span p s)) = Some c -> p c = false.
Proof.
  induction s as [|x s IH]; simpl; [discriminate|].
  destruct (p x) eqn:Hx.
  - destruct (span p s). exact IH.
  - simpl. now intros [= <-].
Qed.

End StringFacts.

Section CharFacts.
Import Py UrlParse.

(** Lowering a character moves it in or out of none of the classes the URL
    functions test. *)
Lemma lower_char_classes (c : ascii) :
  lower_char (lower_char c) = lower_char c
  /\ Ascii.eqb (lower_char c) "/" = Ascii.eqb c "/"
  /\ is_not ":" (lower_char c) = is_not ":" c
  /\ is_not "#" (lower_char c) = is_not "#" c
  /\ is_not "?" (lower_char c) = is_not "?" c
  /\ is_not ";" (lower_char c) = is_not ";" c
  /\ is_netloc_char (lower_char c) = is_netloc_char c
  /\ is_safe (lower_char c) = is_safe c
  /\ is_scheme_char (lower_char c) = is_scheme_char c
  /\ is_alpha (lower_char c) = is_alpha c.
Proof. destruct c as [[] [] [] [] [] [] [] []]; vm_compute; repeat split. Qed.

(** A scheme character is none of the separators. *)
Lemma scheme_char_classes (c : ascii) :
  is_scheme_char c = true ->
  is_not ":" c = true /\ Ascii.eqb c "/" = false /\ is_safe c = true.
Proof. destruct c as [[] [] [] [] [] [] [] []]; vm_compute; intros H; now repeat split. Qed.

Lemma alpha_not_stripped (c : ascii) :
  is_alpha c = true -> is_c0_control_or_space c = false.
Proof. destruct c as [[] [] [] [] [] [] [] []]; vm_compute; congruence. Qed.

Lemma lower_idemp (s : str) : lower (lower s) = lower s.
Proof.
  unfold lower. rewrite map_map. apply map_ext. intros c. apply lower_char_classes.
Qed.

Lemma lower_app (a b : str) : lower (a ++ b) = lower a ++ lower b.
Proof. apply map_app. Qed.

Lemma rstrip_lower (s : str) : rstrip "/" (lower s) = lower (rstrip "/" s).
Proof. apply rstrip_map. intros x. apply lower_char_classes. Qed.

End CharFacts.

Section NormalizeProperties.
Import Py UrlParse.

Variable chk : str -> bool.

Lemma split_scheme_found (u s rest : str) :
  split_scheme u = (s, rest) -> s <> [] -> good_scheme s /\ rest ⊆ u.
Proof.
  unfold split_scheme. pose proof (span_snd_sub (is_not ":") u) as Hsub.
  destruct (span (is_not ":") u) as [[|c0 pre] [|x r]]; try (intros [= <- <-]; congruence).
  destruct (is_alpha c0 && forallb is_scheme_char (c0 :: pre)) eqn:Hok;
    [|intros [= <- <-]; congruence].
  intros [= <- <-] _. apply andb_prop in Hok as [Ha Hs]. split.
  - exists (lower_char c0), (lower pre). repeat split.
    + rewrite <- Ha. apply lower_char_classes.
    + rewrite <- Hs. apply (forallb_map_inv lower_char is_scheme_char (c0 :: pre)).
      intros y. apply lower_char_classes.
    + apply (lower_idemp (c0 :: pre)).
  - intros y Hy. apply Hsub. simpl. now right.
Qed.

Lemma forallb_imp (p q : ascii -> bool) (s : str) :
  (forall c, p c = true -> q c = true) -> forallb p s = true -> forallb q s = true.
Proof.
  intros Hpq. induction s as [|x s IH]; [reflexivity|]. simpl. intros H.
  apply andb_prop in H as [Hx H]. now rewrite (Hpq x Hx), (IH H).
Qed.

Lemma split_scheme_good (s t : str) :
  good_scheme s -> split_scheme (s ++ ":" :: t) = (s, t).
Proof.
  intros (c & pre & -> & Ha & Hs & Hl). unfold split_scheme.
  rewrite (span_stop (is_not ":") (c :: pre) ":" t); [| |reflexivity].
  - now rewrite Ha, Hs, Hl.
  - revert Hs. apply forallb_imp. intros y Hy. now apply scheme_char_classes.
Qed.

Lemma good_scheme_safe (s : str) : good_scheme s -> forallb is_safe s = true.
Proof.
  intros (c & pre & _ & _ & Hs & _). revert Hs. apply forallb_imp.
  intros y Hy. now apply scheme_char_classes.
Qed.

Lemma remove_unsafe_safe (u : str) : forallb is_safe (remove_unsafe_bytes u) = true.
Proof. apply filter_forallb. Qed.

Lemma split_once_fst (c : ascii) (u : str) :
  fst (split_once c u) = fst (span (is_not c) u).
Proof. unfold split_once. now destruct (span (is_not c) u). Qed.

Lemma split_once_absent (c : ascii) (u : str) :
  forallb (is_not c) u = true -> split_once c u = (u, []).
Proof. intros H. unfold split_once. now rewrite (span_all _ _ H). Qed.

Lemma split_netloc_found (u n r : str) :
  split_netloc chk u = Some (n, r) ->
  forallb is_netloc_char n = true /\ n ⊆ u /\ r ⊆ u /\ (startswith (py "//") u = false -> n = []).
Proof.
  unfold split_netloc, _splitnetloc. destruct (startswith (py "//") u) eqn:Hs.
  - pose proof (span_fst_forallb is_netloc_char (drop 2 u)) as Hn.
    pose proof (span_fst_sub is_netloc_char (drop 2 u)) as Hn'.
    pose proof (span_snd_sub is_netloc_char (drop 2 u)) as Hr'.
    assert (Hd : drop 2 u ⊆ u) by (intros y Hy; eapply subseteq_drop; exact Hy).
    destruct (span is_netloc_char (drop 2 u)) as [n' r']. simpl in *.
    destruct (_ || _); [discriminate|]. destruct (_ && _); [discriminate|].
    intros [= <- <-]. repeat split; [assumption|..|discriminate];
      intros y Hy; apply Hd; auto.
  - intros [= <- <-]. repeat split; intros; easy.
Qed.

Lemma elem_of_rev (x : ascii) (l : str) : x ∈ rev l <-> x ∈ l.
Proof. rewrite !list_elem_of_In. symmetry. apply in_rev. Qed.

Lemma splitparams_sub (u : str) : fst (_splitparams u) ⊆ u.
Proof.
  unfold _splitparams. destruct (char_in "/" u).
  - pose proof (span_fst_sub (is_not "/") (rev u)) as Hl.
    pose proof (span_snd_sub (is_not "/") (rev u)) as Hh.
    destruct (span (is_not "/") (rev u)) as [last_rev head_rev]. simpl in *.
    pose proof (span_fst_sub (is_not ";") (rev last_rev)) as Hb.
    destruct (span (is_not ";") (rev last_rev)) as [before [|x after]]; [easy|].
    simpl in *. intros y Hy. apply elem_of_app in Hy as [Hy|Hy].
    + rewrite elem_of_rev in Hy. apply Hh in Hy. now rewrite elem_of_rev in Hy.
    + apply Hb in Hy. rewrite elem_of_rev in Hy. apply Hl in Hy.
      now rewrite elem_of_rev in Hy.
  - rewrite split_once_fst. apply span_fst_sub.
Qed.

Lemma lstrip_good_scheme (s t : str) :
  good_scheme s -> lstrip is_c0_control_or_space (s ++ t) = s ++ t.
Proof.
  intros (c & pre & -> & Ha & _). unfold lstrip. simpl.
  now rewrite (alpha_not_stripped c Ha).
Qed.

Lemma split_netloc_slashes (x : str) :
  split_netloc chk ("/" :: "/" :: x) = None
  \/ split_netloc chk ("/" :: "/" :: x) = Some (span is_netloc_char x).
Proof.
  unfold split_netloc, _splitnetloc. simpl. rewrite drop_0.
  destruct (span is_netloc_char x) as [n r].
  do 2 (match goal with
        | |- context [if ?b then None else _] => destruct b; [now left|]
        end).
  now right.
Qed.

Lemma netloc_char_classes (c : ascii) :
  is_netloc_char c = true ->
  is_not "#" c = true /\ is_not "?" c = true /\ Ascii.eqb c "/" = false.
Proof. destruct c as [[] [] [] [] [] [] [] []]; vm_compute; intros H; now repeat split. Qed.

Lemma rstrip_no_slash (s : str) :
  forallb is_netloc_char s = true -> rstrip "/" s = s.
Proof.
  induction s as [|x s IH]; [reflexivity|]. simpl. intros H.
  apply andb_prop in H as [Hx H]. rewrite (IH H).
  destruct s; [|reflexivity]. now destruct (netloc_char_classes x Hx) as (_ & _ & ->).
Qed.

(** *** When normalizing twice is normalizing once *)

Lemma lower_char_separators (c : ascii) :
  Ascii.eqb "/" (lower_char c) = Ascii.eqb "/" c
  /\ Ascii.eqb ";" (lower_char c) = Ascii.eqb ";" c
  /\ Ascii.eqb ":" (lower_char c) = Ascii.eqb ":" c.
Proof. destruct c as [[] [] [] [] [] [] [] []]; vm_compute; repeat split. Qed.

(** With [#] and [?] absent, the network location ends at a slash. *)
Lemma netloc_stop_classes (c : ascii) :
  is_netloc_char c = false -> is_not "#" c = true -> is_not "?" c = true -> c = "/".
Proof. destruct c as [[] [] [] [] [] [] [] []]; vm_compute; congruence. Qed.

Lemma count_char_app (c : ascii) (a b : str) :
  count_char c (a ++ b) = count_char c a + count_char c b.
Proof. unfold count_char. now rewrite List.filter_app, length_app. Qed.

Lemma count_char_cons (c x : ascii) (s : str) :
  count_char c (x :: s) = (if Ascii.eqb c x then 1 else 0) + count_char c s.
Proof. unfold count_char. simpl. now destruct (Ascii.eqb c x). Qed.

Lemma count_char_rstrip (c : ascii) (s : str) :
  Ascii.eqb c "/" = false -> count_char c (rstrip "/" s) = count_char c s.
Proof.
  intros Hc. induction s as [|a s IH]; [reflexivity|].
  simpl rstrip. rewrite (count_char_cons c a s), <- IH.
  destruct (rstrip "/" s) as [|r rs].
  - destruct (Ascii.eqb a "/") eqn:Ha.
    + apply Ascii.eqb_eq in Ha. subst a. now rewrite Hc.
    + now rewrite count_char_cons.
  - now rewrite (count_char_cons c a).
Qed.

Lemma count_char_lower (c : ascii) (s : str) :
  c = ";" \/ c = ":" -> count_char c (lower s) = count_char c s.
Proof.
  intros Hc. induction s as [|x s IH]; [reflexivity|].
  change (lower (x :: s)) with (lower_char x :: lower s).
  rewrite !count_char_cons, IH. f_equal.
  destruct (lower_char_separators x) as (_ & Hsemi & Hcolon).
  now destruct Hc as [-> | ->]; [rewrite Hsemi|rewrite Hcolon].
Qed.

Lemma char_in_map (f : ascii -> ascii) (c : ascii) (x : str) :
  (forall y, Ascii.eqb c (f y) = Ascii.eqb c y) -> char_in c (map f x) = char_in c x.
Proof.
  intros Hf. unfold char_in. induction x as [|y x IH]; [reflexivity|].
  simpl. now rewrite Hf, IH.
Qed.

Lemma char_in_app (c : ascii) (a b : str) :
  char_in c (a ++ b) = char_in c a || char_in c b.
Proof. apply existsb_app. Qed.

Lemma char_in_rev (c : ascii) (x : str) : char_in c (rev x) = char_in c x.
Proof.
  induction x as [|y x IH]; [reflexivity|].
  simpl rev. rewrite char_in_app, IH. simpl. rewrite orb_false_r. apply orb_comm.
Qed.

Lemma char_in_true_snd (c : ascii) (x : str) :
  char_in c x = true -> snd (span (is_not c) x) <> [].
Proof.
  intros H Hnil. pose proof (span_app_id (is_not c) x) as Hid.
  rewrite Hnil, app_nil_r in Hid.
  pose proof (span_fst_forallb (is_not c) x) as Hall. rewrite Hid in Hall.
  apply char_in_false in Hall. congruence.
Qed.

Lemma last_segment_app_id (x : str) :
  rev (snd (span (is_not "/") (rev x))) ++ last_segment x = x.
Proof.
  unfold last_segment. rewrite <- rev_app_distr, span_app_id. apply rev_involutive.
Qed.

Lemma last_segment_app (a b : str) :
  char_in "/" b = true -> last_segment (a ++ b) = last_segment b.
Proof.
  intros H. unfold last_segment. rewrite rev_app_distr.
  rewrite span_app_stopped; [reflexivity|].
  apply char_in_true_snd. now rewrite char_in_rev.
Qed.

Lemma params_in_last_segment_semi (x : str) :
  params_in_last_segment x = true -> char_in ";" x = true.
Proof.
  unfold params_in_last_segment. intros H. apply andb_prop in H as [_ H].
  rewrite <- (last_segment_app_id x), char_in_app, H. apply orb_true_r.
Qed.

Lemma params_in_last_segment_lower (x : str) :
  params_in_last_segment (lower x) = params_in_last_segment x.
Proof.
  unfold params_in_last_segment, last_segment, lower.
  rewrite <- map_rev, (span_map lower_char (is_not "/")).
  - cbn [fst]. rewrite <- map_rev.
    now rewrite !char_in_map by (intros y; apply lower_char_separators).
  - intros c. unfold is_not. now destruct (lower_char_classes c) as (_ & -> & _).
Qed.

(** Whether parameters are split off depends on the path alone. *)
Lemma params_in_last_segment_path (x nl p : str) :
  span is_netloc_char x = (nl, p) ->
  forallb (is_not "#") x = true -> forallb (is_not "?") x = true ->
  params_in_last_segment x = params_in_last_segment p
  /\ (p = [] \/ char_in "/" p = true).
Proof.
  intros Hspan Hhash Hquery.
  pose proof (span_app_id is_netloc_char x) as Hid.
  pose proof (span_fst_forallb is_netloc_char x) as Hnl.
  pose proof (span_snd_head is_netloc_char x) as Hhead.
  rewrite Hspan in Hid, Hnl, Hhead. cbn [fst snd] in Hid, Hnl, Hhead.
  destruct p as [|c p0].
  - split; [|now left]. rewrite app_nil_r in Hid. subst x. unfold params_in_last_segment.
    replace (char_in "/" nl) with false; [reflexivity|]. symmetry. apply char_in_false.
    revert Hnl. apply forallb_imp. intros y Hy. unfold is_not.
    now destruct (netloc_char_classes y Hy) as (_ & _ & ->).
  - assert (Hc : c = "/").
    { rewrite <- Hid, forallb_app in Hhash, Hquery.
      apply andb_prop in Hhash as [_ Hhash]. apply andb_prop in Hquery as [_ Hquery].
      simpl in Hhash, Hquery.
      apply andb_prop in Hhash as [Hhash _]. apply andb_prop in Hquery as [Hquery _].
      now apply netloc_stop_classes; [apply Hhead| |]. }
    subst c. split; [|now right]. unfold params_in_last_segment.
    rewrite <- Hid, (last_segment_app nl ("/" :: p0)) by reflexivity.
    rewrite char_in_app. cbn [char_in existsb]. now rewrite orb_true_r.
Qed.

(** [_splitparams] on a text with a slash: it cuts at the first [;] after the
    last slash, and returns the text when there is none. *)
Lemma splitparams_slash (x : str) :
  char_in "/" x = true ->
  (char_in ";" (last_segment x) = false /\ fst (_splitparams x) = x)
  \/ (char_in ";" (last_segment x) = true
      /\ count_char ";" (fst (_splitparams x)) < count_char ";" x).
Proof.
  intros Hslash. unfold _splitparams. rewrite Hslash.
  pose proof (last_segment_app_id x) as Hid. unfold last_segment in *.
  destruct (span (is_not "/") (rev x)) as [last_rev head_rev]. cbn [fst snd] in *.
  pose proof (span_app_id (is_not ";") (rev last_rev)) as Hsplit.
  pose proof (span_fst_forallb (is_not ";") (rev last_rev)) as Hbefore.
  pose proof (span_snd_head (is_not ";") (rev last_rev)) as Hhead.
  destruct (span (is_not ";") (rev last_rev)) as [before [|c after]];
    cbn [fst snd] in *.
  - left. rewrite app_nil_r in Hsplit. subst before.
    split; [now apply char_in_false|reflexivity].
  - right.
    assert (Hc : c = ";").
    { specialize (Hhead c eq_refl). unfold is_not in Hhead.
      now apply negb_false_iff, Ascii.eqb_eq in Hhead. }
    subst c. split.
    + rewrite <- Hsplit, char_in_app. cbn [char_in existsb]. apply orb_true_r.
    + rewrite <- Hid, <- Hsplit, !count_char_app, count_char_cons.
      change (Ascii.eqb ";" ";") with true. cbv iota. lia.
Qed.

Lemma splitparams_any (x : str) :
  fst (_splitparams x) = x
  \/ count_char ";" (fst (_splitparams x)) < count_char ";" x.
Proof.
  destruct (char_in "/" x) eqn:Hslash.
  - destruct (splitparams_slash x Hslash) as [[_ H]|[_ H]]; [now left|now right].
  - unfold _splitparams, split_once. rewrite Hslash.
    pose proof (span_app_id (is_not ";") x) as Hid.
    pose proof (span_snd_head (is_not ";") x) as Hhead.
    destruct (span (is_not ";") x) as [before [|c after]]; cbn [fst snd tl] in *.
    + left. now rewrite app_nil_r in Hid.
    + right.
      assert (Hc : c = ";").
      { specialize (Hhead c eq_refl). unfold is_not in Hhead.
        now apply negb_false_iff, Ascii.eqb_eq in Hhead. }
      subst c. rewrite <- Hid, count_char_app, count_char_cons.
      change (Ascii.eqb ";" ";") with true. cbv iota. lia.
Qed.

(** The path [urlparse] keeps of a path [p] that is empty or starts with a
    slash. *)
Lemma kept_path (s p : str) :
  p = [] \/ char_in "/" p = true ->
  let kept := fst (if existsb (str_eqb s) uses_params && char_in ";" p
                   then _splitparams p else (p, [])) in
  if existsb (str_eqb s) uses_params && params_in_last_segment p
  then count_char ";" kept < count_char ";" p
  else kept = p.
Proof.
  intros Hp. cbv zeta. destruct (existsb (str_eqb s) uses_params); [|reflexivity].
  cbn [andb]. destruct (params_in_last_segment p) eqn:Hparams.
  - rewrite (params_in_last_segment_semi p Hparams).
    unfold params_in_last_segment in Hparams. apply andb_prop in Hparams as [Hslash Hsemi].
    destruct (splitparams_slash p Hslash) as [[H _]|[_ H]]; [congruence|exact H].
  - destruct (char_in ";" p) eqn:Hsemi; [|reflexivity].
    destruct Hp as [-> | Hslash]; [discriminate|].
    unfold params_in_last_segment in Hparams. rewrite Hslash in Hparams.
    destruct (splitparams_slash p Hslash) as [[_ H]|[H _]]; [exact H|].
    simpl in Hparams. congruence.
Qed.

Lemma split_scheme_cases (u s rest : str) :
  split_scheme u = (s, rest) -> (s = [] /\ rest = u) \/ (good_scheme s /\ rest ⊆ u).
Proof.
  intros H. destruct s as [|c s'];
    [left|right; apply (split_scheme_found u _ _ H); discriminate].
  split; [reflexivity|]. revert H. unfold split_scheme.
  destruct (span (is_not ":") u) as [[|c0 pre] [|x r]]; try (now intros [= <-]).
  destruct (is_alpha c0 && forallb is_scheme_char (c0 :: pre)); [|now intros [= <-]].
  cbn [lower map]. discriminate.
Qed.

(** What the first parse guarantees about the parts [_normalize_url] joins. *)
Lemma urlparse_parts (u : str) (parsed : ParseResult) :
  urlparse chk u = Some parsed ->
  (scheme parsed = [] \/ good_scheme (scheme parsed))
  /\ forallb is_netloc_char (netloc parsed) = true
  /\ forallb is_safe (netloc parsed) = true
  /\ forallb is_safe (path parsed) = true
  /\ forallb (is_not "#") (path parsed) = true
  /\ forallb (is_not "?") (path parsed) = true.
Proof.
  unfold urlparse, urlsplit.
  set (u1 := remove_unsafe_bytes (lstrip is_c0_control_or_space u)).
  pose proof (remove_unsafe_safe (lstrip is_c0_control_or_space u)) as Hsafe.
  fold u1 in Hsafe.
  destruct (split_scheme u1) as [s rest] eqn:Hsch.
  assert (Hs : (s = [] \/ good_scheme s) /\ rest ⊆ u1).
  { destruct (split_scheme_cases _ _ _ Hsch) as [[-> ->]|[Hgood Hrest]];
      [split; [now left|easy]|split; [now right|assumption]]. }
  destruct Hs as [Hs Hrest].
  destruct (split_netloc chk rest) as [[n r]|] eqn:Hnet; [|discriminate].
  destruct (split_netloc_found _ _ _ Hnet) as (Hn & Hnsub & Hrsub & _).
  pose proof (split_once_fst "#" r) as H1.
  destruct (split_once "#" r) as [p1 fragment]. simpl in H1.
  pose proof (split_once_fst "?" p1) as H2.
  destruct (split_once "?" p1) as [p2 query]. simpl in H2.
  assert (Hp : exists p, p ⊆ p2
               /\ (let '(url, params) :=
                     if existsb (str_eqb s) uses_params && char_in ";" p2
                     then _splitparams p2 else (p2, []) in
                   Some (mkParse s n url params query fragment))
                  = Some (mkParse s n p (snd (if existsb (str_eqb s) uses_params && char_in ";" p2
                                                then _splitparams p2 else (p2, [])))
                                  query fragment)).
  { destruct (existsb (str_eqb s) uses_params && char_in ";" p2).
    - exists (fst (_splitparams p2)). split; [apply splitparams_sub|].
      now destruct (_splitparams p2).
    - exists p2. now split. }
  destruct Hp as (p & Hpsub & ->). intros [= <-]. simpl.
  assert (Hp2 : p2 ⊆ p1) by (rewrite H2; apply span_fst_sub).
  assert (Hp1 : p1 ⊆ r) by (rewrite H1; apply span_fst_sub).
  repeat split; try assumption.
  - apply (forallb_sub _ _ u1); [|assumption]. intros y Hy. apply Hrest, Hnsub, Hy.
  - apply (forallb_sub _ _ u1); [|assumption]. intros y Hy.
    apply Hrest, Hrsub, Hp1, Hp2, Hpsub, Hy.
  - apply (forallb_sub _ _ p1); [intros y Hy; apply Hp2, Hpsub, Hy|].
    rewrite H1. apply span_fst_forallb.
  - apply (forallb_sub _ _ p2); [assumption|].
    rewrite H2. apply span_fst_forallb.
Qed.

(** The string [_normalize_url] builds, before [lower]. *)
Lemma rstrip_joined (s j : str) :
  rstrip "/" (s ++ py "://" ++ j) = s ++ ":" :: after_colon (rstrip "/" j).
Proof.
  change (s ++ py "://" ++ j) with (s ++ [":"] ++ "/" :: "/" :: j).
  unfold after_colon. destruct (rstrip "/" j) as [|y w] eqn:Hw; cbn [is_empty].
  - rewrite app_assoc, rstrip_app_drop by (simpl; now rewrite Hw).
    now apply rstrip_app_keep.
  - change (s ++ [":"] ++ "/" :: "/" :: j) with (s ++ py "://" ++ j).
    rewrite (app_assoc s), rstrip_app_keep by (rewrite Hw; discriminate).
    rewrite Hw, <- app_assoc. reflexivity.
Qed.

Lemma lower_after_colon (t : str) : lower (after_colon t) = after_colon (lower t).
Proof. now destruct t. Qed.

Lemma is_empty_middle (s : str) (c : ascii) (x : str) : is_empty (s ++ c :: x) = false.
Proof. now destruct s. Qed.

Lemma normalize_url_shape (u : str) (parsed : ParseResult) :
  urlparse chk u = Some parsed -> u <> [] ->
  Legacy._normalize_url chk u
  = Some (scheme parsed ++ ":" :: after_colon (rstrip "/" (netloc parsed ++ path parsed)))
  /\ Discovery._normalize_url chk u
     = scheme parsed ++ ":" :: after_colon (lower (rstrip "/" (netloc parsed ++ path parsed))).
Proof.
  intros Hparse Hu. destruct u as [|c u']; [congruence|].
  unfold Legacy._normalize_url, Discovery._normalize_url. cbn [is_empty]. rewrite Hparse.
  rewrite rstrip_joined. split; [reflexivity|].
  rewrite lower_app. change (lower (":" :: ?x)) with (":" :: lower x).
  rewrite lower_after_colon. f_equal.
  destruct (urlparse_parts _ _ Hparse) as ([-> |(c0 & pre & _ & _ & _ & Hl)] & _);
    [reflexivity|exact Hl].
Qed.

(** The second parse, of a normalized URL with a scheme. *)
Lemma urlparse_scheme_only (s : str) :
  good_scheme s -> urlparse chk (s ++ [":"]) = Some (mkParse s [] [] [] [] []).
Proof.
  intros Hs. unfold urlparse, urlsplit.
  rewrite (lstrip_good_scheme s [":"] Hs).
  assert (Hall : forallb is_safe (s ++ [":"]) = true)
    by (rewrite forallb_app, (good_scheme_safe s Hs); reflexivity).
  unfold remove_unsafe_bytes. rewrite (filter_all _ _ Hall).
  rewrite (split_scheme_good s [] Hs). simpl. now rewrite andb_false_r.
Qed.

Lemma urlparse_after_scheme (s x : str) :
  good_scheme s -> forallb is_safe x = true ->
  forallb (is_not "#") x = true -> forallb (is_not "?") x = true ->
  urlparse chk (s ++ ":" :: "/" :: "/" :: x) = None
  \/ exists params,
       urlparse chk (s ++ ":" :: "/" :: "/" :: x)
       = Some (mkParse s (fst (span is_netloc_char x))
                 (fst (if existsb (str_eqb s) uses_params
                          && char_in ";" (snd (span is_netloc_char x))
                       then _splitparams (snd (span is_netloc_char x))
                       else (snd (span is_netloc_char x), [])))
                 params [] []).
Proof.
  intros Hs Hsafe Hhash Hquery. unfold urlparse, urlsplit.
  rewrite (lstrip_good_scheme s (":" :: "/" :: "/" :: x) Hs).
  assert (Hall : forallb is_safe (s ++ ":" :: "/" :: "/" :: x) = true).
  { rewrite forallb_app, (good_scheme_safe s Hs). simpl. exact Hsafe. }
  unfold remove_unsafe_bytes. rewrite (filter_all _ _ Hall).
  rewrite (split_scheme_good s _ Hs).
  destruct (split_netloc_slashes x) as [-> | ->]; [now left|].
  pose proof (span_snd_sub is_netloc_char x) as Hsub.
  destruct (span is_netloc_char x) as [n r]. cbn [fst snd] in *.
  right. rewrite (split_once_absent "#" r (forallb_sub _ _ _ Hsub Hhash)).
  rewrite (split_once_absent "?" r (forallb_sub _ _ _ Hsub Hquery)).
  destruct (existsb (str_eqb s) uses_params && char_in ";" r); [|now exists []].
  destruct (_splitparams r) as [kept params]. now exists params.
Qed.

(** The second parse, of a normalized URL without scheme: all of it is
    path. *)
Lemma urlparse_after_colon (x : str) :
  forallb is_safe x = true ->
  forallb (is_not "#") x = true -> forallb (is_not "?") x = true ->
  exists params,
    urlparse chk (":" :: x)
    = Some (mkParse [] []
              (fst (if char_in ";" (":" :: x) then _splitparams (":" :: x)
                    else (":" :: x, [])))
              params [] []).
Proof.
  intros Hsafe Hhash Hquery. unfold urlparse, urlsplit.
  change (lstrip is_c0_control_or_space (":" :: x)) with (":" :: x).
  unfold remove_unsafe_bytes.
  rewrite (filter_all is_safe (":" :: x)) by (simpl; exact Hsafe).
  change (split_scheme (":" :: x)) with (([] : str), ":" :: x). cbv beta iota.
  change (split_netloc chk (":" :: x)) with (Some (([] : str), ":" :: x)). cbv beta iota.
  rewrite (split_once_absent "#" (":" :: x)) by (simpl; exact Hhash). cbv beta iota.
  rewrite (split_once_absent "?" (":" :: x)) by (simpl; exact Hquery). cbv beta iota.
  change (existsb (str_eqb []) uses_params) with true. cbn [andb].
  destruct (char_in ";" (":" :: x)); [|now exists []].
  destruct (_splitparams (":" :: x)) as [kept params]. now exists params.
Qed.

(** Normalizing a normalized URL with a scheme: the second parse raises, or
    it returns the URL's own parts, or it has split parameters off. *)
Lemma renormalize_scheme (s t : str) :
  good_scheme s -> forallb is_safe t = true ->
  forallb (is_not "#") t = true -> forallb (is_not "?") t = true ->
  rstrip "/" t = t ->
  urlparse chk (s ++ ":" :: after_colon t) = None
  \/ exists parsed',
       urlparse chk (s ++ ":" :: after_colon t) = Some parsed'
       /\ if existsb (str_eqb s) uses_params && params_in_last_segment t
          then count_char ";" (scheme parsed' ++ py "://" ++ netloc parsed' ++ path parsed')
               < count_char ";" (s ++ ":" :: after_colon t)
          else rstrip "/" (scheme parsed' ++ py "://" ++ netloc parsed' ++ path parsed')
               = s ++ ":" :: after_colon t.
Proof.
  intros Hs Hsafe Hhash Hquery Hstrip. destruct t as [|c t'].
  - right. exists (mkParse s [] [] [] [] []). split; [now apply urlparse_scheme_only|].
    rewrite andb_false_r. cbn [scheme netloc path app].
    now rewrite (rstrip_joined s []).
  - set (t := c :: t') in *.
    assert (Hac : after_colon t = "/" :: "/" :: t) by reflexivity.
    clearbody t. rewrite Hac.
    destruct (urlparse_after_scheme s t Hs Hsafe Hhash Hquery) as [Hnone|(params & Hsome)];
      [now left|right].
    eexists. split; [exact Hsome|]. cbn [scheme netloc path].
    pose proof (span_app_id is_netloc_char t) as Hid.
    destruct (span is_netloc_char t) as [nl p] eqn:Hspan. cbn [fst snd] in *.
    destruct (params_in_last_segment_path t nl p Hspan Hhash Hquery) as [Hsame Hp].
    rewrite Hsame. pose proof (kept_path s p Hp) as Hkept. cbv zeta in Hkept.
    destruct (existsb (str_eqb s) uses_params && params_in_last_segment p).
    + change (s ++ ":" :: "/" :: "/" :: t) with (s ++ py "://" ++ t).
      rewrite <- Hid, !count_char_app. lia.
    + rewrite Hkept, Hid, rstrip_joined, Hstrip. now rewrite Hac.
Qed.

(** Normalizing a normalized URL without scheme: the second parse reads all
    of it as path, and may split parameters off. *)
Lemma renormalize_colon (t : str) :
  forallb is_safe t = true ->
  forallb (is_not "#") t = true -> forallb (is_not "?") t = true ->
  exists parsed',
    urlparse chk (":" :: after_colon t) = Some parsed'
    /\ scheme parsed' = [] /\ netloc parsed' = []
    /\ (path parsed' = ":" :: after_colon t
        \/ count_char ";" (path parsed') < count_char ";" (":" :: after_colon t)).
Proof.
  intros Hsafe Hhash Hquery.
  assert (Hac : forallb is_safe (after_colon t) = true
                /\ forallb (is_not "#") (after_colon t) = true
                /\ forallb (is_not "?") (after_colon t) = true)
    by (destruct t; [now repeat split|now repeat split]).
  destruct Hac as (H1 & H2 & H3).
  destruct (urlparse_after_colon (after_colon t) H1 H2 H3) as (params & Hsome).
  eexists. split; [exact Hsome|]. cbn [scheme netloc path]. repeat split.
  destruct (char_in ";" (":" :: after_colon t)); [|now left].
  apply splitparams_any.
Qed.

Lemma count_char_differs (c : ascii) (a b : str) :
  count_char c a <> count_char c b -> a <> b.
Proof. intros H ->. now apply H. Qed.

(** The parts [_normalize_url] joins are free of what a second parse would
    remove. *)
Lemma stripped_parts (parsed : ParseResult) (u : str) :
  urlparse chk u = Some parsed ->
  let t := rstrip "/" (netloc parsed ++ path parsed) in
  forallb is_safe t = true /\ forallb (is_not "#") t = true
  /\ forallb (is_not "?") t = true /\ rstrip "/" t = t.
Proof.
  intros Hparse t.
  destruct (urlparse_parts _ _ Hparse) as (_ & Hn & Hsn & Hsp & Hhash & Hquery).
  assert (Hsub : t ⊆ netloc parsed ++ path parsed) by apply rstrip_sub.
  repeat split.
  - apply (forallb_sub _ _ _ Hsub). now rewrite forallb_app, Hsn, Hsp.
  - apply (forallb_sub _ _ _ Hsub). rewrite forallb_app, Hhash, andb_true_r.
    revert Hn. apply forallb_imp. intros c Hc. now apply netloc_char_classes.
  - apply (forallb_sub _ _ _ Hsub). rewrite forallb_app, Hquery, andb_true_r.
    revert Hn. apply forallb_imp. intros c Hc. now apply netloc_char_classes.
  - apply rstrip_idemp.
Qed.

Lemma lowered_parts (t : str) :
  forallb is_safe t = true /\ forallb (is_not "#") t = true
  /\ forallb (is_not "?") t = true /\ rstrip "/" t = t ->
  forallb is_safe (lower t) = true /\ forallb (is_not "#") (lower t) = true
  /\ forallb (is_not "?") (lower t) = true /\ rstrip "/" (lower t) = lower t.
Proof.
  intros (H1 & H2 & H3 & H4). unfold lower.
  rewrite !forallb_map_inv by (intros c; apply lower_char_classes).
  repeat split; try assumption. fold (lower t). now rewrite rstrip_lower, H4.
Qed.

(** The modular [_normalize_url], applied to its own result. *)
Lemma discovery_normalize_twice (u : str) (parsed : ParseResult) :
  urlparse chk u = Some parsed -> u <> [] ->
  Discovery._normalize_url chk (Discovery._normalize_url chk u)
  = Discovery._normalize_url chk u
  <-> scheme parsed <> []
      /\ (urlparse chk (Discovery._normalize_url chk u) = None
          \/ loses_params parsed = false).
Proof.
  intros Hparse Hu.
  destruct (normalize_url_shape u parsed Hparse Hu) as [_ ->].
  set (t := rstrip "/" (netloc parsed ++ path parsed)).
  destruct (lowered_parts t (stripped_parts parsed u Hparse))
    as (Hsafe & Hhash & Hquery & Hstrip).
  set (n := scheme parsed ++ ":" :: after_colon (lower t)).
  assert (Hlow : lower n = n).
  { unfold n. rewrite lower_app. change (lower (":" :: ?x)) with (":" :: lower x).
    rewrite lower_after_colon, lower_idemp. f_equal.
    destruct (urlparse_parts _ _ Hparse) as ([-> |(c0 & pre & _ & _ & _ & Hl)] & _);
      [reflexivity|exact Hl]. }
  unfold Discovery._normalize_url at 1. unfold n at 1. rewrite is_empty_middle. fold n.
  unfold loses_params. fold t. rewrite <- (params_in_last_segment_lower t).
  destruct (urlparse_parts _ _ Hparse) as ([Hs|Hs] & _).
  - (* no scheme: the second call writes [://] before the first result *)
    unfold n in *. rewrite Hs in *. cbn [app] in *.
    destruct (renormalize_colon (lower t) Hsafe Hhash Hquery)
      as (parsed' & -> & Hs' & Hn' & Hpath).
    rewrite Hs', Hn'. cbn [app].
    split; [|now intros [H _]]. intros Hfix. exfalso. revert Hfix.
    destruct Hpath as [-> | Hless].
    + apply (count_char_differs ":").
      rewrite count_char_lower, count_char_rstrip by (reflexivity || now right).
      change (py "://" ++ ?x) with (":" :: "/" :: "/" :: x).
      rewrite (count_char_cons ":" ":"), (count_char_cons ":" "/"),
              (count_char_cons ":" "/" (":" :: _)).
      change (Ascii.eqb ":" ":") with true. change (Ascii.eqb ":" "/") with false.
      cbv iota. lia.
    + apply (count_char_differs ";").
      rewrite count_char_lower, count_char_rstrip by (reflexivity || now left).
      change (py "://" ++ ?x) with (":" :: "/" :: "/" :: x).
      rewrite (count_char_cons ";" ":"), (count_char_cons ";" "/"),
              (count_char_cons ";" "/" (path parsed')).
      change (Ascii.eqb ";" ":") with false. change (Ascii.eqb ";" "/") with false.
      cbv iota. lia.
  - assert (Hscheme : scheme parsed <> [])
      by (destruct Hs as (c0 & pre & -> & _); discriminate).
    destruct (renormalize_scheme (scheme parsed) (lower t) Hs Hsafe Hhash Hquery Hstrip)
      as [Hnone|(parsed' & Hsome & Hcase)]; fold n in Hnone || fold n in Hsome, Hcase.
    + rewrite Hnone. split; [intros _|intros _; exact Hlow]. split; [assumption|now left].
    + rewrite Hsome.
      destruct (existsb (str_eqb (scheme parsed)) uses_params
                && params_in_last_segment (lower t)).
      * split; [|now intros [_ [H|H]]]. intros Hfix. exfalso. revert Hfix.
        apply (count_char_differs ";").
        rewrite count_char_lower, count_char_rstrip by (reflexivity || now left). lia.
      * rewrite Hcase. split; [intros _|intros _; exact Hlow].
        split; [assumption|now right].
Qed.

(** The [_normalize_url] of the single-file agent, applied to its own
    result. *)
Lemma legacy_normalize_twice (u : str) (parsed : ParseResult) :
  urlparse chk u = Some parsed -> u <> [] ->
  exists n,
    Legacy._normalize_url chk u = Some n
    /\ (Legacy._normalize_url chk n = Some n
        <-> scheme parsed <> [] /\ urlparse chk n <> None /\ loses_params parsed = false).
Proof.
  intros Hparse Hu.
  destruct (normalize_url_shape u parsed Hparse Hu) as [-> _].
  set (t := rstrip "/" (netloc parsed ++ path parsed)).
  destruct (stripped_parts parsed u Hparse) as (Hsafe & Hhash & Hquery & Hstrip).
  fold t in Hsafe, Hhash, Hquery, Hstrip.
  set (n := scheme parsed ++ ":" :: after_colon t).
  exists n. split; [reflexivity|].
  unfold Legacy._normalize_url. unfold n at 1. rewrite is_empty_middle. fold n.
  unfold loses_params. fold t.
  destruct (urlparse_parts _ _ Hparse) as ([Hs|Hs] & _).
  - unfold n in *. rewrite Hs in *. cbn [app] in *.
    destruct (renormalize_colon t Hsafe Hhash Hquery)
      as (parsed' & -> & Hs' & Hn' & Hpath).
    rewrite Hs', Hn'. cbn [app].
    split; [|now intros [H _]]. intros Hfix. exfalso.
    apply (f_equal (default [])) in Hfix. cbn [default from_option id] in Hfix.
    revert Hfix.
    destruct Hpath as [-> | Hless].
    + apply (count_char_differs ":").
      rewrite count_char_rstrip by reflexivity.
      change (py "://" ++ ?x) with (":" :: "/" :: "/" :: x).
      rewrite (count_char_cons ":" ":"), (count_char_cons ":" "/"),
              (count_char_cons ":" "/" (":" :: _)).
      change (Ascii.eqb ":" ":") with true. change (Ascii.eqb ":" "/") with false.
      cbv iota. lia.
    + apply (count_char_differs ";").
      rewrite count_char_rstrip by reflexivity.
      change (py "://" ++ ?x) with (":" :: "/" :: "/" :: x).
      rewrite (count_char_cons ";" ":"), (count_char_cons ";" "/"),
              (count_char_cons ";" "/" (path parsed')).
      change (Ascii.eqb ";" ":") with false. change (Ascii.eqb ";" "/") with false.
      cbv iota. lia.
  - assert (Hscheme : scheme parsed <> [])
      by (destruct Hs as (c0 & pre & -> & _); discriminate).
    destruct (renormalize_scheme (scheme parsed) t Hs Hsafe Hhash Hquery Hstrip)
      as [Hnone|(parsed' & Hsome & Hcase)]; fold n in Hnone || fold n in Hsome, Hcase.
    + rewrite Hnone. split; [discriminate|]. now intros (_ & H & _).
    + rewrite Hsome.
      destruct (existsb (str_eqb (scheme parsed)) uses_params && params_in_last_segment t).
      * split; [|now intros (_ & _ & H)]. intros Hfix. exfalso.
    apply (f_equal (default [])) in Hfix. cbn [default from_option id] in Hfix.
    revert Hfix.
        apply (count_char_differs ";").
        rewrite count_char_rstrip by reflexivity. lia.
      * rewrite Hcase. split; [intros _|reflexivity].
        split; [assumption|]. split; [discriminate|reflexivity].
Qed.

(** C7, as amended.  The empty string is normalized to itself.  A URL that
    [urlparse] rejects, also when lower-cased, is normalized to its lower-cased
    self, and that again to itself.  For a non-empty URL that [urlparse]
    accepts, normalizing the normalized URL returns it unchanged exactly when
    the URL has a scheme and the second call does not drop parameters: its
    parse raises, or the scheme takes no parameters, or what follows the last
    slash of network location and path, trailing slashes stripped, has no
    [;].  The single-file agent lets the [ValueError] of the second parse
    through; its second call returns its argument exactly when the URL has a
    scheme, the second parse returns and no parameters are dropped. *)
Theorem normalize_url_idempotent (u : str) :
  (Discovery._normalize_url chk [] = [] /\ Legacy._normalize_url chk [] = Some [])
  /\ (urlparse chk u = None -> urlparse chk (lower u) = None ->
      Discovery._normalize_url chk (Discovery._normalize_url chk u)
      = Discovery._normalize_url chk u)
  /\ (forall parsed, urlparse chk u = Some parsed -> u <> [] ->
      (Discovery._normalize_url chk (Discovery._normalize_url chk u)
       = Discovery._normalize_url chk u
       <-> scheme parsed <> []
           /\ (urlparse chk (Discovery._normalize_url chk u) = None
               \/ loses_params parsed = false))
      /\ exists n,
           Legacy._normalize_url chk u = Some n
           /\ (Legacy._normalize_url chk n = Some n
               <-> scheme parsed <> [] /\ urlparse chk n <> None
                   /\ loses_params parsed = false)).
Proof.
  split; [now split|]. split.
  - intros Hnone Hlower. destruct u as [|c u']; [reflexivity|].
    assert (Hfirst : Discovery._normalize_url chk (c :: u') = lower (c :: u'))
      by (unfold Discovery._normalize_url; cbn [is_empty]; now rewrite Hnone).
    rewrite Hfirst. unfold Discovery._normalize_url.
    change (is_empty (lower (c :: u'))) with false. cbv iota.
    rewrite Hlower. apply lower_idemp.
  - intros parsed Hparse Hu. split.
    + now apply discovery_normalize_twice.
    + now apply legacy_normalize_twice.
Qed.

End NormalizeProperties.

(** C7 as stated fails: a URL without scheme gets the prefix [://] at every
    call, in both variants. *)
Lemma normalize_url_idempotent_counterexample :
  Discovery._normalize_url UrlParse.no_bracket_check
    (Discovery._normalize_url UrlParse.no_bracket_check (py "site.com/a"))
  <> Discovery._normalize_url UrlParse.no_bracket_check (py "site.com/a").
Proof. vm_compute. discriminate. Qed.

Lemma normalize_url_without_scheme :
  Discovery._normalize_url UrlParse.no_bracket_check (py "site.com/a") = py "://site.com/a"
  /\ Discovery._normalize_url UrlParse.no_bracket_check (py "://site.com/a")
     = py "://://site.com/a"
  /\ Legacy._normalize_url UrlParse.no_bracket_check (py "site.com/a")
     = Some (py "://site.com/a")
  /\ Legacy._normalize_url UrlParse.no_bracket_check (py "://site.com/a")
     = Some (py "://://site.com/a").
Proof. now vm_compute. Qed.

(** The condition on [;] is needed: stripping the slashes can turn the end of
    the path into parameters, which the second call drops. *)
Lemma normalize_url_with_params :
  Discovery._normalize_url UrlParse.no_bracket_check (py "http://h/a;b/;") = py "http://h/a;b"
  /\ Discovery._normalize_url UrlParse.no_bracket_check (py "http://h/a;b") = py "http://h/a".
Proof. now vm_compute. Qed.

(** C7, as amended: a URL with upper-case letters, a trailing slash, a query
    and a fragment, and a URL with a [;] before its last slash, are normalized
    once and for all; a URL whose [;] follows the last slash once the trailing
    slash is stripped is not. *)
Lemma normalize_url_idempotent_witness :
  Discovery._normalize_url UrlParse.no_bracket_check
    (Discovery._normalize_url UrlParse.no_bracket_check (py "HTTPS://Site.com/A/?x=1#top"))
  = Discovery._normalize_url UrlParse.no_bracket_check (py "HTTPS://Site.com/A/?x=1#top")
  /\ Discovery._normalize_url UrlParse.no_bracket_check
       (Discovery._normalize_url UrlParse.no_bracket_check (py "http://h/a;b/c"))
     = Discovery._normalize_url UrlParse.no_bracket_check (py "http://h/a;b/c")
  /\ Discovery._normalize_url UrlParse.no_bracket_check
       (Discovery._normalize_url UrlParse.no_bracket_check (py "http://h/a;b/"))
     <> Discovery._normalize_url UrlParse.no_bracket_check (py "http://h/a;b/").
Proof.
  assert (H1 : UrlParse.urlparse UrlParse.no_bracket_check (py "HTTPS://Site.com/A/?x=1#top")
               = Some (UrlParse.mkParse (py "https") (py "Site.com") (py "/A/") []
                         (py "x=1") (py "top"))) by (vm_compute; reflexivity).
  assert (H2 : UrlParse.urlparse UrlParse.no_bracket_check (py "http://h/a;b/c")
               = Some (UrlParse.mkParse (py "http") (py "h") (py "/a;b/c") [] [] []))
    by (vm_compute; reflexivity).
  assert (H3 : UrlParse.urlparse UrlParse.no_bracket_check (py "http://h/a;b/")
               = Some (UrlParse.mkParse (py "http") (py "h") (py "/a;b/") [] [] []))
    by (vm_compute; reflexivity).
  assert (N1 : py "HTTPS://Site.com/A/?x=1#top" <> []) by discriminate.
  assert (N2 : py "http://h/a;b/c" <> []) by discriminate.
  assert (N3 : py "http://h/a;b/" <> []) by discriminate.
  split; [|split].
  - apply (proj1 (proj2 (proj2 (normalize_url_idempotent UrlParse.no_bracket_check _))
                    _ H1 N1)).
    split; [discriminate|right; reflexivity].
  - apply (proj1 (proj2 (proj2 (normalize_url_idempotent UrlParse.no_bracket_check _))
                    _ H2 N2)).
    split; [discriminate|right; reflexivity].
  - intros Hfix.
    apply (proj1 (proj2 (proj2 (normalize_url_idempotent UrlParse.no_bracket_check _))
                    _ H3 N3)) in Hfix.
    destruct Hfix as [_ [Hnone|Hkeeps]]; [vm_compute in Hnone|vm_compute in Hkeeps];
      discriminate.
Defined.

(** * Further properties

    ** Attribution verification *)

Section VerificationScoring.
Import Py Verification.

Variable fetch : str -> option str.

Lemma credit_within n bound points ev t :
  (1 <= points)%Z -> tally_within n bound t ->
  tally_within (S n) (bound + points) (credit points ev t).
Proof.
  intros Hp (Hn & Hs & Hz). unfold tally_within, credit. simpl.
  rewrite length_app. simpl. repeat split; try lia.
  intros H. now destruct (snd t).
Qed.

Lemma keep_within n bound points t :
  (0 <= points)%Z -> tally_within n bound t -> tally_within (S n) (bound + points) t.
Proof. intros Hp (Hn & Hs & Hz). unfold tally_within. repeat split; try lia; apply Hz. Qed.

Lemma name_signal_within self content n bound t :
  tally_within n bound t -> tally_within (S n) (bound + 3) (name_signal self content t).
Proof.
  intros Ht. unfold name_signal. destruct (present content) as [text|];
    [|now apply keep_within].
  destruct (Nat.ltb_spec 0 (_count_name_mentions self text)); [|now apply keep_within].
  eapply (credit_within n bound) in Ht; [|shelve].
  destruct Ht as (Hn & Hs & Hz). unfold tally_within. repeat split; try apply Hz; try lia.
  Unshelve. lia.
Qed.

Lemma agency_signal_within self content n bound t :
  tally_within n bound t ->
  tally_within (S n) (bound + Z.of_nat (length (known_agencies self)))
               (agency_signal self content t).
Proof.
  intros Ht. unfold agency_signal. destruct (present content) as [text|];
    [|apply keep_within; [lia|assumption]].
  pose proof (List.filter_length_le
                (fun agency => str_in (remove_char "/" (remove_char "\" (lower agency)))
                                      (lower text))
                (known_agencies self)) as Hle.
  fold (_check_agency_associations self text) in Hle.
  destruct (Nat.eqb_spec (length (_check_agency_associations self text)) 0) as [Hz|Hnz];
    simpl; [apply keep_within; [lia|assumption]|].
  eapply (credit_within n bound) in Ht; [|shelve].
  destruct Ht as (Hn & Hs & Hz). unfold tally_within. repeat split; try apply Hz; try lia.
  Unshelve. lia.
Qed.

Lemma brand_signal_within self content n bound t :
  tally_within n bound t -> tally_within (S n) (bound + 1) (brand_signal self content t).
Proof.
  intros Ht. unfold brand_signal. destruct (present content) as [text|];
    [|now apply keep_within].
  destruct (_check_brand_association self text) as [[|c b]|]; try now apply keep_within.
  now apply credit_within.
Qed.

Lemma linkedin_signal_within self p content n bound t :
  tally_within n bound t -> tally_within (S n) (bound + 2) (linkedin_signal self p content t).
Proof.
  intros Ht. unfold linkedin_signal.
  destruct (_check_linkedin_mention self p _); [now apply credit_within|now apply keep_within].
Qed.

Lemma portfolio_signal_within self u content n bound t :
  tally_within n bound t -> tally_within (S n) (bound + 1) (portfolio_signal self u content t).
Proof.
  intros Ht. unfold portfolio_signal. destruct (negb _); [|now apply keep_within].
  destruct (_check_portfolio_mention self u _); [now apply credit_within|now apply keep_within].
Qed.

Lemma final_tally_within self p :
  tally_within 5 (7 + Z.of_nat (length (known_agencies self))) (final_tally fetch self p).
Proof.
  unfold final_tally.
  assert (H0 : tally_within 0 0 (0%Z, [])) by (unfold tally_within; simpl; repeat split; lia).
  apply (name_signal_within self (fetch (default [] (url p)))) in H0.
  apply (agency_signal_within self (fetch (default [] (url p)))) in H0.
  apply (brand_signal_within self (fetch (default [] (url p)))) in H0.
  apply (linkedin_signal_within self p (fetch (default [] (url p)))) in H0.
  apply (portfolio_signal_within self (default [] (url p)) (fetch (default [] (url p)))) in H0.
  replace (7 + Z.of_nat (length (known_agencies self)))%Z
    with (0 + 3 + Z.of_nat (length (known_agencies self)) + 1 + 2 + 1)%Z by lia.
  exact H0.
Qed.

(** X1: the score of [verify_attribution] lies between 0 and 7 plus the
    number of configured agencies; there are at most five pieces of evidence,
    no more than the score, and the evidence is empty exactly when the score is
    0. *)
Theorem verify_attribution_score_bounds self p :
  (0 <= score (verify_attribution fetch self p)
   <= 7 + Z.of_nat (length (known_agencies self)))%Z
  /\ length (evidence (verify_attribution fetch self p)) <= 5
  /\ (Z.of_nat (length (evidence (verify_attribution fetch self p)))
      <= score (verify_attribution fetch self p))%Z
  /\ (score (verify_attribution fetch self p) = 0%Z
      <-> evidence (verify_attribution fetch self p) = []).
Proof.
  destruct (is_empty (default [] (url p))) eqn:Hu.
  - apply is_empty_nil in Hu. rewrite (verify_no_url fetch self p Hu).
    unfold score, evidence. simpl. repeat split; lia.
  - apply is_empty_cons in Hu. rewrite (verify_with_url fetch self p Hu).
    unfold score, evidence. simpl.
    destruct (final_tally_within self p) as (Hn & Hs & Hz).
    repeat split; try lia; apply Hz.
Qed.

Lemma startswith_nil (sub : str) : startswith sub [] = is_empty sub.
Proof. now destruct sub. Qed.

Lemma str_in_nil (sub : str) : str_in sub [] = is_empty sub.
Proof. simpl. rewrite startswith_nil. apply orb_false_r. Qed.

Lemma present_None (content : option str) :
  present content = None -> default [] content = [].
Proof. now destruct content as [[|c text]|]. Qed.

Lemma linkedin_without_content self p :
  _check_linkedin_mention self p []
  = str_in (py "linkedin.com") (lower (default [] (url p))).
Proof.
  unfold _check_linkedin_mention. destruct (str_in (py "linkedin.com") _); [reflexivity|].
  simpl lower. rewrite str_in_nil. now destruct (linkedin_url self).
Qed.

(** X2: when the page cannot be fetched, or is empty, only the record's own
    URL scores: 2 points for a [linkedin.com] URL and 1 point for a URL on a
    portfolio domain when [portfolio_url] is set.  The result is that of a
    system without names, agencies, brands and profile URL. *)
Theorem verify_attribution_without_content self p :
  default [] (url p) <> [] ->
  present (fetch (default [] (url p))) = None ->
  score (verify_attribution fetch self p)
  = ((if str_in (py "linkedin.com") (lower (default [] (url p))) then 2 else 0)
     + (if negb (is_empty (portfolio_url self))
           && existsb (fun domain => str_in domain (lower (default [] (url p))))
                      portfolio_domains
        then 1 else 0))%Z
  /\ (score (verify_attribution fetch self p) <= 3)%Z
  /\ value (verify_attribution fetch self p)
     = value (verify_attribution fetch (url_signals_only self) p).
Proof.
  intros Hu Hc.
  assert (Htally : final_tally fetch self p
                   = portfolio_signal self (default [] (url p)) None
                       (linkedin_signal (url_signals_only self) p None (0%Z, []))).
  { unfold final_tally, name_signal, agency_signal, brand_signal. rewrite Hc.
    unfold portfolio_signal, linkedin_signal. rewrite (present_None _ Hc). simpl default.
    now rewrite !linkedin_without_content. }
  assert (Htally' : final_tally fetch (url_signals_only self) p
                    = portfolio_signal self (default [] (url p)) None
                        (linkedin_signal (url_signals_only self) p None (0%Z, []))).
  { unfold final_tally, name_signal, agency_signal, brand_signal. rewrite Hc.
    unfold portfolio_signal, linkedin_signal. now rewrite (present_None _ Hc). }
  assert (Hs : score (verify_attribution fetch self p)
               = ((if str_in (py "linkedin.com") (lower (default [] (url p))) then 2 else 0)
                  + (if negb (is_empty (portfolio_url self))
                        && existsb (fun domain => str_in domain (lower (default [] (url p))))
                                   portfolio_domains
                     then 1 else 0))%Z).
  { rewrite (verify_with_url fetch self p Hu). unfold score. cbn [value fst snd].
    rewrite Htally.
    unfold portfolio_signal, linkedin_signal, _check_portfolio_mention. simpl default.
    rewrite linkedin_without_content.
    generalize (existsb (fun domain => str_in domain (lower (default [] (url p))))
                        portfolio_domains).
    generalize (str_in (py "linkedin.com") (lower (default [] (url p)))).
    generalize (is_empty (portfolio_url self)).
    now intros [] [] []. }
  split; [exact Hs|]. split.
  - rewrite Hs.
    generalize (existsb (fun domain => str_in domain (lower (default [] (url p))))
                        portfolio_domains).
    generalize (str_in (py "linkedin.com") (lower (default [] (url p)))).
    generalize (is_empty (portfolio_url self)).
    intros [] [] []; simpl; lia.
  - rewrite (verify_with_url fetch self p Hu), (verify_with_url fetch (url_signals_only self) p Hu).
    simpl. now rewrite Htally, Htally'.
Qed.

End VerificationScoring.

(** X2 at a profile page that cannot be fetched. *)
Lemma verify_attribution_without_content_witness :
  score (Verification.verify_attribution Sample.unreachable (Sample.system 3)
           (Sample.record None (Some (py "https://www.linkedin.com/in/joshuamgerman"))))
  = ((if Py.str_in (py "linkedin.com")
            (Py.lower (default [] (url (Sample.record None
                         (Some (py "https://www.linkedin.com/in/joshuamgerman"))))))
      then 2 else 0)
     + (if negb (Py.is_empty (Verification.portfolio_url (Sample.system 3)))
           && existsb (fun domain =>
                         Py.str_in domain
                           (Py.lower (default [] (url (Sample.record None
                              (Some (py "https://www.linkedin.com/in/joshuamgerman")))))))
                      Verification.portfolio_domains
        then 1 else 0))%Z
  /\ (score (Verification.verify_attribution Sample.unreachable (Sample.system 3)
               (Sample.record None (Some (py "https://www.linkedin.com/in/joshuamgerman"))))
      <= 3)%Z
  /\ value (Verification.verify_attribution Sample.unreachable (Sample.system 3)
              (Sample.record None (Some (py "https://www.linkedin.com/in/joshuamgerman"))))
     = value (Verification.verify_attribution Sample.unreachable
                (Verification.url_signals_only (Sample.system 3))
                (Sample.record None (Some (py "https://www.linkedin.com/in/joshuamgerman")))).
Proof.
  apply verify_attribution_without_content; [now vm_compute|reflexivity].
Defined.

Section NameMentions.
Import Py Re.

Lemma is_word_lower (c : ascii) : is_word (lower_char c) = is_word c.
Proof. destruct c as [[] [] [] [] [] [] [] []]; reflexivity. Qed.

Lemma is_word_at_lower (c : option ascii) :
  is_word_at (option_map lower_char c) = is_word_at c.
Proof. destruct c; [apply is_word_lower|reflexivity]. Qed.

Lemma boundary_lower (a b : option ascii) :
  boundary (option_map lower_char a) (option_map lower_char b) = boundary a b.
Proof. unfold boundary. now rewrite !is_word_at_lower. Qed.

Lemma head_lower (s : str) : head (lower s) = option_map lower_char (head s).
Proof. now destruct s. Qed.

Lemma match_literal_lower (lit : str) : forall (s : str) (prev : option ascii),
  match_literal lit (lower s) (option_map lower_char prev)
  = option_map (fun lr => (option_map lower_char (fst lr), lower (snd lr)))
               (match_literal lit s prev).
Proof.
  induction lit as [|a lit IH]; intros s prev; [reflexivity|].
  destruct s as [|b s]; [reflexivity|]. simpl.
  rewrite (proj1 (lower_char_classes b)).
  destruct (Ascii.eqb (lower_char a) (lower_char b)); [|reflexivity].
  apply (IH s (Some b)).
Qed.

Lemma match_here_lower (bounded : bool) (lit s : str) (prev : option ascii) :
  match_here bounded lit (option_map lower_char prev) (lower s)
  = match_here bounded lit prev s.
Proof.
  unfold match_here. rewrite head_lower, boundary_lower, match_literal_lower.
  destruct (match_literal lit s prev) as [[last rest]|]; [|reflexivity].
  simpl. now rewrite head_lower, boundary_lower.
Qed.

Lemma count_from_lower (bounded : bool) (lit s : str) :
  forall (prev : option ascii) (skip : nat),
    count_from bounded lit (option_map lower_char prev) skip (lower s)
    = count_from bounded lit prev skip s.
Proof.
  induction s as [|c s IH]; intros prev skip.
  - pose proof (match_here_lower bounded lit [] prev) as H. simpl lower in H.
    simpl. now rewrite H.
  - change (lower (c :: s)) with (lower_char c :: lower s). simpl.
    destruct skip as [|k]; [|apply (IH (Some c))].
    change (lower_char c :: lower s) with (lower (c :: s)).
    rewrite match_here_lower.
    destruct (match_here bounded lit prev (c :: s)); [f_equal|]; apply (IH (Some c)).
Qed.

Lemma findall_count_lower (bounded : bool) (lit s : str) :
  findall_count bounded lit (lower s) = findall_count bounded lit s.
Proof. apply (count_from_lower bounded lit s None 0). Qed.

Lemma count_names_lower (bounded : bool) (names : list str) (s : str) : forall n : nat,
  fold_left (fun count name => count + findall_count bounded (lower name) (lower s)) names n
  = fold_left (fun count name => count + findall_count bounded (lower name) s) names n.
Proof.
  induction names as [|name names IH]; intros n; [reflexivity|].
  simpl. now rewrite findall_count_lower, IH.
Qed.

(** X3: on ASCII text, with ASCII names, the number of name mentions depends
    on the page text up to letter case only, in both verifiers.  (Beyond
    ASCII it does not: [str.lower] can turn one letter into a letter and a
    combining mark, which moves a word boundary.) *)
Theorem count_name_mentions_ignores_case (self : Verification.VerificationSystem)
    (content1 content2 : str) :
  forallb is_ascii (Verification.verification_names self) = true ->
  is_ascii content1 = true -> is_ascii content2 = true ->
  lower content1 = lower content2 ->
  Verification._count_name_mentions self content1
  = Verification._count_name_mentions self content2
  /\ Legacy._count_name_mentions content1 = Legacy._count_name_mentions content2.
Proof.
  intros _ _ _ H. unfold Verification._count_name_mentions, Legacy._count_name_mentions.
  rewrite <- (count_names_lower true _ content1), <- (count_names_lower true _ content2).
  rewrite <- (count_names_lower false _ content1), <- (count_names_lower false _ content2).
  now rewrite H.
Qed.

End NameMentions.

(** X3 at two spellings of one sentence. *)
Lemma count_name_mentions_ignores_case_witness :
  Verification._count_name_mentions (Sample.system 3) (py "Strategy by JOSHUA GERMAN.")
  = Verification._count_name_mentions (Sample.system 3) (py "strategy by Joshua German.")
  /\ Legacy._count_name_mentions (py "Strategy by JOSHUA GERMAN.")
     = Legacy._count_name_mentions (py "strategy by Joshua German.").
Proof.
  apply count_name_mentions_ignores_case; reflexivity.
Defined.

Section BatchVerification.
Import Py Verification.

Variable fetch : str -> option str.

Lemma verify_requested self p :
  requested (verify_attribution fetch self p)
  = if is_empty (default [] (url p)) then [] else [default [] (url p)].
Proof.
  unfold verify_attribution. destruct (is_empty (default [] (url p))); [reflexivity|].
  now match goal with |- context [let '(_, _) := ?t in _] => destruct t end.
Qed.

Lemma verify_loop self projects : forall acc,
  annotated (value (fold_left (verify_one fetch self) projects acc))
  = annotated (value acc) ++ map (annotate fetch self) projects
  /\ verified_projects (value (fold_left (verify_one fetch self) projects acc))
     = verified_projects (value acc)
       ++ List.filter (fun e => verified (snd e)) (map (annotate fetch self) projects)
  /\ requested (fold_left (verify_one fetch self) projects acc)
     = requested acc
       ++ List.filter (fun u => negb (is_empty u)) (map (fun p => default [] (url p)) projects).
Proof.
  induction projects as [|p rest IH]; intros acc.
  - simpl. now rewrite !app_nil_r.
  - simpl fold_left. destruct (IH (verify_one fetch self acc p)) as (Ha & Hv & Hr).
    rewrite Ha, Hv, Hr. unfold verify_one. cbn [value requested annotated verified_projects].
    rewrite verify_requested. cbn [map List.filter]. split; [|split].
    + now rewrite <- app_assoc.
    + destruct (verified (snd (annotate fetch self p))); [|reflexivity].
      now rewrite <- app_assoc.
    + destruct (is_empty (default [] (url p))); simpl.
      * now rewrite app_nil_r.
      * now rewrite <- app_assoc.
Qed.

Lemma annotate_verified self p :
  verified (snd (annotate fetch self p)) = true ->
  default [] (url (fst (annotate fetch self p))) <> []
  /\ exists s, verification_score (fst (annotate fetch self p)) = Some s
               /\ (verification_threshold self <= s)%Z.
Proof.
  unfold annotate. simpl. intros Hv. split.
  - intros Hu. rewrite (verify_no_url fetch self p Hu) in Hv. discriminate.
  - exists (score (verify_attribution fetch self p)). split; [reflexivity|].
    destruct (is_empty (default [] (url p))) eqn:Hu.
    + apply is_empty_nil in Hu. rewrite (verify_no_url fetch self p Hu) in Hv. discriminate.
    + apply is_empty_cons in Hu. rewrite (verify_with_url fetch self p Hu) in *.
      unfold is_verified, score in *. simpl in *. lia.
Qed.

(** X4: [verify_multiple_projects] annotates every record of its argument
    and returns, in the order of the argument, exactly those it marks
    verified.  A returned record has a non-empty URL and a recorded score that
    reaches the threshold, so a record without URL is never returned.  One page
    is requested for each record with a URL, in order. *)
Theorem verify_multiple_projects_returns (self : VerificationSystem) (projects : list project) :
  map (fun e => url (fst e)) (annotated (value (verify_multiple_projects fetch self projects)))
  = map url projects
  /\ verified_projects (value (verify_multiple_projects fetch self projects))
     = List.filter (fun e => verified (snd e))
                   (annotated (value (verify_multiple_projects fetch self projects)))
  /\ Forall (fun e => verified (snd e) = true
                      /\ default [] (url (fst e)) <> []
                      /\ exists s, verification_score (fst e) = Some s
                                   /\ (verification_threshold self <= s)%Z)
            (verified_projects (value (verify_multiple_projects fetch self projects)))
  /\ requested (verify_multiple_projects fetch self projects)
     = List.filter (fun u => negb (is_empty u)) (map (fun p => default [] (url p)) projects).
Proof.
  unfold verify_multiple_projects.
  destruct (verify_loop self projects (mkFetching (mkBatch [] []) [])) as (Ha & Hv & Hr).
  simpl in Ha, Hv, Hr. rewrite Ha, Hv, Hr. repeat split.
  - rewrite map_map. now apply map_ext.
  - apply List.Forall_forall. intros e He. apply filter_In in He as [Hin Hver].
    apply in_map_iff in Hin as (p & <- & _).
    split; [assumption|]. now apply annotate_verified.
Qed.

End BatchVerification.

(** ** Deduplication, continued *)

Section DedupOrder.
Import Py Discovery.

Variable chk : str -> bool.

Local Abbreviation step := (dedup_step chk).
Local Abbreviation norm := (normalized_url_of chk).
Local Abbreviation ltitle := (fun p : project => lower (default [] (title p))).

Lemma dedup_sublist projects : forall st,
  exists accepted,
    unique (fold_left step projects st) = unique st ++ accepted
    /\ sublist accepted projects.
Proof.
  induction projects as [|p rest IH]; intros st.
  - exists []. simpl. now rewrite app_nil_r.
  - simpl. destruct (dedup_step_cases chk st p) as [Hskip|(_ & _ & Hacc)].
    + rewrite Hskip. destruct (IH st) as (acc & Hu & Hs).
      exists acc. split; [assumption|now apply sublist_cons].
    + destruct (IH (step st p)) as (acc & Hu & Hs).
      exists (p :: acc). split; [|now apply sublist_skip].
      rewrite Hu, Hacc. simpl. now rewrite <- app_assoc.
Qed.

(** X5: the output of [deduplicate_projects] is its input with some records
    left out; the records that stay keep their order. *)
Theorem deduplicate_projects_sublist (projects : list project) :
  sublist (deduplicate_projects chk projects) projects.
Proof.
  unfold deduplicate_projects.
  destruct (dedup_sublist projects (mkDedup ∅ ∅ [])) as (acc & Hu & Hs).
  now rewrite Hu.
Qed.

(** X6: the first record of the input is kept whenever it has a URL. *)
Theorem deduplicate_projects_keeps_first (p : project) (rest : list project) :
  default [] (url p) <> [] ->
  head (deduplicate_projects chk (p :: rest)) = Some p.
Proof.
  intros Hu. unfold deduplicate_projects. simpl fold_left.
  assert (Hstep : step (mkDedup ∅ ∅ []) p
                  = mkDedup ({[norm p]} ∪ ∅) ({[ltitle p]} ∪ ∅) [p]).
  { destruct (dedup_step_cases chk (mkDedup ∅ ∅ []) p) as [Hskip|(_ & _ & Hacc)];
      [|exact Hacc].
    exfalso. revert Hskip. unfold dedup_step. simpl.
    assert (Hn : norm p <> []) by (rewrite normalized_url_of_nil_iff; exact Hu).
    apply is_empty_cons in Hn. rewrite Hn. simpl.
    rewrite bool_decide_eq_true_2 by apply not_elem_of_empty.
    rewrite elements_empty. simpl. discriminate. }
  rewrite Hstep.
  destruct (dedup_sublist rest (mkDedup ({[norm p]} ∪ ∅) ({[ltitle p]} ∪ ∅) [p]))
    as (acc & -> & _).
  reflexivity.
Qed.

Lemma dedup_seen_step st p : dedup_seen chk st -> dedup_seen chk (step st p).
Proof.
  intros [Hu Ht].
  destruct (dedup_step_cases chk st p) as [-> |(_ & _ & ->)]; [now split|].
  split; simpl; rewrite map_app, list_to_set_app_L; simpl.
  - now rewrite <- Hu, (right_id_L ∅ (∪)), (comm_L (∪)).
  - now rewrite <- Ht, (right_id_L ∅ (∪)), (comm_L (∪)).
Qed.

(** A record with a URL that an iteration does not accept is represented by
    a record accepted before. *)
Lemma dedup_step_represented st p :
  dedup_seen chk st -> norm p <> [] ->
  exists q, q ∈ unique (step st p) /\ represents chk q p.
Proof.
  intros [Hu Ht] Hn. unfold dedup_step.
  apply is_empty_cons in Hn. rewrite Hn. simpl.
  destruct (decide (norm p ∉ seen_urls st)) as [Hfresh|Hseen].
  - rewrite bool_decide_eq_true_2 by assumption.
    destruct (existsb _ (elements (seen_titles st))) eqn:Hsim; simpl.
    + apply existsb_exists in Hsim as (t & Hin & Hgt).
      apply list_elem_of_In, elem_of_elements in Hin. rewrite Ht in Hin.
      apply elem_of_list_to_set, list_elem_of_fmap in Hin as (q & -> & Hq).
      exists q. split; [assumption|now right].
    + exists p. split; [apply elem_of_app; right; constructor|now left].
  - rewrite bool_decide_eq_false_2 by assumption.
    apply dec_stable in Hseen. rewrite Hu in Hseen.
    apply elem_of_list_to_set, list_elem_of_fmap in Hseen as (q & Hq & Hin).
    exists q. split; [assumption|now left].
Qed.

Lemma dedup_unique_grows projects : forall st q,
  q ∈ unique st -> q ∈ unique (fold_left step projects st).
Proof.
  intros st q Hq. destruct (dedup_sublist projects st) as (acc & -> & _).
  apply elem_of_app. now left.
Qed.

Lemma dedup_loop_represented projects : forall st p,
  dedup_seen chk st -> p ∈ projects -> norm p <> [] ->
  exists q, q ∈ unique (fold_left step projects st) /\ represents chk q p.
Proof.
  induction projects as [|p0 rest IH]; intros st p Hst Hin Hn;
    [now apply elem_of_nil in Hin|].
  simpl. apply elem_of_cons in Hin as [-> |Hin].
  - destruct (dedup_step_represented st p0 Hst Hn) as (q & Hq & Hrep).
    exists q. split; [now apply dedup_unique_grows|assumption].
  - apply IH; [now apply dedup_seen_step|assumption..].
Qed.

(** X7: no record with a URL is dropped without a reason: the output holds a
    record with the same normalized URL, or one whose title is more than 0.8
    similar to its title. *)
Theorem deduplicate_projects_represents (projects : list project) (p : project) :
  p ∈ projects -> default [] (url p) <> [] ->
  exists q, q ∈ deduplicate_projects chk projects /\ represents chk q p.
Proof.
  intros Hin Hu. apply dedup_loop_represented; [|assumption|].
  - split; simpl; reflexivity.
  - now rewrite normalized_url_of_nil_iff.
Qed.

End DedupOrder.

(** X6 at two records. *)
Lemma deduplicate_projects_keeps_first_witness :
  head (Discovery.deduplicate_projects UrlParse.no_bracket_check
          [Sample.record (Some (py "Case study")) (Some (py "https://site.com/a"));
           Sample.record (Some (py "Launch film")) None])
  = Some (Sample.record (Some (py "Case study")) (Some (py "https://site.com/a"))).
Proof.
  apply deduplicate_projects_keeps_first. discriminate.
Defined.

(** X7 at the second of two records whose URLs differ in the query only. *)
Lemma deduplicate_projects_represents_witness :
  exists q,
    q ∈ Discovery.deduplicate_projects UrlParse.no_bracket_check
          [Sample.record (Some (py "Case study")) (Some (py "https://site.com/a?x=1"));
           Sample.record (Some (py "Launch film")) (Some (py "https://site.com/a?y=2"))]
    /\ Discovery.represents UrlParse.no_bracket_check q
         (Sample.record (Some (py "Launch film")) (Some (py "https://site.com/a?y=2"))).
Proof.
  apply deduplicate_projects_represents; [|discriminate].
  apply elem_of_cons. right. constructor.
Defined.

(** ** URL normalization, continued *)

Section QueryAndFragment.
Import Py UrlParse.

Variable chk : str -> bool.

Lemma lstrip_app_stop (p : ascii -> bool) (a : str) (c : ascii) (b : str) :
  p c = false -> lstrip p (a ++ c :: b) = lstrip p a ++ c :: b.
Proof. intros Hc. unfold lstrip. now rewrite (span_app_stop p a c b Hc). Qed.

Lemma lstrip_sub (p : ascii -> bool) (a : str) : lstrip p a ⊆ a.
Proof. apply span_snd_sub. Qed.

Lemma remove_unsafe_sub (a : str) : remove_unsafe_bytes a ⊆ a.
Proof.
  intros x Hx. apply list_elem_of_In in Hx. apply filter_In in Hx as [Hx _].
  now apply list_elem_of_In.
Qed.

Lemma split_scheme_snd_sub (w : str) : snd (split_scheme w) ⊆ w.
Proof.
  unfold split_scheme. pose proof (span_snd_sub (is_not ":") w) as Hsub.
  destruct (span (is_not ":") w) as [[|c0 pre] [|x r]]; try easy.
  destruct (is_alpha c0 && forallb is_scheme_char (c0 :: pre)); [|easy].
  simpl in *. intros y Hy. apply Hsub. now right.
Qed.

(** A character that cannot be part of a scheme, appended with more text,
    leaves the scheme as it is. *)
Lemma split_scheme_suffix (w : str) (c : ascii) (e : str) :
  is_scheme_char c = false -> is_not ":" c = true ->
  split_scheme (w ++ c :: e)
  = (fst (split_scheme w), snd (split_scheme w) ++ c :: e).
Proof.
  intros Hc Hcolon. unfold split_scheme.
  destruct (span (is_not ":") w) as [pre r] eqn:Hw.
  destruct r as [|x rest].
  - assert (Hall : forallb (is_not ":") (w ++ [c]) = true).
    { rewrite forallb_app. simpl. rewrite Hcolon.
      pose proof (span_fst_forallb (is_not ":") w) as H. rewrite Hw in H. simpl in H.
      pose proof (span_app_id (is_not ":") w) as H'. rewrite Hw in H'. simpl in H'.
      rewrite app_nil_r in H'. subst pre. now rewrite H. }
    change (w ++ c :: e) with (w ++ [c] ++ e). rewrite app_assoc.
    rewrite (span_app _ _ _ Hall).
    transitivity (([] : str), (w ++ [c]) ++ e);
      [|destruct pre; simpl; now rewrite <- app_assoc].
    assert (Hbad : forall t, forallb is_scheme_char ((w ++ [c]) ++ t) = false).
    { intros t. rewrite !forallb_app. simpl. rewrite Hc. simpl.
      now rewrite andb_false_r. }
    destruct ((w ++ [c]) ++ fst (span (is_not ":") e)) as [|c0 pre'] eqn:Hpre;
      [reflexivity|].
    destruct (snd (span (is_not ":") e)) as [|y rest']; [reflexivity|].
    now rewrite <- Hpre, Hbad, andb_false_r.
  - rewrite (span_app_stopped (is_not ":") w (c :: e)) by (rewrite Hw; discriminate).
    rewrite Hw. simpl. destruct pre as [|c0 pre]; [reflexivity|].
    now destruct (is_alpha c0 && (is_scheme_char c0 && forallb is_scheme_char pre)).
Qed.

Lemma startswith_slashes_suffix (r : str) (c : ascii) (e : str) :
  Ascii.eqb c "/" = false ->
  startswith (py "//") (r ++ c :: e) = startswith (py "//") r.
Proof.
  intros Hc. rewrite Ascii.eqb_sym in Hc. change (py "//") with ["/"; "/"].
  destruct r as [|x [|y r]]; cbn [startswith app]; rewrite ?Hc, ?andb_false_r; reflexivity.
Qed.

Lemma split_netloc_suffix (r : str) (c : ascii) (e : str) :
  Ascii.eqb c "/" = false -> is_netloc_char c = false ->
  split_netloc chk (r ++ c :: e)
  = option_map (fun nx => (fst nx, snd nx ++ c :: e)) (split_netloc chk r).
Proof.
  intros Hslash Hc. unfold split_netloc, _splitnetloc.
  rewrite (startswith_slashes_suffix r c e Hslash).
  destruct (startswith (py "//") r) eqn:Hs; [|reflexivity].
  destruct r as [|x [|y r]]; try (simpl in Hs; rewrite ?andb_false_r in Hs; discriminate).
  change (drop 2 ((x :: y :: r) ++ c :: e)) with (drop 0 (r ++ c :: e)).
  change (drop 2 (x :: y :: r)) with (drop 0 r). rewrite !drop_0.
  rewrite (span_app_stop is_netloc_char r c e Hc).
  destruct (span is_netloc_char r) as [n rest]. simpl.
  do 2 (match goal with
        | |- context [if ?b then None else _] => destruct b; [reflexivity|]
        end).
  reflexivity.
Qed.

Lemma split_once_stop (c : ascii) (x e : str) :
  forallb (is_not c) x = true -> split_once c (x ++ c :: e) = (x, e).
Proof.
  intros Hx. unfold split_once. rewrite (span_stop (is_not c) x c e Hx); [reflexivity|].
  unfold is_not. now rewrite Ascii.eqb_refl.
Qed.

Lemma split_once_later (c d : ascii) (x e : str) :
  forallb (is_not c) x = true -> is_not c d = true ->
  fst (split_once c (x ++ d :: e)) = x ++ d :: fst (split_once c e).
Proof.
  intros Hx Hd. unfold split_once.
  change (x ++ d :: e) with (x ++ [d] ++ e). rewrite app_assoc.
  rewrite (span_app (is_not c) (x ++ [d]) e)
    by (rewrite forallb_app; simpl; now rewrite Hx, Hd).
  destruct (span (is_not c) e). simpl. now rewrite <- app_assoc.
Qed.

(** Text after a [#], or after a [?] in a URL that has neither, changes
    neither the outcome of the parse nor scheme, network location and path. *)
Lemma urlparse_suffix (u : str) (c : ascii) (e : str) :
  forallb (is_not "#") u = true ->
  c = "#" \/ (c = "?" /\ forallb (is_not "?") u = true) ->
  same_location (urlparse chk u) (urlparse chk (u ++ c :: e)).
Proof.
  intros Hhash Hc.
  assert (Hcls : is_c0_control_or_space c = false /\ is_safe c = true
                 /\ is_scheme_char c = false /\ is_not ":" c = true
                 /\ Ascii.eqb c "/" = false /\ is_netloc_char c = false)
    by (destruct Hc as [-> |[-> _]]; now vm_compute).
  destruct Hcls as (Hc0 & Hsafe & Hsch & Hcolon & Hslash & Hnet).
  unfold urlparse, urlsplit.
  rewrite (lstrip_app_stop _ u c e Hc0). unfold remove_unsafe_bytes at 2.
  rewrite List.filter_app. simpl List.filter. rewrite Hsafe.
  fold (remove_unsafe_bytes (lstrip is_c0_control_or_space u)).
  fold (remove_unsafe_bytes e).
  set (w := remove_unsafe_bytes (lstrip is_c0_control_or_space u)).
  assert (Hw : w ⊆ u).
  { intros y Hy. apply lstrip_sub with (p := is_c0_control_or_space).
    now apply remove_unsafe_sub. }
  rewrite (split_scheme_suffix w c _ Hsch Hcolon).
  pose proof (split_scheme_snd_sub w) as Hr.
  destruct (split_scheme w) as [s r]. simpl in Hr. cbn [fst snd].
  rewrite (split_netloc_suffix r c _ Hslash Hnet).
  destruct (split_netloc chk r) as [[n x]|] eqn:Hn; cbn [option_map fst snd]; [|exact I].
  destruct (split_netloc_found chk _ _ _ Hn) as (_ & _ & Hx & _).
  assert (Hxu : x ⊆ u) by (intros y Hy; apply Hw, Hr, Hx, Hy).
  rewrite (split_once_absent "#" x (forallb_sub _ _ _ Hxu Hhash)).
  destruct Hc as [-> |[-> Hquery]].
  - rewrite (split_once_stop "#" x _ (forallb_sub _ _ _ Hxu Hhash)).
    destruct (split_once "?" x) as [x' q].
    match goal with
    | |- context [if ?b then _splitparams _ else _] => destruct b
    end; [destruct (_splitparams x')|]; now repeat split.
  - pose proof (split_once_later "#" "?" x (remove_unsafe_bytes e)
                  (forallb_sub _ _ _ Hxu Hhash) eq_refl) as Hfst.
    destruct (split_once "#" (x ++ "?" :: remove_unsafe_bytes e)) as [y f]. simpl in Hfst.
    subst y. rewrite (split_once_stop "?" x _ (forallb_sub _ _ _ Hxu Hquery)).
    rewrite (split_once_absent "?" x (forallb_sub _ _ _ Hxu Hquery)).
    match goal with
    | |- context [if ?b then _splitparams _ else _] => destruct b
    end; [destruct (_splitparams x)|]; now repeat split.
Qed.

Lemma normalize_url_suffix (u : str) (c : ascii) (e : str) (parsed : ParseResult) :
  urlparse chk u = Some parsed -> u <> [] ->
  forallb (is_not "#") u = true ->
  c = "#" \/ (c = "?" /\ forallb (is_not "?") u = true) ->
  Discovery._normalize_url chk (u ++ c :: e) = Discovery._normalize_url chk u
  /\ Legacy._normalize_url chk (u ++ c :: e) = Legacy._normalize_url chk u.
Proof.
  intros Hparse Hu Hhash Hc.
  pose proof (urlparse_suffix u c e Hhash Hc) as Hsame. rewrite Hparse in Hsame.
  unfold Discovery._normalize_url, Legacy._normalize_url. rewrite Hparse.
  destruct (urlparse chk (u ++ c :: e)) as [parsed'|]; [|contradiction].
  destruct Hsame as (-> & -> & ->).
  destruct u as [|x u]; [congruence|]. now split.
Qed.

(** X8: for a URL that [urlparse] accepts and that has no fragment, what
    follows a [#] added to it does not change the normalized URL; if it has no
    query either, neither does what follows a [?].  This holds for both
    variants of [_normalize_url]. *)
Theorem normalize_url_ignores_query_and_fragment
    (u query_ fragment_ : str) (parsed : ParseResult) :
  urlparse chk u = Some parsed -> u <> [] -> char_in "#" u = false ->
  (Discovery._normalize_url chk (u ++ "#" :: fragment_) = Discovery._normalize_url chk u
   /\ Legacy._normalize_url chk (u ++ "#" :: fragment_) = Legacy._normalize_url chk u)
  /\ (char_in "?" u = false ->
      Discovery._normalize_url chk (u ++ "?" :: query_) = Discovery._normalize_url chk u
      /\ Legacy._normalize_url chk (u ++ "?" :: query_) = Legacy._normalize_url chk u).
Proof.
  intros Hparse Hu Hhash. apply char_in_false in Hhash. split.
  - apply (normalize_url_suffix u "#" fragment_ parsed); auto.
  - intros Hquery. apply char_in_false in Hquery.
    apply (normalize_url_suffix u "?" query_ parsed); auto.
Qed.

End QueryAndFragment.

(** X8 at the URL of two search results that differ in the query. *)
Lemma normalize_url_ignores_query_and_fragment_witness :
  Discovery._normalize_url UrlParse.no_bracket_check (py "https://site.com/a" ++ "?" :: py "x=1")
  = Discovery._normalize_url UrlParse.no_bracket_check (py "https://site.com/a")
  /\ Legacy._normalize_url UrlParse.no_bracket_check (py "https://site.com/a" ++ "?" :: py "x=1")
     = Legacy._normalize_url UrlParse.no_bracket_check (py "https://site.com/a").
Proof.
  apply (normalize_url_ignores_query_and_fragment UrlParse.no_bracket_check
           (py "https://site.com/a") (py "x=1") (py "top")
           (UrlParse.mkParse (py "https") (py "site.com") (py "/a") [] [] []));
    try reflexivity. discriminate.
Defined.

(** ** The search: [generate_search_queries], [perform_search],
       [extract_projects_from_results] and [discover_projects] *)

Section DiscoverySearch.
Import Py Discovery.

Variable chk : str -> bool.
Variable strftime : nat -> str.

Section OnViews.
Context {A : Type} (view : A -> project).

Local Abbreviation step_on := (dedup_step_on chk view).

Lemma dedup_on_simulates entries : forall (st : dedup_state) (u : list A),
  map view u = unique st ->
  exists u',
    fold_left step_on entries (seen_urls st, seen_titles st, u)
    = (seen_urls (fold_left (dedup_step chk) (map view entries) st),
       seen_titles (fold_left (dedup_step chk) (map view entries) st), u')
    /\ map view u' = unique (fold_left (dedup_step chk) (map view entries) st).
Proof.
  induction entries as [|a rest IH]; intros st u Hu.
  - exists u. now split.
  - cbn [fold_left map].
    assert (Hstep : exists u2,
               step_on (seen_urls st, seen_titles st, u) a
               = (seen_urls (dedup_step chk st (view a)),
                  seen_titles (dedup_step chk st (view a)), u2)
               /\ map view u2 = unique (dedup_step chk st (view a))).
    { unfold dedup_step_on, dedup_step.
      destruct (negb (is_empty (normalized_url_of chk (view a)))
                && bool_decide (normalized_url_of chk (view a) ∉ seen_urls st));
        [|now exists u].
      destruct (negb (existsb _ (elements (seen_titles st)))); [|now exists u].
      exists (u ++ [a]). split; [reflexivity|]. simpl. now rewrite map_app, Hu. }
    destruct Hstep as (u2 & -> & Hu2). now apply IH.
Qed.

Lemma deduplicate_on_view (entries : list A) :
  map view (deduplicate_on chk view entries) = deduplicate_projects chk (map view entries).
Proof.
  unfold deduplicate_on, deduplicate_projects.
  destruct (dedup_on_simulates entries (mkDedup ∅ ∅ []) [] eq_refl) as (u' & Hf & Hu).
  simpl in Hf. rewrite Hf. exact Hu.
Qed.

Lemma dedup_on_sublist entries : forall st,
  exists accepted,
    snd (fold_left step_on entries st) = snd st ++ accepted
    /\ sublist accepted entries.
Proof.
  induction entries as [|a rest IH]; intros st.
  - exists []. simpl. now rewrite app_nil_r.
  - simpl fold_left.
    assert (Hcases : step_on st a = st
                     \/ snd (step_on st a) = snd st ++ [a]).
    { unfold dedup_step_on. destruct st as [[su stt] u].
      destruct (_ && _); [|now left].
      destruct (negb _); [now right|now left]. }
    destruct Hcases as [-> | Hacc].
    + destruct (IH st) as (acc & Hs & Hsub). exists acc.
      split; [assumption|now apply sublist_cons].
    + destruct (IH (step_on st a)) as (acc & Hs & Hsub). exists (a :: acc).
      split; [|now apply sublist_skip].
      rewrite Hs, Hacc. now rewrite <- app_assoc.
Qed.

Lemma deduplicate_on_sublist (entries : list A) :
  sublist (deduplicate_on chk view entries) entries.
Proof.
  unfold deduplicate_on.
  destruct (dedup_on_sublist entries (∅, ∅, [])) as (acc & Hs & Hsub).
  now rewrite Hs.
Qed.

End OnViews.

Lemma extract_sound results query : forall tick d,
  d ∈ fst (extract_projects_from_results chk strftime results query tick) ->
  d_source_query d = query
  /\ d_url d <> []
  /\ _is_valid_url chk (d_url d) = true
  /\ exists result, result ∈ results /\ built_from d result.
Proof.
  induction results as [|r rest IH]; intros tick d; simpl.
  - intros H. now apply elem_of_nil in H.
  - specialize (IH (S tick) d).
    destruct (extract_projects_from_results chk strftime rest query (S tick))
      as [projects tick'].
    assert (Hrest : d ∈ projects ->
                    d_source_query d = query /\ d_url d <> []
                    /\ _is_valid_url chk (d_url d) = true
                    /\ exists result, result ∈ r :: rest /\ built_from d result).
    { intros H. destruct (IH H) as (Hq & Hu & Hv & r' & Hr' & Hb).
      repeat split; try assumption. exists r'. split; [now apply elem_of_cons; right|assumption]. }
    destruct (negb (is_empty (default [] (r_url r)))) eqn:Hne; simpl; [|exact Hrest].
    destruct (_is_valid_url chk (default [] (r_url r))) eqn:Hvalid; simpl; [|exact Hrest].
    intros H. apply elem_of_cons in H as [-> | H]; [|now apply Hrest].
    simpl. repeat split; try assumption.
    + intros He. rewrite He in Hne. discriminate.
    + exists r. split; [apply elem_of_cons; now left|]. now repeat split.
Qed.

Lemma search_all_sound queries search_api : forall tick d,
  d ∈ search_all chk strftime queries search_api tick ->
  d_source_query d ∈ queries
  /\ d_url d <> []
  /\ _is_valid_url chk (d_url d) = true
  /\ exists api results result,
       search_api = Some api /\ api (d_source_query d) = Some results
       /\ result ∈ results /\ built_from d result.
Proof.
  induction queries as [|q rest IH]; intros tick d; simpl.
  - intros H. now apply elem_of_nil in H.
  - pose proof (extract_sound (perform_search q search_api) q tick d) as Hx.
    destruct (extract_projects_from_results chk strftime (perform_search q search_api) q tick)
      as [projects tick'].
    intros H. apply elem_of_app in H as [H | H].
    + destruct (Hx H) as (Hq & Hu & Hv & r & Hr & Hb).
      repeat split; try assumption.
      * rewrite Hq. apply elem_of_cons. now left.
      * unfold perform_search in Hr. destruct search_api as [api|];
          [|now apply elem_of_nil in Hr].
        destruct (api q) as [results|] eqn:Hapi; [|now apply elem_of_nil in Hr].
        exists api, results, r. rewrite Hq. auto.
    + destruct (IH tick' d H) as (Hq & Hrest). split; [|exact Hrest].
      apply elem_of_cons. now right.
Qed.

Lemma search_all_silent queries search_api : forall tick,
  (forall query, perform_search query search_api = []) ->
  search_all chk strftime queries search_api tick = [].
Proof.
  induction queries as [|q rest IH]; intros tick Hsilent; [reflexivity|].
  simpl. rewrite Hsilent. simpl. now apply IH.
Qed.

Lemma length_concat_const {X Y} (f : X -> list Y) (n : nat) (l : list X) :
  (forall x, length (f x) = n) -> length (concat (map f l)) = length l * n.
Proof.
  intros Hf. induction l as [|x l IH]; [reflexivity|].
  simpl. rewrite length_app, Hf, IH. lia.
Qed.

Lemma length_concat_sum {Y} (l : list (list Y)) :
  length (concat l) = list_sum (map (@length Y) l).
Proof.
  induction l as [|x l IH]; [reflexivity|]. simpl. rewrite length_app, IH. reflexivity.
Qed.

(** X9: [generate_search_queries] raises exactly when a LinkedIn URL is
    configured and no name is; otherwise the number of queries is: per name
    five and one for each of the first three agencies, per brand one for each
    of the first three names, per search source one for each of the first two
    names, two for the LinkedIn URL, and the queries of the writing sources. *)
Theorem generate_search_queries_count (self : DiscoveryEngine) :
  (generate_search_queries self = None
   <-> linkedin_url self <> [] /\ verification_names self = [])
  /\ forall queries, generate_search_queries self = Some queries ->
       length queries
       = length (verification_names self) * (5 + min 3 (length (known_agencies self)))
         + length (known_brands self) * min 3 (length (verification_names self))
         + length (search_sources self) * min 2 (length (verification_names self))
         + (if is_empty (linkedin_url self) then 0 else 2)
         + list_sum (map (fun source => length (default [] source)) (writing_sources self)).
Proof.
  assert (Hprofile :
    (linkedin_queries self = None /\ linkedin_url self <> [] /\ verification_names self = [])
    \/ exists profile,
         linkedin_queries self = Some profile
         /\ length profile = (if is_empty (linkedin_url self) then 0 else 2)
         /\ ~ (linkedin_url self <> [] /\ verification_names self = [])).
  { unfold linkedin_queries. destruct (linkedin_url self) as [|c li]; simpl is_empty; cbv iota.
    - right. exists []. repeat split. now intros [H _].
    - destruct (verification_names self) as [|first names].
      + left. now repeat split.
      + right. eexists. repeat split. now intros [_ H]. }
  unfold generate_search_queries.
  destruct Hprofile as [(-> & Hli & Hn)|(profile & -> & Hlen & Hno)].
  - split; [now split|discriminate].
  - split; [split; [discriminate|intros H; now apply Hno in H]|].
    intros queries Heq.
    assert (Hq : queries
                 = (((concat (map (name_queries self) (verification_names self))
                      ++ concat (map (brand_queries self) (known_brands self)))
                     ++ concat (map (source_queries self) (search_sources self)))
                    ++ profile)
                   ++ concat (map (default []) (writing_sources self)))
      by congruence.
    rewrite Hq, !length_app, Hlen.
    rewrite (length_concat_const (name_queries self) (5 + min 3 (length (known_agencies self)))),
            (length_concat_const (brand_queries self) (min 3 (length (verification_names self)))),
            (length_concat_const (source_queries self) (min 2 (length (verification_names self)))),
            length_concat_sum, map_map.
    + reflexivity.
    + intros x. unfold source_queries. now rewrite length_map, length_take.
    + intros x. unfold brand_queries. now rewrite length_map, length_take.
    + intros x. unfold name_queries. rewrite length_app, length_map, length_take. reflexivity.
Qed.

(** X10: without a search API, and with one that raises on every query,
    [discover_projects] finds nothing: it returns the empty list whenever the
    queries can be generated. *)
Theorem discover_projects_without_results (self : DiscoveryEngine)
    (api : str -> option (list search_result)) :
  discover_projects chk strftime self None
  = option_map (fun _ => []) (generate_search_queries self)
  /\ ((forall query, api query = None \/ api query = Some []) ->
      discover_projects chk strftime self (Some api)
      = discover_projects chk strftime self None).
Proof.
  unfold discover_projects.
  destruct (generate_search_queries self) as [queries|]; [|now split].
  split.
  - now rewrite search_all_silent.
  - intros Hapi. rewrite !search_all_silent; try reflexivity.
    intros query. simpl. now destruct (Hapi query) as [-> | ->].
Qed.

(** X11: what [discover_projects] returns.  Every project has a non-empty URL
    with a scheme and a host, was built from a result the API gave for one of
    the generated queries, and names that query; no two projects have the same
    normalized URL. *)
Theorem discover_projects_sound (self : DiscoveryEngine)
    (search_api : option (str -> option (list search_result)))
    (found : list discovered_project) :
  discover_projects chk strftime self search_api = Some found ->
  NoDup (map (fun d => normalized_url_of chk (as_project d)) found)
  /\ forall d, d ∈ found ->
       d_url d <> []
       /\ _is_valid_url chk (d_url d) = true
       /\ exists queries api results result,
            generate_search_queries self = Some queries
            /\ d_source_query d ∈ queries
            /\ search_api = Some api
            /\ api (d_source_query d) = Some results
            /\ result ∈ results
            /\ built_from d result.
Proof.
  unfold discover_projects.
  destruct (generate_search_queries self) as [queries|]; [|discriminate].
  intros [= <-]. split.
  - rewrite <- (map_map as_project (normalized_url_of chk)), deduplicate_on_view.
    apply (dedup_invariant_output chk).
  - intros d Hd.
    apply (fun H => elem_of_sublist _ _ d H (deduplicate_on_sublist as_project _)) in Hd.
    apply search_all_sound in Hd as (Hq & Hu & Hv & api & results & r & Ha & Hr & Hin & Hb).
    repeat split; try assumption.
    exists queries, api, results, r. auto 7.
Qed.

End DiscoverySearch.

Lemma generate_search_queries_count_witness :
  exists queries,
    Discovery.generate_search_queries Sample.engine = Some queries /\ length queries = 11.
Proof.
  eexists. split; [reflexivity|].
  exact (proj2 (generate_search_queries_count Sample.engine) _ eq_refl).
Defined.

Lemma discover_projects_without_results_witness :
  Discovery.discover_projects UrlParse.no_bracket_check Sample.clock Sample.engine
                    (Some Sample.failing_api)
  = Discovery.discover_projects UrlParse.no_bracket_check Sample.clock Sample.engine None.
Proof.
  apply (discover_projects_without_results UrlParse.no_bracket_check Sample.clock
           Sample.engine Sample.failing_api).
  intros query. left. reflexivity.
Defined.

Lemma discover_projects_sound_witness :
  exists found,
    Discovery.discover_projects UrlParse.no_bracket_check Sample.clock Sample.engine
                      (Some Sample.search_api) = Some found
    /\ length found = 1
    /\ NoDup (map (fun d => Discovery.normalized_url_of UrlParse.no_bracket_check (Discovery.as_project d)) found).
Proof.
  eexists. split; [vm_compute; reflexivity|]. split; [reflexivity|].
  exact (proj1 (discover_projects_sound UrlParse.no_bracket_check Sample.clock Sample.engine
                  (Some Sample.search_api) _ eq_refl)).
Defined.

(** ** Validation of a page: [validate_all] and the methods it calls *)

Section PageValidation.
Import Py LinkValidator.

Variable chk : str -> bool.
Variable requests_get : str -> option Z.
Variable requests_head : str -> head_outcome.

Local Abbreviation external := (_is_external_link chk).
Local Abbreviation broken := (is_broken chk requests_head).
Local Abbreviation broken_video := (is_broken_video requests_get requests_head).

(** The links before the first one on which something raises are all
    handled. *)
Lemma validate_links_scan (before rest : list anchor) : forall entries,
  Forall (fun link => broken (href link) <> None) before ->
  _validate_links chk requests_head entries (before ++ rest)
  = _validate_links chk requests_head
      (entries ++ map link_entry
                    (List.filter (fun link => reported (broken (href link))) before))
      rest.
Proof.
  induction before as [|link before IH]; intros entries Hall.
  - simpl. now rewrite app_nil_r.
  - apply Forall_cons in Hall as [Hlink Hall]. specialize (fun e => IH e Hall).
    cbn [app _validate_links List.filter]. unfold is_broken in Hlink |- *.
    destruct (external (href link)) as [[]|]; [|apply IH|congruence].
    destruct (_check_link_valid requests_head (href link)) as [[]|];
      [apply IH| |now destruct Hlink].
    cbn [option_map negb reported map]. rewrite IH. now rewrite <- app_assoc.
Qed.

Lemma validate_images_scan (before rest : list image) : forall entries,
  Forall (fun img => broken (src img) <> None) before ->
  _validate_images chk requests_head entries (before ++ rest)
  = _validate_images chk requests_head
      (entries ++ map image_entry
                    (List.filter (fun img => reported (broken (src img))) before))
      rest.
Proof.
  induction before as [|img before IH]; intros entries Hall.
  - simpl. now rewrite app_nil_r.
  - apply Forall_cons in Hall as [Himg Hall]. specialize (fun e => IH e Hall).
    cbn [app _validate_images List.filter]. unfold is_broken in Himg |- *.
    destruct (external (src img)) as [[]|]; [|apply IH|congruence].
    destruct (_check_link_valid requests_head (src img)) as [[]|];
      [apply IH| |now destruct Himg].
    cbn [option_map negb reported map]. rewrite IH. now rewrite <- app_assoc.
Qed.

Lemma validate_videos_scan (before rest : list str) : forall entries,
  Forall (fun src => broken_video src <> None) before ->
  _validate_videos requests_get requests_head entries (before ++ rest)
  = _validate_videos requests_get requests_head
      (entries ++ map video_entry
                    (List.filter (fun src => reported (broken_video src)) before))
      rest.
Proof.
  induction before as [|src before IH]; intros entries Hall.
  - simpl. now rewrite app_nil_r.
  - apply Forall_cons in Hall as [Hsrc Hall]. specialize (fun e => IH e Hall).
    cbn [app _validate_videos List.filter]. unfold is_broken_video in Hsrc |- *.
    destruct (_check_video_valid requests_get requests_head src) as [[]|];
      [apply IH| |now destruct Hsrc].
    cbn [option_map negb reported map]. rewrite IH. now rewrite <- app_assoc.
Qed.

(** Where something raises, the loop ends. *)
Lemma validate_links_stop (bad : anchor) (after : list anchor) (entries : list broken_entry) :
  broken (href bad) = None ->
  _validate_links chk requests_head entries (bad :: after) = (entries, false).
Proof.
  unfold is_broken. cbn [_validate_links].
  destruct (external (href bad)) as [[]|]; [|discriminate|reflexivity].
  now destruct (_check_link_valid requests_head (href bad)) as [[]|].
Qed.

Lemma validate_images_stop (bad : image) (after : list image) (entries : list broken_entry) :
  broken (src bad) = None ->
  _validate_images chk requests_head entries (bad :: after) = (entries, false).
Proof.
  unfold is_broken. cbn [_validate_images].
  destruct (external (src bad)) as [[]|]; [|discriminate|reflexivity].
  now destruct (_check_link_valid requests_head (src bad)) as [[]|].
Qed.

Lemma validate_videos_stop (bad : str) (after : list str) (entries : list broken_entry) :
  broken_video bad = None ->
  _validate_videos requests_get requests_head entries (bad :: after) = (entries, false).
Proof.
  unfold is_broken_video. cbn [_validate_videos].
  now destruct (_check_video_valid requests_get requests_head bad) as [[]|].
Qed.

Lemma validate_links_app (links : list anchor) : forall entries,
  _validate_links chk requests_head entries links
  = (entries ++ fst (_validate_links chk requests_head [] links),
     snd (_validate_links chk requests_head [] links)).
Proof.
  induction links as [|link links IH]; intros entries.
  - simpl. now rewrite app_nil_r.
  - cbn [_validate_links]. destruct (external (href link)) as [[]|].
    + destruct (_check_link_valid requests_head (href link)) as [[]|].
      * apply IH.
      * rewrite (IH (entries ++ [link_entry link])), (IH ([] ++ [link_entry link])).
        simpl. now rewrite <- app_assoc.
      * simpl. now rewrite app_nil_r.
    + apply IH.
    + simpl. now rewrite app_nil_r.
Qed.

Lemma validate_images_app (imgs : list image) : forall entries,
  _validate_images chk requests_head entries imgs
  = (entries ++ fst (_validate_images chk requests_head [] imgs),
     snd (_validate_images chk requests_head [] imgs)).
Proof.
  induction imgs as [|img imgs IH]; intros entries.
  - simpl. now rewrite app_nil_r.
  - cbn [_validate_images]. destruct (external (src img)) as [[]|].
    + destruct (_check_link_valid requests_head (src img)) as [[]|].
      * apply IH.
      * rewrite (IH (entries ++ [image_entry img])), (IH ([] ++ [image_entry img])).
        simpl. now rewrite <- app_assoc.
      * simpl. now rewrite app_nil_r.
    + apply IH.
    + simpl. now rewrite app_nil_r.
Qed.

Lemma validate_videos_app (srcs : list str) : forall entries,
  _validate_videos requests_get requests_head entries srcs
  = (entries ++ fst (_validate_videos requests_get requests_head [] srcs),
     snd (_validate_videos requests_get requests_head [] srcs)).
Proof.
  induction srcs as [|src srcs IH]; intros entries.
  - simpl. now rewrite app_nil_r.
  - cbn [_validate_videos].
    destruct (_check_video_valid requests_get requests_head src) as [[]|].
    + apply IH.
    + rewrite (IH (entries ++ [video_entry src])), (IH ([] ++ [video_entry src])).
      simpl. now rewrite <- app_assoc.
    + simpl. now rewrite app_nil_r.
Qed.

(** X12: [validate_all] only appends.  What an instance holds after the call
    is what it held before, followed by what a new instance holds after the
    same call; so a second call on the same instance repeats every entry. *)
Theorem validate_all_accumulates (self : validator) (soup : option page) :
  validate_all chk requests_get requests_head self soup
  = mkValidator
      (broken_links self
       ++ broken_links (validate_all chk requests_get requests_head init soup))
      (broken_images self
       ++ broken_images (validate_all chk requests_get requests_head init soup))
      (broken_videos self
       ++ broken_videos (validate_all chk requests_get requests_head init soup)).
Proof.
  destruct self as [links imgs videos]. destruct soup as [soup|]; simpl.
  - rewrite (validate_links_app (anchors soup) links).
    destruct (_validate_links chk requests_head [] (anchors soup)) as [l1 r1]; simpl.
    destruct r1; simpl; [|now rewrite !app_nil_r].
    rewrite (validate_images_app (images soup) imgs).
    destruct (_validate_images chk requests_head [] (images soup)) as [l2 r2]; simpl.
    destruct r2; simpl; [|now rewrite !app_nil_r].
    rewrite (validate_videos_app (frames soup) videos).
    now destruct (_validate_videos requests_get requests_head [] (frames soup)).
  - now rewrite !app_nil_r.
Qed.

(** The three loops on a page on which nothing raises. *)
Ltac scan_page Hlinks Himgs Hframes :=
  unfold validate_all, init; cbn [broken_links broken_images broken_videos];
  rewrite <- (app_nil_r (anchors _)) at 1;
  rewrite (validate_links_scan _ [] [] Hlinks);
  cbn [_validate_links negb app];
  rewrite <- (app_nil_r (images _)) at 1;
  rewrite (validate_images_scan _ [] [] Himgs);
  cbn [_validate_images negb app];
  rewrite <- (app_nil_r (frames _)) at 1;
  rewrite (validate_videos_scan _ [] [] Hframes);
  cbn [_validate_videos app].

(** X13: on a page on which nothing raises (no [urlparse] of an [href] or a
    [src], and no check of a link, an image or a frame), a new instance reports
    exactly the external links and images whose check fails and the frames
    whose check fails, each as often as it occurs and in document order. *)
Theorem validate_all_reports_exactly (soup : page) :
  Forall (fun link => broken (href link) <> None) (anchors soup) ->
  Forall (fun img => broken (src img) <> None) (images soup) ->
  Forall (fun src => broken_video src <> None) (frames soup) ->
  validate_all chk requests_get requests_head init (Some soup)
  = mkValidator
      (map link_entry
         (List.filter (fun link => reported (broken (href link))) (anchors soup)))
      (map image_entry
         (List.filter (fun img => reported (broken (src img))) (images soup)))
      (map video_entry
         (List.filter (fun src => reported (broken_video src)) (frames soup))).
Proof.
  intros Hlinks Himgs Hframes. scan_page Hlinks Himgs Hframes. reflexivity.
Qed.

(** X14: the first exception ends the validation.  When [urlparse] rejects an
    [href], or the check of a link raises something else than a
    [RequestException], the links before it are reported as usual and the
    links after it, the images and the frames are not looked at.  The same
    among the images leaves out the images after it and the frames, and among
    the frames the frames after it. *)
Theorem validate_all_stops_at_exception (self : validator) (soup : page) :
  (forall before bad after,
     anchors soup = before ++ bad :: after ->
     Forall (fun link => broken (href link) <> None) before ->
     broken (href bad) = None ->
     validate_all chk requests_get requests_head self (Some soup)
     = mkValidator
         (broken_links self
          ++ map link_entry
               (List.filter (fun link => reported (broken (href link))) before))
         (broken_images self) (broken_videos self))
  /\ (forall before bad after,
        Forall (fun link => broken (href link) <> None) (anchors soup) ->
        images soup = before ++ bad :: after ->
        Forall (fun img => broken (src img) <> None) before ->
        broken (src bad) = None ->
        validate_all chk requests_get requests_head self (Some soup)
        = mkValidator
            (broken_links self
             ++ map link_entry
                  (List.filter (fun link => reported (broken (href link))) (anchors soup)))
            (broken_images self
             ++ map image_entry
                  (List.filter (fun img => reported (broken (src img))) before))
            (broken_videos self))
  /\ (forall before bad after,
        Forall (fun link => broken (href link) <> None) (anchors soup) ->
        Forall (fun img => broken (src img) <> None) (images soup) ->
        frames soup = before ++ bad :: after ->
        Forall (fun src => broken_video src <> None) before ->
        broken_video bad = None ->
        validate_all chk requests_get requests_head self (Some soup)
        = mkValidator
            (broken_links self
             ++ map link_entry
                  (List.filter (fun link => reported (broken (href link))) (anchors soup)))
            (broken_images self
             ++ map image_entry
                  (List.filter (fun img => reported (broken (src img))) (images soup)))
            (broken_videos self
             ++ map video_entry
                  (List.filter (fun src => reported (broken_video src)) before))).
Proof.
  split; [|split].
  - intros before bad after Ha Hbefore Hbad. unfold validate_all.
    rewrite Ha, (validate_links_scan before (bad :: after) _ Hbefore).
    now rewrite (validate_links_stop bad after _ Hbad).
  - intros before bad after Hlinks Hi Hbefore Hbad. unfold validate_all.
    rewrite <- (app_nil_r (anchors soup)) at 1.
    rewrite (validate_links_scan (anchors soup) [] _ Hlinks).
    cbn [_validate_links negb].
    rewrite Hi, (validate_images_scan before (bad :: after) _ Hbefore).
    now rewrite (validate_images_stop bad after _ Hbad).
  - intros before bad after Hlinks Himgs Hf Hbefore Hbad. unfold validate_all.
    rewrite <- (app_nil_r (anchors soup)) at 1.
    rewrite (validate_links_scan (anchors soup) [] _ Hlinks).
    cbn [_validate_links negb].
    rewrite <- (app_nil_r (images soup)) at 1.
    rewrite (validate_images_scan (images soup) [] _ Himgs).
    cbn [_validate_images negb].
    rewrite Hf, (validate_videos_scan before (bad :: after) _ Hbefore).
    now rewrite (validate_videos_stop bad after _ Hbad).
Qed.

Lemma startswith_drop (lit s : str) :
  startswith lit s = true -> s = lit ++ drop (length lit) s.
Proof.
  revert s. induction lit as [|a lit IH]; intros s; [now rewrite drop_0|].
  destruct s as [|b s]; simpl; [discriminate|].
  intros H. apply andb_prop in H as [Hab H]. apply Ascii.eqb_eq in Hab. subst b.
  f_equal. now apply IH.
Qed.

(** The group of a match is a maximal run of the class that follows an
    occurrence of the literal. *)
Lemma search_run_occurs (lit : str) (cls : ascii -> bool) (s g : str) :
  Re.search_run lit cls s = Some g ->
  forallb cls g = true
  /\ exists before after,
       s = before ++ lit ++ g ++ after
       /\ forall c, head after = Some c -> cls c = false.
Proof.
  assert (Hhere : forall t x rest,
            (if startswith lit t then fst (span cls (drop (length lit) t)) else [])
            = x :: rest ->
            forallb cls (x :: rest) = true
            /\ exists after,
                 t = lit ++ (x :: rest) ++ after
                 /\ forall c, head after = Some c -> cls c = false).
  { intros t x rest. destruct (startswith lit t) eqn:Hs; [|discriminate].
    intros Hg. split; [rewrite <- Hg; apply span_fst_forallb|].
    exists (snd (span cls (drop (length lit) t))). split.
    - rewrite <- Hg, span_app_id. now apply startswith_drop.
    - apply span_snd_head. }
  induction s as [|c s IH]; cbn [Re.search_run].
  - destruct (if startswith lit [] then _ else _) as [|x rest] eqn:Hg; [discriminate|].
    intros [= <-]. destruct (Hhere _ _ _ Hg) as (Hall & after & Heq & Hstop).
    split; [assumption|]. now exists [], after.
  - destruct (if startswith lit (c :: s) then _ else _) as [|x rest] eqn:Hg.
    + intros H. destruct (IH H) as (Hall & before & after & Heq & Hstop).
      split; [assumption|]. exists (c :: before), after. split; [|assumption].
      simpl. now rewrite Heq.
    + intros [= <-]. destruct (Hhere _ _ _ Hg) as (Hall & after & Heq & Hstop).
      split; [assumption|]. now exists [], after.
Qed.

Lemma extract_youtube_id_cases (url : str) :
  (_extract_youtube_id url = None /\ format_valid url = false)
  \/ exists pattern video_id,
       pattern ∈ youtube_patterns
       /\ Re.search_run pattern Re.is_id_char url = Some video_id
       /\ _extract_youtube_id url = Some video_id
       /\ format_valid url = true.
Proof.
  unfold _extract_youtube_id, format_valid, youtube_patterns. cbn [first_group existsb].
  assert (Hno : forall A, ~ is_Some (@None A)) by (intros A [? ?]; discriminate).
  destruct (Re.search_run youtube_embed Re.is_id_char url) as [g|] eqn:H1.
  { right. exists youtube_embed, g. split; [apply elem_of_cons; now left|].
    split; [assumption|]. split; [reflexivity|].
    now rewrite bool_decide_eq_true_2 by (now exists g). }
  destruct (Re.search_run youtube_short Re.is_id_char url) as [g|] eqn:H2.
  { right. exists youtube_short, g.
    split; [apply elem_of_cons; right; apply elem_of_cons; now left|].
    split; [assumption|]. split; [reflexivity|].
    rewrite bool_decide_eq_false_2 by apply Hno.
    now rewrite bool_decide_eq_true_2 by (now exists g). }
  destruct (Re.search_run youtube_watch Re.is_id_char url) as [g|] eqn:H3.
  { right. exists youtube_watch, g.
    split; [do 2 (apply elem_of_cons; right); apply elem_of_cons; now left|].
    split; [assumption|]. split; [reflexivity|].
    rewrite !bool_decide_eq_false_2 by apply Hno.
    now rewrite bool_decide_eq_true_2 by (now exists g). }
  left. split; [reflexivity|].
  now rewrite !bool_decide_eq_false_2 by apply Hno.
Qed.

(** X15: the identifier that [_extract_youtube_id] returns is not empty and
    made of letters, digits, [_] and [-]; in the URL it follows one of the
    three patterns and is followed by no further such character.  The method
    returns [None] exactly for the URLs that fail the format check of
    [_validate_youtube_url]. *)
Theorem extract_youtube_id_occurs (url : str) :
  (_extract_youtube_id url = None <-> format_valid url = false)
  /\ forall video_id,
       _extract_youtube_id url = Some video_id ->
       video_id <> []
       /\ forallb Re.is_id_char video_id = true
       /\ exists pattern before after,
            pattern ∈ youtube_patterns
            /\ url = before ++ pattern ++ video_id ++ after
            /\ forall c, head after = Some c -> Re.is_id_char c = false.
Proof.
  destruct (extract_youtube_id_cases url) as [[Hn Hf]|(pattern & g & Hp & Hs & He & Hf)].
  - split; [now split|]. intros video_id. rewrite Hn. discriminate.
  - split; [split; intros H; congruence|].
    intros video_id. rewrite He. intros [= <-].
    destruct (search_run_Some _ _ _ _ Hs) as [Hne _].
    destruct (search_run_occurs _ _ _ _ Hs) as (Hall & before & after & Heq & Hstop).
    repeat split; [assumption..|]. now exists pattern, before, after.
Qed.

(** X16: [_validate_youtube_url] accepts a URL exactly when an identifier can
    be extracted from it and the oEmbed request for that identifier answers
    200 or raises. *)
Theorem validate_youtube_url_iff (url : str) :
  _validate_youtube_url requests_get url = true
  <-> exists video_id,
        _extract_youtube_id url = Some video_id
        /\ (requests_get (oembed_url video_id) = Some 200%Z
            \/ requests_get (oembed_url video_id) = None).
Proof.
  unfold _validate_youtube_url.
  destruct (extract_youtube_id_cases url) as [[Hn Hf]|(pattern & g & Hp & Hs & He & Hf)].
  - rewrite Hf, Hn. simpl. split; [discriminate|]. now intros (video_id & H & _).
  - rewrite Hf, He. simpl.
    destruct (search_run_Some _ _ _ _ Hs) as [Hne _].
    destruct g as [|c g]; [congruence|].
    destruct (requests_get (oembed_url (c :: g))) as [status_code|] eqn:Hget.
    + split.
      * intros H. apply Z.eqb_eq in H. subst status_code. exists (c :: g). auto.
      * intros (video_id & [= <-] & [H|H]); rewrite Hget in H; [|discriminate].
        injection H as ->. reflexivity.
    + split; [|reflexivity]. intros _. exists (c :: g). auto.
Qed.

Lemma check_video_valid_offline (url : str) :
  (forall u, requests_head u = RequestException) ->
  (forall u, requests_get u = None) ->
  _check_video_valid requests_get requests_head url = Some (well_formed_embed url).
Proof.
  intros Hhead Hget. unfold _check_video_valid, well_formed_embed.
  destruct (str_in (py "youtube.com") url || str_in (py "youtu.be") url).
  - f_equal. unfold _validate_youtube_url.
    destruct (extract_youtube_id_cases url) as [[Hn Hf]|(pattern & g & Hp & Hs & He & Hf)].
    + now rewrite Hf.
    + rewrite Hf, He. simpl. destruct (search_run_Some _ _ _ _ Hs) as [Hne _].
      destruct g as [|c g]; [congruence|]. now rewrite Hget.
  - destruct (str_in (py "vimeo.com") url); [reflexivity|].
    unfold _check_link_valid. now rewrite Hhead.
Qed.

(** X17: without a connection, that is when every [requests.head] raises a
    [RequestException] and every [requests.get] raises, a new instance reports
    every external link and every external image of a page whose URLs
    [urlparse] accepts, and of the frames those that are not a well-formed
    YouTube or Vimeo embed. *)
Theorem validate_all_offline (soup : page) :
  (forall url, requests_head url = RequestException) ->
  (forall url, requests_get url = None) ->
  Forall (fun link => external (href link) <> None) (anchors soup) ->
  Forall (fun img => external (src img) <> None) (images soup) ->
  validate_all chk requests_get requests_head init (Some soup)
  = mkValidator
      (map link_entry
         (List.filter (fun link => bool_decide (external (href link) = Some true))
                      (anchors soup)))
      (map image_entry
         (List.filter (fun img => bool_decide (external (src img) = Some true))
                      (images soup)))
      (map video_entry
         (List.filter (fun src => negb (well_formed_embed src)) (frames soup))).
Proof.
  intros Hhead Hget Hlinks Himgs.
  assert (Hb : forall url, broken url = option_map (fun external => external) (external url)).
  { intros url. unfold is_broken, _check_link_valid. rewrite Hhead.
    now destruct (external url) as [[]|]. }
  assert (Hv : forall url, broken_video url = Some (negb (well_formed_embed url))).
  { intros url. unfold is_broken_video. now rewrite check_video_valid_offline. }
  assert (Hlinks' : Forall (fun link => broken (href link) <> None) (anchors soup)).
  { apply (Forall_impl _ _ _ Hlinks). intros link H. rewrite Hb.
    now destruct (external (href link)). }
  assert (Himgs' : Forall (fun img => broken (src img) <> None) (images soup)).
  { apply (Forall_impl _ _ _ Himgs). intros img H. rewrite Hb.
    now destruct (external (src img)). }
  assert (Hframes : Forall (fun src => broken_video src <> None) (frames soup)).
  { apply List.Forall_forall. intros url _. now rewrite Hv. }
  scan_page Hlinks' Himgs' Hframes.
  f_equal; f_equal; apply List.filter_ext; intros x; rewrite ?Hb, ?Hv.
  - now destruct (external (href x)) as [[]|].
  - now destruct (external (src x)) as [[]|].
  - now destruct (well_formed_embed x).
Qed.

End PageValidation.

Lemma validate_all_reports_exactly_witness :
  LinkValidator.validate_all UrlParse.no_bracket_check Sample.status Sample.head_status
    LinkValidator.init (Some Sample.soup)
  = LinkValidator.mkValidator
      [LinkValidator.link_entry Sample.gone]
      [LinkValidator.image_entry (LinkValidator.mkImage (py "https://example.com/gone.png") None)]
      [LinkValidator.video_entry (py "https://vimeo.com/channels/staffpicks")].
Proof.
  rewrite (validate_all_reports_exactly UrlParse.no_bracket_check Sample.status
             Sample.head_status Sample.soup).
  - vm_compute. reflexivity.
  - repeat constructor; vm_compute; discriminate.
  - repeat constructor; vm_compute; discriminate.
  - repeat constructor; vm_compute; discriminate.
Defined.

Lemma validate_all_stops_at_exception_witness :
  LinkValidator.validate_all UrlParse.no_bracket_check Sample.status Sample.head_status
    LinkValidator.init (Some Sample.soup_malformed)
  = LinkValidator.mkValidator [LinkValidator.link_entry Sample.gone] [] [].
Proof.
  apply (proj1 (validate_all_stops_at_exception UrlParse.no_bracket_check
                  Sample.status Sample.head_status LinkValidator.init Sample.soup_malformed)
               [Sample.gone] Sample.malformed [Sample.gone]).
  - reflexivity.
  - repeat constructor; vm_compute; discriminate.
  - vm_compute. reflexivity.
Defined.

Lemma extract_youtube_id_occurs_witness :
  LinkValidator._extract_youtube_id (py "https://www.youtube.com/embed/dQw4w9WgXcQ?rel=0")
  = Some (py "dQw4w9WgXcQ")
  /\ forallb Re.is_id_char (py "dQw4w9WgXcQ") = true.
Proof.
  split; [vm_compute; reflexivity|].
  apply (proj2 (extract_youtube_id_occurs
                  (py "https://www.youtube.com/embed/dQw4w9WgXcQ?rel=0"))
               (py "dQw4w9WgXcQ")).
  vm_compute. reflexivity.
Defined.

Lemma validate_all_offline_witness :
  LinkValidator.validate_all UrlParse.no_bracket_check Sample.offline Sample.no_connection
    LinkValidator.init (Some Sample.soup)
  = LinkValidator.mkValidator
      [LinkValidator.link_entry
         (LinkValidator.mkAnchor (py "https://example.com/ok")
            (py "<a href='https://example.com/ok'>Work</a>") (py "Work"));
       LinkValidator.link_entry Sample.gone]
      [LinkValidator.image_entry (LinkValidator.mkImage (py "https://example.com/gone.png") None)]
      [LinkValidator.video_entry (py "https://vimeo.com/channels/staffpicks");
       LinkValidator.video_entry (py "https://example.com/player")].
Proof.
  rewrite (validate_all_offline UrlParse.no_bracket_check Sample.offline Sample.no_connection
             Sample.soup).
  - vm_compute. reflexivity.
  - reflexivity.
  - reflexivity.
  - repeat constructor; vm_compute; discriminate.
  - repeat constructor; vm_compute; discriminate.
Defined.

(** ** The report: [_generate_summary], [_generate_recommendations] and
       [suggest_portfolio_section] *)

Section ReportSummary.
Import Py ReportGenerator.

(** The recommendations, part by part. *)
Lemma recommendations_parts (verified : list project) (results : validation_results)
    (new_projects : option (list project)) :
  exists fix_links replace_images fix_videos,
    _generate_recommendations verified results new_projects
    = (if Nat.eqb (length (default [] (broken_links results))) 0 then [] else [fix_links])
      ++ (if Nat.eqb (length (default [] (broken_images results))) 0 then [] else [replace_images])
      ++ (if Nat.eqb (length (default [] (broken_videos results))) 0 then [] else [fix_videos])
      ++ new_project_recommendations new_projects
      ++ (if Nat.eqb (length (default [] (broken_links results))
                      + length (default [] (broken_images results))
                      + length (default [] (broken_videos results))) 0
          then [healthy] else [])
    /\ head fix_links = Some "F"%char
    /\ head replace_images = Some "R"%char
    /\ head fix_videos = Some "F"%char.
Proof.
  unfold _generate_recommendations.
  exists (py "Fix " ++ str_of_nat (length (default [] (broken_links results)))
            ++ py " broken link(s). Check URLs for updates or replacements."),
         (py "Replace " ++ str_of_nat (length (default [] (broken_images results)))
            ++ py " broken image(s). Verify image URLs or upload new images."),
         (py "Fix " ++ str_of_nat (length (default [] (broken_videos results)))
            ++ py " broken video embed(s). Verify YouTube/Vimeo URLs.").
  split; [|repeat split].
  destruct (length (default [] (broken_links results))) as [|a];
    destruct (length (default [] (broken_images results))) as [|b];
    destruct (length (default [] (broken_videos results))) as [|c];
    cbn [Nat.eqb negb andb Nat.add app]; rewrite ?app_nil_r; reflexivity.
Qed.

Lemma new_project_recommendations_shape (new_projects : option (list project)) :
  length (new_project_recommendations new_projects)
  = match new_projects with
    | Some ((_ :: _) as projects) => 1 + min 5 (length projects)
    | _ => 0
    end
  /\ Forall (fun line => line <> healthy) (new_project_recommendations new_projects).
Proof.
  unfold new_project_recommendations. destruct new_projects as [[|p projects]|].
  - split; [reflexivity|constructor].
  - split.
    + cbn [length]. now rewrite length_map, length_take.
    + constructor.
      * intros H. apply (f_equal head) in H. vm_compute in H. discriminate.
      * apply List.Forall_forall. intros line Hin. apply in_map_iff in Hin as (q & <- & _).
        intros H. apply (f_equal head) in H. vm_compute in H. discriminate.
  - split; [reflexivity|constructor].
Qed.

(** X18: the recommendations and the summary agree.  There is always at least
    one recommendation and never more than nine; their number follows from the
    counts of the summary; the line that states full health is among them,
    and then the last one, exactly when [total_issues] is 0. *)
Theorem recommendations_agree_with_summary (verified : list project)
    (results : validation_results) (new_projects : option (list project)) :
  let recommendations := _generate_recommendations verified results new_projects in
  let summary := _generate_summary verified results new_projects in
  1 <= length recommendations <= 9
  /\ length recommendations
     = (if Nat.eqb (broken_links_count summary) 0 then 0 else 1)
       + (if Nat.eqb (broken_images_count summary) 0 then 0 else 1)
       + (if Nat.eqb (broken_videos_count summary) 0 then 0 else 1)
       + (if Nat.eqb (new_projects_found summary) 0 then 0
          else 1 + min 5 (new_projects_found summary))
       + (if Nat.eqb (total_issues summary) 0 then 1 else 0)
  /\ (healthy ∈ recommendations <-> total_issues summary = 0)
  /\ (healthy ∈ recommendations -> last recommendations = Some healthy).
Proof.
  cbv zeta.
  destruct (recommendations_parts verified results new_projects)
    as (l1 & l2 & l3 & -> & H1 & H2 & H3).
  destruct (new_project_recommendations_shape new_projects) as [Hlen Hnew].
  unfold _generate_summary.
  cbn [broken_links_count broken_images_count broken_videos_count new_projects_found
       total_issues].
  set (nl := length (default [] (broken_links results))).
  set (ni := length (default [] (broken_images results))).
  set (nv := length (default [] (broken_videos results))).
  assert (Hfound : (if Nat.eqb match new_projects with
                                | Some ((_ :: _) as projects) => length projects
                                | _ => 0
                                end 0
                    then 0
                    else 1 + min 5 match new_projects with
                                   | Some ((_ :: _) as projects) => length projects
                                   | _ => 0
                                   end)
                   = length (new_project_recommendations new_projects)).
  { rewrite Hlen. now destruct new_projects as [[|p projects]|]. }
  rewrite Hfound.
  assert (Hbody : Forall (fun line => line <> healthy)
                    ((if Nat.eqb nl 0 then [] else [l1]) ++ (if Nat.eqb ni 0 then [] else [l2])
                     ++ (if Nat.eqb nv 0 then [] else [l3])
                     ++ new_project_recommendations new_projects)).
  { repeat apply Forall_app_2; try assumption.
    - destruct (Nat.eqb nl 0); repeat constructor.
      intros ->. vm_compute in H1. discriminate.
    - destruct (Nat.eqb ni 0); repeat constructor.
      intros ->. vm_compute in H2. discriminate.
    - destruct (Nat.eqb nv 0); repeat constructor.
      intros ->. vm_compute in H3. discriminate. }
  assert (Hmax : length (new_project_recommendations new_projects) <= 6).
  { rewrite Hlen. destruct new_projects as [[|p projects]|]; lia. }
  assert (Hin : forall body : list str,
            Forall (fun line => line <> healthy) body -> healthy ∈ body -> False).
  { intros body Hall Hin.
    rewrite List.Forall_forall in Hall. apply list_elem_of_In in Hin.
    now destruct (Hall _ Hin). }
  rewrite !length_app.
  destruct (Nat.eqb_spec (nl + ni + nv) 0) as [Hzero|Hpos].
  - assert (nl = 0 /\ ni = 0 /\ nv = 0) as (-> & -> & ->) by lia.
    cbn [Nat.eqb app length]. repeat split; try lia.
    + intros _. apply elem_of_app. right. apply list_elem_of_singleton. reflexivity.
    + intros _. apply last_snoc.
  - repeat split.
    + destruct (Nat.eqb_spec nl 0), (Nat.eqb_spec ni 0), (Nat.eqb_spec nv 0);
        cbn [length]; lia.
    + destruct (Nat.eqb nl 0), (Nat.eqb ni 0), (Nat.eqb nv 0); cbn [length]; lia.
    + destruct (Nat.eqb nl 0), (Nat.eqb ni 0), (Nat.eqb nv 0); cbn [length]; lia.
    + intros H. exfalso. rewrite app_nil_r in H. exact (Hin _ Hbody H).
    + intros H. exfalso. lia.
    + intros H. exfalso. rewrite app_nil_r in H. exact (Hin _ Hbody H).
Qed.

Lemma startswith_separator (keyword a : str) (c : ascii) (b : str) :
  char_in c keyword = false -> keyword <> [] ->
  startswith keyword (a ++ c :: b) = startswith keyword a.
Proof.
  revert keyword. induction a as [|y a IH]; intros keyword Hc Hne.
  - destruct keyword as [|x keyword]; [congruence|]. simpl in *.
    apply orb_false_elim in Hc as [Hx _]. rewrite Ascii.eqb_sym in Hx. now rewrite Hx.
  - destruct keyword as [|x keyword]; [congruence|]. simpl in *.
    apply orb_false_elim in Hc as [_ Hc].
    destruct keyword as [|x' keyword]; [reflexivity|].
    now rewrite (IH (x' :: keyword) Hc).
Qed.

(** A keyword that does not contain the separator occurs in a text with one
    separator only if it occurs on one side of it. *)
Lemma str_in_separator (keyword a : str) (c : ascii) (b : str) :
  char_in c keyword = false -> keyword <> [] ->
  str_in keyword (a ++ c :: b) = str_in keyword a || str_in keyword b.
Proof.
  intros Hc Hne. induction a as [|y a IH].
  - pose proof (startswith_separator keyword [] c b Hc Hne) as Hs.
    change ([] ++ c :: b) with (c :: b) in *. cbn [str_in]. rewrite Hs.
    destruct keyword; [congruence|]. reflexivity.
  - pose proof (startswith_separator keyword (y :: a) c b Hc Hne) as Hs.
    change ((y :: a) ++ c :: b) with (y :: (a ++ c :: b)) in *. cbn [str_in].
    rewrite IH, Hs. now rewrite orb_assoc.
Qed.

Lemma str_in_fields (p : project) (keyword : str) :
  char_in " " keyword = false -> keyword <> [] ->
  str_in keyword (lower (default [] (title p)) ++ py " "
                  ++ lower (default [] (snippet p)) ++ py " "
                  ++ lower (default [] (url p)))
  = mentions p keyword.
Proof.
  intros Hc Hne. unfold mentions. change (py " ") with [" "%char].
  cbn [app]. now rewrite !str_in_separator, orb_assoc by assumption.
Qed.

(** X19: [suggest_portfolio_section] reads the title, the snippet and the URL
    one by one: no keyword is found across two of them.  The section is
    [campaigns] when a brand keyword occurs in one of the three, else
    [podcast], [writing] or [ai-projects] by the first kind of keyword that
    occurs, and [campaigns] when none does. *)
Theorem suggest_portfolio_section_by_field (p : project) :
  suggest_portfolio_section p
  = if existsb (mentions p) brand_keywords then py "campaigns"
    else if mentions p (py "podcast") then py "podcast"
    else if existsb (mentions p) writing_keywords then py "writing"
    else if existsb (mentions p) ai_keywords then py "ai-projects"
    else py "campaigns".
Proof.
  unfold suggest_portfolio_section, brand_keywords, writing_keywords, ai_keywords.
  cbn [existsb].
  now rewrite !str_in_fields by (vm_compute; congruence).
Qed.

End ReportSummary.

Lemma recommendations_agree_with_summary_witness :
  last (ReportGenerator._generate_recommendations []
          (ReportGenerator.mkResults (Some []) None None) None)
  = Some ReportGenerator.healthy.
Proof.
  apply (proj2 (proj2 (proj2 (recommendations_agree_with_summary []
                                (ReportGenerator.mkResults (Some []) None None) None)))).
  apply (proj2 (list_elem_of_In _ _)). left. reflexivity.
Defined.

(** ** The title test of the single-file agent *)

Section LegacyTitles.
Import Py.

Variable chk : str -> bool.

Local Abbreviation words_of := (fun text : str => (list_to_set (split text) : gset str)).
Local Abbreviation max_step :=
  (fun (words : gset str) (max_sim : Q) (t : str) =>
     if negb (bool_decide (words = ∅)) || negb (bool_decide (words_of t = ∅))
     then if Qltb max_sim (Legacy.word_overlap words (words_of t))
          then Legacy.word_overlap words (words_of t) else max_sim
     else max_sim).

Lemma Qltb_false (x y : Q) : Qltb x y = false <-> (y <= x)%Q.
Proof.
  unfold Qltb. rewrite negb_false_iff. apply Qle_bool_iff.
Qed.

Lemma Qltb_true (x y : Q) : Qltb x y = true <-> (x < y)%Q.
Proof.
  unfold Qltb. rewrite negb_true_iff, <- not_true_iff_false, Qle_bool_iff.
  split; [apply Qnot_le_lt|apply Qlt_not_le].
Qed.

Lemma word_overlap_self (words : gset str) :
  words <> ∅ -> (Legacy.word_overlap words words == 1)%Q.
Proof.
  intros Hne. unfold Legacy.word_overlap.
  rewrite (idemp_L (∩) words), (idemp_L (∪) words).
  assert (Hsize : size words <> 0).
  { intros Hz. apply Hne. apply leibniz_equiv. now apply size_empty_inv. }
  unfold Qeq. simpl. destruct (size words) as [|n]; [congruence|]. lia.
Qed.

Lemma word_overlap_empty (t_words : gset str) :
  Qltb 0 (Legacy.word_overlap ∅ t_words) = false.
Proof.
  apply Qltb_false. unfold Legacy.word_overlap.
  rewrite (left_absorb_L ∅ (∩)), size_empty. unfold Qle. simpl. lia.
Qed.

Lemma max_sim_grows (words : gset str) (texts : list str) : forall max_sim,
  (max_sim <= fold_left (max_step words) texts max_sim)%Q.
Proof.
  induction texts as [|t texts IH]; intros max_sim; [apply Qle_refl|].
  simpl. destruct (negb _ || negb _); [|apply IH].
  destruct (Qltb max_sim _) eqn:Hlt; [|apply IH].
  apply Qltb_true in Hlt. exact (Qle_trans _ _ _ (Qlt_le_weak _ _ Hlt) (IH _)).
Qed.

Lemma max_step_reaches (words : gset str) (max_sim : Q) (t : str) :
  words <> ∅ ->
  (Legacy.word_overlap words (words_of t) <= max_step words max_sim t)%Q.
Proof.
  intros Hne. cbv beta. rewrite (bool_decide_eq_false_2 (words = ∅)) by assumption.
  cbn [negb orb].
  destruct (Qltb max_sim _) eqn:Hlt; [apply Qle_refl|]. now apply Qltb_false in Hlt.
Qed.

Lemma max_sim_reaches (words : gset str) (texts : list str) (t : str) : forall max_sim,
  In t texts -> words <> ∅ ->
  (Legacy.word_overlap words (words_of t) <= fold_left (max_step words) texts max_sim)%Q.
Proof.
  induction texts as [|t' texts IH]; intros max_sim Hin Hne; [destruct Hin|].
  change (fold_left (max_step words) (t' :: texts) max_sim)
    with (fold_left (max_step words) texts (max_step words max_sim t')).
  destruct Hin as [-> | Hin]; [|now apply IH].
  exact (Qle_trans _ _ _ (max_step_reaches words max_sim t Hne) (max_sim_grows words texts _)).
Qed.

Lemma max_sim_without_words (texts : list str) :
  fold_left (max_step ∅) texts 0%Q = 0%Q.
Proof.
  induction texts as [|t texts IH]; [reflexivity|]. simpl.
  destruct (negb _ || negb _); [|exact IH]. now rewrite word_overlap_empty.
Qed.

Lemma split_words_empty (text : str) :
  (list_to_set (split text) : gset str) = ∅ <-> split text = [].
Proof.
  split; [|now intros ->].
  destruct (split text) as [|w ws]; [reflexivity|]. intros H. exfalso.
  assert (Hin : w ∈ (list_to_set (w :: ws) : gset str))
    by (apply elem_of_list_to_set, elem_of_cons; now left).
  rewrite H in Hin. now apply not_elem_of_empty in Hin.
Qed.

(** The title test of [_deduplicate_projects]. *)
Lemma legacy_title_test (title : str) (seen_titles : gset str) :
  bool_decide (title ∉ seen_titles)
  || Qltb (Legacy._calculate_similarity title (elements seen_titles)) (8 # 10)
  = negb (bool_decide (title ∈ seen_titles) && Legacy.has_word title).
Proof.
  destruct (decide (title ∈ seen_titles)) as [Hin|Hout].
  - rewrite (bool_decide_eq_false_2 (title ∉ seen_titles)) by tauto.
    rewrite (bool_decide_eq_true_2 (title ∈ seen_titles)) by assumption. simpl.
    unfold Legacy._calculate_similarity.
    destruct (Nat.eqb (length (elements seen_titles)) 0) eqn:Hlen.
    { exfalso. apply Nat.eqb_eq, length_zero_iff_nil in Hlen.
      apply elem_of_elements in Hin. rewrite Hlen in Hin. now apply elem_of_nil in Hin. }
    unfold Legacy.has_word. destruct (split title) as [|w ws] eqn:Hsplit.
    + simpl. now rewrite max_sim_without_words.
    + cbn [length Nat.eqb negb]. apply Qltb_false.
      assert (Hne : (list_to_set (w :: ws) : gset str) <> ∅).
      { rewrite <- Hsplit, split_words_empty, Hsplit. discriminate. }
      eapply Qle_trans; [|apply (max_sim_reaches _ _ title)].
      * rewrite Hsplit, (word_overlap_self _ Hne). unfold Qle. simpl. lia.
      * apply list_elem_of_In, elem_of_elements, Hin.
      * exact Hne.
  - rewrite (bool_decide_eq_true_2 (title ∉ seen_titles)) by assumption.
    now rewrite (bool_decide_eq_false_2 (title ∈ seen_titles)) by assumption.
Qed.

(** X20: the title test of the single-file agent.  In an iteration of the loop
    of [_deduplicate_projects] a record with a new, non-empty normalized URL
    is left out for its title exactly when the same lower-cased title has been
    accepted before and contains a word; how similar the title is to other
    accepted titles makes no difference. *)
Theorem legacy_dedup_step_exact_title (st : Legacy.dedup_state) (p : project)
    (normalized_url : str) :
  Legacy._normalize_url chk (lower (default [] (url p))) = Some normalized_url ->
  Legacy.dedup_step chk st p
  = Some (if negb (is_empty normalized_url)
             && bool_decide (normalized_url ∉ Legacy.seen_urls st)
             && negb (bool_decide (lower (default [] (title p)) ∈ Legacy.seen_titles st)
                      && Legacy.has_word (lower (default [] (title p))))
          then Legacy.mkDedup ({[normalized_url]} ∪ Legacy.seen_urls st)
                              ({[lower (default [] (title p))]} ∪ Legacy.seen_titles st)
                              (Legacy.unique st ++ [p])
          else st).
Proof.
  intros Hn. unfold Legacy.dedup_step. rewrite Hn, legacy_title_test.
  destruct (negb (is_empty normalized_url)
            && bool_decide (normalized_url ∉ Legacy.seen_urls st)); [|reflexivity].
  cbn [andb]. now destruct (negb (_ && _)).
Qed.

End LegacyTitles.

(** A second record whose title differs by one word from an accepted one is
    accepted. *)
Lemma legacy_dedup_step_exact_title_witness :
  exists st,
    Legacy.dedup_step UrlParse.no_bracket_check
      (Legacy.mkDedup {[py "https://site.com/a"]} {[py "nike campaign film 2024 launch"]}
         [Sample.record (Some (py "Nike campaign film 2024 launch"))
                        (Some (py "https://site.com/a"))])
      (Sample.record (Some (py "Nike campaign film 2024 launch now"))
                     (Some (py "https://site.com/b"))) = Some st
    /\ length (Legacy.unique st) = 2.
Proof.
  eexists. split.
  - apply (legacy_dedup_step_exact_title UrlParse.no_bracket_check _ _ (py "https://site.com/b")).
    vm_compute. reflexivity.
  - vm_compute. reflexivity.
Defined.

(** ** The similarity of two titles *)

Section SimilarityMeasure.
Import Py Discovery.

Lemma overlap_sizes (words1 words2 : gset str) :
  size (words1 ∩ words2) <= size (words1 ∪ words2).
Proof.
  apply subseteq_size. transitivity words1;
    [apply intersection_subseteq_l|apply union_subseteq_l].
Qed.

Lemma intersection_words_comm (words1 words2 : gset str) : words1 ∩ words2 = words2 ∩ words1.
Proof. apply (comm_L (∩)). Qed.

Lemma union_words_comm (words1 words2 : gset str) : words1 ∪ words2 = words2 ∪ words1.
Proof. apply (comm_L (∪)). Qed.

Lemma overlap_full (words1 words2 : gset str) :
  size (words1 ∩ words2) = size (words1 ∪ words2) <-> words1 = words2.
Proof.
  split.
  - intros Hsize.
    assert (Heq : words1 ∩ words2 = words1 ∪ words2).
    { apply set_subseteq_size_eq; [|lia]. transitivity words1;
        [apply intersection_subseteq_l|apply union_subseteq_l]. }
    apply leibniz_equiv, set_equiv_subseteq. split; intros x Hx.
    + assert (Hu : x ∈ words1 ∪ words2) by (apply elem_of_union; now left).
      rewrite <- Heq in Hu. now apply elem_of_intersection in Hu.
    + assert (Hu : x ∈ words1 ∪ words2) by (apply elem_of_union; now right).
      rewrite <- Heq in Hu. now apply elem_of_intersection in Hu.
  - intros ->. now rewrite (idemp_L (∩)), (idemp_L (∪)).
Qed.

(** X21: [_calculate_similarity] is symmetric and lies between 0 and 1.  For
    two non-empty texts it is 1 exactly when they have the same set of
    lower-cased words. *)
Theorem similarity_symmetric_bounded (text1 text2 : str) :
  _calculate_similarity text1 text2 = _calculate_similarity text2 text1
  /\ (0 <= _calculate_similarity text1 text2 <= 1)%Q
  /\ (text1 <> [] -> text2 <> [] ->
      ((_calculate_similarity text1 text2 == 1)%Q
       <-> (list_to_set (split (lower text1)) : gset str)
           = list_to_set (split (lower text2)))).
Proof.
  split; [|split].
  - unfold _calculate_similarity. rewrite (orb_comm (is_empty text2)).
    destruct (is_empty text1 || is_empty text2); [reflexivity|]. cbv zeta.
    set (words1 := list_to_set (split (lower text1)) : gset str).
    set (words2 := list_to_set (split (lower text2)) : gset str).
    now rewrite (andb_comm (bool_decide (words2 = ∅))),
                (orb_comm (bool_decide (words2 = ∅))),
                (intersection_words_comm words2 words1), (union_words_comm words2 words1).
  - unfold _calculate_similarity.
    destruct (is_empty text1 || is_empty text2); [split; unfold Qle; simpl; lia|].
    cbv zeta.
    set (words1 := list_to_set (split (lower text1)) : gset str).
    set (words2 := list_to_set (split (lower text2)) : gset str).
    destruct (bool_decide (words1 = ∅) && bool_decide (words2 = ∅));
      [split; unfold Qle; simpl; lia|].
    destruct (bool_decide (words1 = ∅) || bool_decide (words2 = ∅));
      [split; unfold Qle; simpl; lia|].
    pose proof (overlap_sizes words1 words2) as Hle.
    destruct (Nat.ltb_spec 0 (size (words1 ∪ words2))) as [Hpos|Hzero];
      [|split; unfold Qle; simpl; lia].
    destruct (size (words1 ∪ words2)) as [|u]; [lia|].
    split; unfold Qle; simpl; lia.
  - intros H1 H2. apply is_empty_cons in H1, H2. unfold _calculate_similarity.
    rewrite H1, H2. cbn [orb]. cbv zeta.
    set (words1 := list_to_set (split (lower text1)) : gset str).
    set (words2 := list_to_set (split (lower text2)) : gset str).
    destruct (decide (words1 = ∅)) as [He1|Hne1], (decide (words2 = ∅)) as [He2|Hne2].
    + rewrite !bool_decide_eq_true_2 by assumption. cbn [andb].
      split; [intros _; congruence|reflexivity].
    + rewrite (bool_decide_eq_true_2 _ He1), (bool_decide_eq_false_2 _ Hne2).
      cbn [andb orb]. split; [intros H; now vm_compute in H|congruence].
    + rewrite (bool_decide_eq_false_2 _ Hne1), (bool_decide_eq_true_2 _ He2).
      cbn [andb orb]. split; [intros H; now vm_compute in H|congruence].
    + rewrite (bool_decide_eq_false_2 _ Hne1), (bool_decide_eq_false_2 _ Hne2).
      cbn [andb orb]. rewrite <- overlap_full.
      pose proof (overlap_sizes words1 words2) as Hle.
      assert (Hu : size (words1 ∪ words2) <> 0).
      { intros Hz. apply size_empty_inv in Hz. apply Hne1. apply leibniz_equiv.
        apply set_equiv_subseteq. split; intros x Hx.
        - apply Hz. apply elem_of_union. now left.
        - now apply elem_of_empty in Hx. }
      destruct (Nat.ltb_spec 0 (size (words1 ∪ words2))) as [Hpos|Hzero]; [|lia].
      destruct (size (words1 ∪ words2)) as [|u]; [lia|].
      unfold Qeq. simpl. lia.
Qed.

End SimilarityMeasure.

Lemma similarity_symmetric_bounded_witness :
  (Discovery._calculate_similarity (py "Launch Film") (py "film  launch") == 1)%Q.
Proof.
  assert (H1 : py "Launch Film" <> []) by discriminate.
  assert (H2 : py "film  launch" <> []) by discriminate.
  apply (proj2 (proj2 (proj2 (similarity_symmetric_bounded (py "Launch Film")
                                (py "film  launch"))) H1 H2)).
  now vm_compute.
Defined.
